(** * Infinite Zoom: frame extractor and zoom viewer

    A shallow embedding of the two components of the application,
    [VideoFrameExtractor] and [InfiniteZoomViewer], together with the
    properties their specification states about them.

    Conventions of the embedding.
    - Loop counters, frame indices and pixel dimensions are integers ([Z]).
      The frame index of the viewer can also become [NaN] (JavaScript's
      remainder by zero), so it has a type of its own, [Js.num].
    - Seek times, progress percentages, zoom and pan values are JavaScript
      numbers used as reals; they are modelled by exact rationals ([Q]).
      The duration of a video can also be infinite or NaN ([Js.real]).
    - Rounding of binary64 arithmetic is modelled where a truncation to
      whole pixels makes it visible, in the sizing of the canvas
      ([Js.fdiv], [Js.fmul]); elsewhere finite arithmetic is exact.
    - React state is a record; a state setter replaces a field.  The
      extractor, which also talks to the DOM and to its parent, runs in a
      small monad over a [World] with a chronological trace of effects. *)

From Stdlib Require Import ZArith QArith Qround Qpower List String Bool Lia Lqa.
From Stdlib Require Import DecimalString.
Import ListNotations.

Open Scope Z_scope.

(** ** JavaScript numbers used as indices *)

Module Js.

(** An integer-valued number, or NaN. *)
Inductive num : Type :=
| Int (z : Z)
| NaN.

Definition add (a b : num) : num :=
  match a, b with
  | Int x, Int y => Int (x + y)
  | _, _ => NaN
  end.

Definition sub (a b : num) : num :=
  match a, b with
  | Int x, Int y => Int (x - y)
  | _, _ => NaN
  end.

(** [a % b]: the remainder takes the sign of the dividend, and a zero
    divisor gives NaN. *)
Definition rem (a b : num) : num :=
  match a, b with
  | Int x, Int y => if y =? 0 then NaN else Int (Z.rem x y)
  | _, _ => NaN
  end.

(** [Math.max] and [Math.min] return NaN when an argument is NaN. *)
Definition max (a b : num) : num :=
  match a, b with
  | Int x, Int y => Int (Z.max x y)
  | _, _ => NaN
  end.

Definition min (a b : num) : num :=
  match a, b with
  | Int x, Int y => Int (Z.min x y)
  | _, _ => NaN
  end.

(** [a > b] on real-valued numbers. *)
Definition gtb (a b : Q) : bool := negb (Qle_bool a b).

(** Conversion to a WebIDL [unsigned long] attribute: the fraction is
    dropped (towards zero) and the integer is taken modulo 2^32. *)
Definition truncate (q : Q) : Z :=
  if Qle_bool 0 q then Qfloor q else Qceiling q.

Definition toUnsignedLong (q : Q) : Z := truncate q mod 2 ^ 32.

(** [Math.round]: the nearest integer, halves rounded up. *)
Definition round (q : Q) : Z := Qfloor (q + (1 # 2)).

(** *** Binary64 rounding *)

(** The binade of a positive number: the [g] with [2^g <= x < 2^(g+1)]. *)
Definition binade (x : Q) : Z :=
  let g := Z.log2 (Qnum x) - Z.log2 (Zpos (Qden x)) in
  if Qle_bool (2 ^ g) x then g else g - 1.

(** The nearest integer, ties to the even one. *)
Definition roundHalfEven (x : Q) : Z :=
  let fl := Qfloor x in
  match (x - inject_Z fl ?= 1 # 2)%Q with
  | Lt => fl
  | Gt => fl + 1
  | Eq => if Z.even fl then fl else fl + 1
  end.

(** The binary64 number nearest to a positive [x]: a significand of 53
    bits at the binade of [x].  The range of the exponent is not limited:
    the quotients and products of pixel counts are far from it. *)
Definition nearest53 (x : Q) : Q :=
  let e := binade x - 52 in
  (inject_Z (roundHalfEven (x / 2 ^ e)) * 2 ^ e)%Q.

Definition round53 (x : Q) : Q :=
  match (x ?= 0)%Q with
  | Eq => 0%Q
  | Gt => nearest53 x
  | Lt => (- nearest53 (- x))%Q
  end.

(** [a / b] and [a * b] on binary64 numbers: the exact result, rounded. *)
Definition fdiv (a b : Q) : Q := round53 (a / b).

Definition fmul (a b : Q) : Q := round53 (a * b).

(** Half an ulp of 1, the relative error of [round53], and a bound of the
    error of two roundings in a row. *)
Definition ulp53 : Q := 1 # 9007199254740992.

Definition ulp51 : Q := 1 # 2251799813685248.

(** *** Numbers that need not be finite *)

(** A real, an infinity with its sign, or NaN.  The two zeros are not told
    apart, and arithmetic on finite operands is exact. *)
Inductive real : Type :=
| Finite (q : Q)
| Infinity (negative : bool)
| NotANumber.

Definition isFinite (a : real) : bool :=
  match a with
  | Finite _ => true
  | _ => false
  end.

Definition isNegative (q : Q) : bool := negb (Qle_bool 0 q).

(** [a / b] *)
Definition rdiv (a b : real) : real :=
  match a, b with
  | NotANumber, _ => NotANumber
  | _, NotANumber => NotANumber
  | Infinity _, Infinity _ => NotANumber
  | Infinity s, Finite y => Infinity (xorb s (isNegative y))
  | Finite _, Infinity _ => Finite 0
  | Finite x, Finite y =>
      if Qeq_bool y 0 then
        if Qeq_bool x 0 then NotANumber else Infinity (isNegative x)
      else Finite (x / y)
  end.

(** [a * b] *)
Definition rmul (a b : real) : real :=
  match a, b with
  | NotANumber, _ => NotANumber
  | _, NotANumber => NotANumber
  | Infinity s, Infinity t => Infinity (xorb s t)
  | Infinity s, Finite y =>
      if Qeq_bool y 0 then NotANumber else Infinity (xorb s (isNegative y))
  | Finite x, Infinity t =>
      if Qeq_bool x 0 then NotANumber else Infinity (xorb (isNegative x) t)
  | Finite x, Finite y => Finite (x * y)
  end.

End Js.

(** ** The zoom viewer (InfiniteZoomViewer) *)

Module Viewer.

Record point : Type := mkPoint { x : Q; y : Q }.

(** The [useState] cells of the component. *)
Record ViewerState : Type := mkViewer {
  currentFrameIndex : Js.num;
  isAutoPlaying : bool;
  zoomLevel : Q;
  panPosition : point;
  isDragging : bool;
  lastMousePos : point
}.

Definition initialState : ViewerState :=
  {| currentFrameIndex := Js.Int 0;
     isAutoPlaying := false;
     zoomLevel := 1%Q;
     panPosition := mkPoint 0 0;
     isDragging := false;
     lastMousePos := mkPoint 0 0 |}.

Definition setCurrentFrameIndex (f : Js.num -> Js.num) (s : ViewerState) :=
  {| currentFrameIndex := f (currentFrameIndex s);
     isAutoPlaying := isAutoPlaying s;
     zoomLevel := zoomLevel s;
     panPosition := panPosition s;
     isDragging := isDragging s;
     lastMousePos := lastMousePos s |}.

Definition setIsAutoPlaying (f : bool -> bool) (s : ViewerState) :=
  {| currentFrameIndex := currentFrameIndex s;
     isAutoPlaying := f (isAutoPlaying s);
     zoomLevel := zoomLevel s;
     panPosition := panPosition s;
     isDragging := isDragging s;
     lastMousePos := lastMousePos s |}.

Definition setZoomLevel (z : Q) (s : ViewerState) :=
  {| currentFrameIndex := currentFrameIndex s;
     isAutoPlaying := isAutoPlaying s;
     zoomLevel := z;
     panPosition := panPosition s;
     isDragging := isDragging s;
     lastMousePos := lastMousePos s |}.

Definition setPanPosition (f : point -> point) (s : ViewerState) :=
  {| currentFrameIndex := currentFrameIndex s;
     isAutoPlaying := isAutoPlaying s;
     zoomLevel := zoomLevel s;
     panPosition := f (panPosition s);
     isDragging := isDragging s;
     lastMousePos := lastMousePos s |}.

Definition setIsDragging (b : bool) (s : ViewerState) :=
  {| currentFrameIndex := currentFrameIndex s;
     isAutoPlaying := isAutoPlaying s;
     zoomLevel := zoomLevel s;
     panPosition := panPosition s;
     isDragging := b;
     lastMousePos := lastMousePos s |}.

Definition setLastMousePos (p : point) (s : ViewerState) :=
  {| currentFrameIndex := currentFrameIndex s;
     isAutoPlaying := isAutoPlaying s;
     zoomLevel := zoomLevel s;
     panPosition := panPosition s;
     isDragging := isDragging s;
     lastMousePos := p |}.

(** What the user and the timer can do to the component. *)
Inductive event : Type :=
| Wheel (deltaY : Q)
| MouseDown (clientX clientY : Q)
| MouseMove (clientX clientY : Q)
| MouseUp
| MouseLeave
| KeyDown (key : string)
| FrameSlider (value : Z)
| ZoomSlider (value : Q)
| ClickPlay
| ClickReset
| Tick.

Section Handlers.

(** The [frames] prop; the handlers only read [frames.length]. *)
Variable frames : list string.

Definition len : Js.num := Js.Int (Z.of_nat (List.length frames)).

(** The callback of the 150 ms interval. *)
Definition autoPlayStep : ViewerState -> ViewerState :=
  setCurrentFrameIndex (fun prev => Js.rem (Js.add prev (Js.Int 1)) len).

(** The interval is only set while [isAutoPlaying && frames.length > 0]. *)
Definition autoPlayTick (s : ViewerState) : ViewerState :=
  if isAutoPlaying s && (0 <? Z.of_nat (List.length frames))
  then autoPlayStep s
  else s.

Definition handleWheel (deltaY : Q) : ViewerState -> ViewerState :=
  let delta := if Js.gtb deltaY 0 then Js.Int 1 else Js.Int (-1) in
  setCurrentFrameIndex (fun prev =>
    let newIndex := Js.add prev delta in
    Js.max (Js.Int 0) (Js.min (Js.sub len (Js.Int 1)) newIndex)).

Definition handleMouseDown (clientX clientY : Q) (s : ViewerState) :=
  setLastMousePos (mkPoint clientX clientY) (setIsDragging true s).

(** [handleMouseMove] is a callback with dependencies [isDragging] and
    [lastMousePos]: it reads these two from the render it was created in
    ([captured]), while the updater of [setPanPosition] adds to the pan
    offset of the state as it is when the event is handled ([s]). *)
Definition handleMouseMove (captured : ViewerState) (clientX clientY : Q)
    (s : ViewerState) :=
  if negb (isDragging captured) then s
  else
    let deltaX := (clientX - x (lastMousePos captured))%Q in
    let deltaY := (clientY - y (lastMousePos captured))%Q in
    setLastMousePos (mkPoint clientX clientY)
      (setPanPosition
         (fun prev => mkPoint (x prev + deltaX)%Q (y prev + deltaY)%Q) s).

Definition handleMouseUp : ViewerState -> ViewerState :=
  setIsDragging false.

Definition reset (s : ViewerState) : ViewerState :=
  setIsAutoPlaying (fun _ => false)
    (setCurrentFrameIndex (fun _ => Js.Int 0)
       (setPanPosition (fun _ => mkPoint 0 0)
          (setZoomLevel 1%Q s))).

Definition toggleAutoPlay : ViewerState -> ViewerState :=
  setIsAutoPlaying negb.

Definition handleKeyPress (key : string) (s : ViewerState) : ViewerState :=
  if String.eqb key "ArrowLeft" then
    setCurrentFrameIndex
      (fun prev => Js.rem (Js.add (Js.sub prev (Js.Int 1)) len) len) s
  else if String.eqb key "ArrowRight" then
    setCurrentFrameIndex (fun prev => Js.rem (Js.add prev (Js.Int 1)) len) s
  else if String.eqb key " " then
    setIsAutoPlaying negb s
  else if String.eqb key "r" then
    reset s
  else s.

(** What the component returns from its render function. *)
Inductive view : Type :=
| Placeholder
| Image (src : option string) (counter : Js.num).

Definition render (s : ViewerState) : view :=
  if (Z.of_nat (List.length frames) =? 0) then Placeholder
  else
    Image
      match currentFrameIndex s with
      | Js.Int i => if i <? 0 then None else nth_error frames (Z.to_nat i)
      | Js.NaN => None
      end
      (Js.add (currentFrameIndex s) (Js.Int 1)).

(** Routing of an event to its handler.  The keydown listener is on
    [window] and is installed by an effect, whatever is rendered; the
    wheel listener, the pointer handlers, the sliders and the buttons
    belong to elements that only exist when the component does not
    return the placeholder.  [captured] is the state at the render the
    handlers were created in, [s] the state when the event is handled;
    all handlers but [handleMouseMove] go through functional updaters and
    read nothing from [captured]. *)
Definition handle (captured : ViewerState) (ev : event) (s : ViewerState)
    : ViewerState :=
  match ev with
  | KeyDown key => handleKeyPress key s
  | Tick => autoPlayTick s
  | _ =>
    match render s with
    | Placeholder => s
    | Image _ _ =>
      match ev with
      | Wheel deltaY => handleWheel deltaY s
      | MouseDown cx cy => handleMouseDown cx cy s
      | MouseMove cx cy => handleMouseMove captured cx cy s
      | MouseUp | MouseLeave => handleMouseUp s
      | FrameSlider v => setCurrentFrameIndex (fun _ => Js.Int v) s
      | ZoomSlider v => setZoomLevel v s
      | ClickPlay => toggleAutoPlay s
      | ClickReset => reset s
      | KeyDown _ | Tick => s
      end
    end
  end.

(** An event that arrives after the component has rendered the state
    [s]: the handlers are those of that render. *)
Definition dispatch (ev : event) (s : ViewerState) : ViewerState :=
  handle s ev s.

(** Events that are all handled before the component renders again: the
    handlers are those of the render of the state the batch starts in. *)
Definition batch (evs : list event) (s : ViewerState) : ViewerState :=
  fold_left (fun st ev => handle s ev st) evs s.

(** The values the two [Slider] controls can report: the frame slider
    has [min = 0] (the default), [max = frames.length - 1], [step = 1];
    the zoom slider has [min = 0.5], [max = 5]. *)
Definition emitted_by_controls (ev : event) : Prop :=
  match ev with
  | FrameSlider v => 0 <= v <= Z.of_nat (List.length frames) - 1
  | ZoomSlider v => (5 # 10 <= v /\ v <= 5)%Q
  | _ => True
  end.

(** The invariants the data model states for ViewerState. *)
Definition index_in_range (s : ViewerState) : Prop :=
  exists i, currentFrameIndex s = Js.Int i
            /\ 0 <= i < Z.of_nat (List.length frames).

Definition zoom_in_range (s : ViewerState) : Prop :=
  (5 # 10 <= zoomLevel s /\ zoomLevel s <= 5)%Q.

Definition invariants (s : ViewerState) : Prop :=
  index_in_range s /\ zoom_in_range s.

End Handlers.

(** The frame sequence the component holds and the state it is in, from
    its mount on.  The parent can re-render the component with another
    sequence, which leaves the state as it is; an event is handled by the
    handlers of some earlier render on the same sequence. *)
Inductive reachable : list string -> ViewerState -> Prop :=
| reachable_mount frames : reachable frames initialState
| reachable_event frames captured s ev :
    reachable frames captured -> reachable frames s ->
    emitted_by_controls frames ev ->
    reachable frames (handle frames captured ev s)
| reachable_props frames frames' s :
    reachable frames s -> reachable frames' s.

(** The same, for a component that has only held sequences of [n] frames
    since its mount: for one, a component mounted on a sequence that has
    not been replaced. *)
Inductive reachableWithin (n : nat) : list string -> ViewerState -> Prop :=
| within_mount frames :
    List.length frames = n -> reachableWithin n frames initialState
| within_event frames captured s ev :
    reachableWithin n frames captured -> reachableWithin n frames s ->
    emitted_by_controls frames ev ->
    reachableWithin n frames (handle frames captured ev s)
| within_props frames frames' s :
    List.length frames' = n ->
    reachableWithin n frames s -> reachableWithin n frames' s.

(** The inputs the specification calls navigation inputs. *)
Definition navigation_input (ev : event) : Prop :=
  match ev with
  | Wheel _ | FrameSlider _ | ZoomSlider _ | Tick => True
  | KeyDown key =>
      key = "ArrowLeft"%string \/ key = "ArrowRight"%string
      \/ key = " "%string \/ key = "r"%string
  | _ => False
  end.

(** The state after a sequence of events, in the order they arrive. *)
Definition run (frames : list string) (evs : list event) (s : ViewerState)
    : ViewerState :=
  fold_left (fun st ev => dispatch frames ev st) evs s.

(** The arguments of [translate(...)] in the style of the image. *)
Definition translateArgs (s : ViewerState) : point :=
  mkPoint (x (panPosition s) / zoomLevel s) (y (panPosition s) / zoomLevel s).

(** Where [transform: scale(z) translate(tx, ty)] with origin at the
    center puts the center of the image: a point [p] goes to
    [z * (p + t)], so the center goes to [z * t]. *)
Definition screenOffset (s : ViewerState) : point :=
  mkPoint (zoomLevel s * x (translateArgs s)) (zoomLevel s * y (translateArgs s)).

(** The state after a sequence of batches, with a render after each. *)
Definition runBatches (frames : list string) (batches : list (list event))
    (s : ViewerState) : ViewerState :=
  fold_left (fun st evs => batch frames evs st) batches s.

(** The pointer positions of a drag, as move events. *)
Definition moves (path : list point) : list event :=
  map (fun p => MouseMove (x p) (y p)) path.

End Viewer.

(** ** The frame extractor (VideoFrameExtractor) *)

Module Extractor.

Definition FRAME_SIZE : Z := 100.

(** The sentence of the "Auto Extract" card of the index page. *)
Definition autoExtractCopy : string :=
  "Automatically extracts 50 optimized frames from your video".

Record File : Type := mkFile { name : string; type : string }.

(** The hidden [<video>] element: its source and what the handlers read
    and write of it.  [durationValue] is [video.duration] as JavaScript has
    it: NaN without metadata, infinite for an unbounded stream. *)
Record HTMLVideoElement : Type := mkVideo {
  src : option File;
  durationValue : Js.real;
  videoWidth : Z;
  videoHeight : Z;
  currentTime : Q
}.

(** [video.duration] in seconds when it is finite (and 0 when it is not:
    what the code does then is told by [durationValue]). *)
Definition duration (v : HTMLVideoElement) : Q :=
  match durationValue v with
  | Js.Finite d => d
  | _ => 0%Q
  end.

(** The hidden [<canvas>] element; [context2d] tells whether
    [getContext('2d')] gives a context. *)
Record HTMLCanvasElement : Type := mkCanvas {
  context2d : bool;
  width : Z;
  height : Z
}.

(** What the component does to the outside and to its own state, in the
    order in which it happens. *)
Inductive effect : Type :=
| ToastSuccess (msg : string)
| ToastError (msg : string)
| ConsoleError (msg : string)
| SetIsExtracting (b : bool)
| SetProgress (p : Q)
| SetVideoFile (f : File)
| Seek (t : Q)
| DrawImage (w h : Z)
| OnFramesExtracted (frames : list string).

(** React state, the two element refs and the trace. *)
Record World : Type := mkWorld {
  isExtracting : bool;
  progress : Q;
  videoFile : option File;
  videoRef : option HTMLVideoElement;
  canvasRef : option HTMLCanvasElement;
  trace : list effect
}.

(** What the browser decides. *)
Record Platform : Type := mkPlatform {
  (** metadata of a file given as source; [None]: the element fires
      [error] instead of [loadedmetadata] *)
  loadMetadata : File -> option (Js.real * Z * Z);
  (** whether [seeked] is fired after [currentTime] was set *)
  seeked : HTMLVideoElement -> bool;
  (** [drawImage] of the video at its current position on a canvas of the
      given size followed by [toDataURL('image/jpeg', 0.8)]; [None]: one
      of the two throws *)
  toDataURL : HTMLVideoElement -> Z -> Z -> option string
}.

(** How a piece of (asynchronous) code ends: it returns, it throws, or it
    awaits a promise that is never settled. *)
Inductive outcome (A : Type) : Type :=
| Returned (a : A)
| Thrown (msg : string)
| Pending.
Arguments Returned {A} a.
Arguments Thrown {A} msg.
Arguments Pending {A}.

Definition js (A : Type) : Type := World -> outcome A * World.

Definition ret {A} (a : A) : js A := fun w => (Returned a, w).

Definition throw {A} (msg : string) : js A := fun w => (Thrown msg, w).

Definition pending {A} : js A := fun w => (Pending, w).

Definition bind {A B} (m : js A) (k : A -> js B) : js B :=
  fun w =>
    match m w with
    | (Returned a, w') => k a w'
    | (Thrown msg, w') => (Thrown msg, w')
    | (Pending, w') => (Pending, w')
    end.

(** [try { body } catch (error) { handler } finally { final }] *)
Definition tryCatchFinally {A} (body : js A) (handler : string -> js A)
    (final : js unit) : js A :=
  fun w =>
    match body w with
    | (Returned a, w1) => bind final (fun _ => ret a) w1
    | (Thrown msg, w1) =>
        match handler msg w1 with
        | (Pending, w2) => (Pending, w2)
        | (r, w2) => bind final (fun _ => fun w3 => (r, w3)) w2
        end
    | (Pending, w1) => (Pending, w1)
    end.

Declare Scope js_scope.
Delimit Scope js_scope with js.
Notation "x <- m ;; k" := (bind m (fun x => k))
  (at level 61, m at next level, right associativity) : js_scope.
Notation "m ;; k" := (bind m (fun _ => k))
  (at level 61, right associativity) : js_scope.
Open Scope js_scope.

Definition getWorld : js World := fun w => (Returned w, w).

Definition emit (e : effect) : js unit :=
  fun w =>
    (Returned tt,
     {| isExtracting := isExtracting w; progress := progress w;
        videoFile := videoFile w; videoRef := videoRef w;
        canvasRef := canvasRef w; trace := trace w ++ [e] |}).

Definition setIsExtracting (b : bool) : js unit :=
  fun w =>
    (Returned tt,
     {| isExtracting := b; progress := progress w;
        videoFile := videoFile w; videoRef := videoRef w;
        canvasRef := canvasRef w; trace := trace w ++ [SetIsExtracting b] |}).

Definition setProgress (p : Q) : js unit :=
  fun w =>
    (Returned tt,
     {| isExtracting := isExtracting w; progress := p;
        videoFile := videoFile w; videoRef := videoRef w;
        canvasRef := canvasRef w; trace := trace w ++ [SetProgress p] |}).

Definition setVideoFile (f : File) : js unit :=
  fun w =>
    (Returned tt,
     {| isExtracting := isExtracting w; progress := progress w;
        videoFile := Some f; videoRef := videoRef w;
        canvasRef := canvasRef w; trace := trace w ++ [SetVideoFile f] |}).

Definition putVideo (v : HTMLVideoElement) : js unit :=
  fun w =>
    (Returned tt,
     {| isExtracting := isExtracting w; progress := progress w;
        videoFile := videoFile w; videoRef := Some v;
        canvasRef := canvasRef w; trace := trace w |}).

Definition putCanvas (c : HTMLCanvasElement) : js unit :=
  fun w =>
    (Returned tt,
     {| isExtracting := isExtracting w; progress := progress w;
        videoFile := videoFile w; videoRef := videoRef w;
        canvasRef := Some c; trace := trace w |}).

(** Reading a ref that the caller has checked (or that React has filled). *)
Definition theVideo : js HTMLVideoElement :=
  fun w =>
    match videoRef w with
    | Some v => (Returned v, w)
    | None => (Thrown "TypeError: video is null", w)
    end.

Definition theCanvas : js HTMLCanvasElement :=
  fun w =>
    match canvasRef w with
    | Some c => (Returned c, w)
    | None => (Thrown "TypeError: canvas is null", w)
    end.

(** [canvas.width = q] and [canvas.height = q]. *)
Definition setCanvasWidth (q : Q) : js unit :=
  c <- theCanvas ;;
  putCanvas {| context2d := context2d c;
               width := Js.toUnsignedLong q; height := height c |}.

Definition setCanvasHeight (q : Q) : js unit :=
  c <- theCanvas ;;
  putCanvas {| context2d := context2d c;
               width := width c; height := Js.toUnsignedLong q |}.

Definition maxDimension : Z := 800.

(** Lines 33-43 of the extractor: the size of the raster.  The quotient
    and the product are binary64 operations, whose rounded result the
    canvas attribute truncates.  ([videoWidth] and [videoHeight] are
    unsigned; when one of them is 0 the JavaScript quotient is infinite or
    NaN where [Js.fdiv] gives 0, and the attribute receives 0 either
    way.) *)
Definition sizeCanvas (video : HTMLVideoElement) : js unit :=
  let aspectRatio :=
    Js.fdiv (inject_Z (videoWidth video)) (inject_Z (videoHeight video)) in
  if videoHeight video <? videoWidth video then
    setCanvasWidth (inject_Z (Z.min maxDimension (videoWidth video))) ;;
    c <- theCanvas ;;
    setCanvasHeight (Js.fdiv (inject_Z (width c)) aspectRatio)
  else
    setCanvasHeight (inject_Z (Z.min maxDimension (videoHeight video))) ;;
    c <- theCanvas ;;
    setCanvasWidth (Js.fmul (inject_Z (height c)) aspectRatio).

(** The element after [video.currentTime = time], for a finite [time]. *)
Definition atTime (v : HTMLVideoElement) (time : Q) : HTMLVideoElement :=
  {| src := src v; durationValue := durationValue v;
     videoWidth := videoWidth v; videoHeight := videoHeight v;
     currentTime := time |}.

(** The message of the TypeError that the [currentTime] setter throws when
    it is given an infinity or NaN (in Chromium's words). *)
Definition nonFiniteTime : string :=
  "TypeError: Failed to set the 'currentTime' property on 'HTMLMediaElement': The provided double value is non-finite.".

Section WithPlatform.

Variable P : Platform.

(** [video.currentTime = time] and the wait for [seeked].  The attribute
    is a WebIDL [double]: an infinite or NaN [time] makes the setter throw,
    inside the executor of the promise, which is then rejected; no seek
    starts. *)
Definition seekTo (time : Js.real) : js unit :=
  v <- theVideo ;;
  match time with
  | Js.Finite t =>
      let v' := atTime v t in
      putVideo v' ;;
      emit (Seek t) ;;
      if seeked P v' then ret tt else pending
  | _ => throw nonFiniteTime
  end.

(** [ctx.drawImage(...)] and [canvas.toDataURL(...)]. *)
Definition captureFrame : js string :=
  v <- theVideo ;;
  c <- theCanvas ;;
  emit (DrawImage (width c) (height c)) ;;
  match toDataURL P v (width c) (height c) with
  | Some frameData => ret frameData
  | None => throw "drawImage or toDataURL failed"
  end.

(** The [for (let i = 0; i < frameCount; i++)] loop; [frames] is the
    array it pushes to.  The fuel bounds the number of tests of the
    loop condition. *)
Fixpoint sampleLoop (fuel : nat) (frameCount : Z) (interval : Js.real)
    (i : Z) (frames : list string) : js (list string) :=
  match fuel with
  | O => throw "out of fuel"
  | S fuel' =>
    if i <? frameCount then
      let time := Js.rmul (Js.Finite (inject_Z i)) interval in
      seekTo time ;;
      frameData <- captureFrame ;;
      setProgress ((inject_Z (i + 1) / inject_Z frameCount) * 100)%Q ;;
      sampleLoop fuel' frameCount interval (i + 1) (frames ++ [frameData])
    else ret frames
  end.

Definition extractFrames (frameCount : Z) : js (list string) :=
  w <- getWorld ;;
  match canvasRef w with
  | None => ret []
  | Some canvas =>
    if negb (context2d canvas) then ret []
    else
      video <- theVideo ;;
      let interval :=
        Js.rdiv (durationValue video) (Js.Finite (inject_Z frameCount)) in
      sizeCanvas video ;;
      sampleLoop (S (Z.to_nat frameCount)) frameCount interval 0 []
  end.

(** [event.target.files] is the list of the selected files. *)
Definition handleFileSelect (files : list File) : js unit :=
  match files with
  | [] => ret tt
  | file :: _ =>
    if negb (String.prefix "video/" (type file)) then
      emit (ToastError "Please select a valid video file")
    else
      setVideoFile file ;;
      emit (ToastSuccess "Video loaded! Click Extract Frames to begin.")
  end.

(** The promise around [video.src = URL.createObjectURL(videoFile)]. *)
Definition loadVideo (file : File) : js unit :=
  match loadMetadata P file with
  | Some (d, vw, vh) =>
      putVideo {| src := Some file; durationValue := d; videoWidth := vw;
                  videoHeight := vh; currentTime := 0 |}
  | None =>
      v <- theVideo ;;
      putVideo {| src := Some file; durationValue := durationValue v;
                  videoWidth := videoWidth v; videoHeight := videoHeight v;
                  currentTime := currentTime v |} ;;
      throw "Failed to load video"
  end.

Definition showNat (n : nat) : string :=
  NilZero.string_of_uint (Nat.to_uint n).

(** The [try] block of [handleExtractFrames]. *)
Definition tryBlock (file : File) : js unit :=
  loadVideo file ;;
  emit (ToastSuccess "Video loaded successfully, extracting frames...") ;;
  frames <- extractFrames FRAME_SIZE ;;
  if (0 <? Z.of_nat (List.length frames)) then
    emit (OnFramesExtracted frames) ;;
    emit (ToastSuccess
            ("Successfully extracted " ++ showNat (List.length frames)
             ++ " frames!"))
  else throw "No frames were extracted".

(** Its [catch] block. *)
Definition catchBlock (error : string) : js unit :=
  emit (ConsoleError ("Error extracting frames: " ++ error)) ;;
  emit (ToastError "Failed to extract frames from video").

(** Its [finally] block. *)
Definition finallyBlock : js unit :=
  setIsExtracting false ;;
  setProgress 0.

Definition handleExtractFrames : js unit :=
  w <- getWorld ;;
  match videoFile w, videoRef w with
  | Some file, Some _ =>
    setIsExtracting true ;;
    setProgress 0 ;;
    tryCatchFinally (tryBlock file) catchBlock finallyBlock
  | _, _ => ret tt
  end.

End WithPlatform.

(** *** Reading a trace *)

Definition seeks (tr : list effect) : list Q :=
  flat_map (fun e => match e with Seek t => [t] | _ => [] end) tr.

Definition draws (tr : list effect) : list (Z * Z) :=
  flat_map (fun e => match e with DrawImage w h => [(w, h)] | _ => [] end) tr.

Definition handovers (tr : list effect) : list (list string) :=
  flat_map (fun e => match e with OnFramesExtracted fs => [fs] | _ => [] end) tr.

(** The progress values reported while the extraction is running, that
    is while [isExtracting] is set; [extracting] is the value of the flag
    before the trace. *)
Fixpoint reportsWhile (extracting : bool) (tr : list effect) : list Q :=
  match tr with
  | [] => []
  | SetIsExtracting b :: tl => reportsWhile b tl
  | SetProgress p :: tl =>
      if extracting then p :: reportsWhile extracting tl
      else reportsWhile extracting tl
  | _ :: tl => reportsWhile extracting tl
  end.

(** Successive values never decrease. *)
Fixpoint nonDecreasing (l : list Q) : Prop :=
  match l with
  | [] => True
  | a :: tl =>
      match tl with
      | [] => True
      | b :: _ => (a <= b)%Q
      end /\ nonDecreasing tl
  end.

(** [start, start + 1, ..., start + count - 1] *)
Fixpoint zrange (start : Z) (count : nat) : list Z :=
  match count with
  | O => []
  | S k => start :: zrange (start + 1) k
  end.

(** *** The shape of a run of the sampling loop *)

(** The canvas after [sizeCanvas video], from the canvas before. *)
Definition sizedCanvas (video : HTMLVideoElement) (c : HTMLCanvasElement)
    : HTMLCanvasElement :=
  let aspectRatio :=
    Js.fdiv (inject_Z (videoWidth video)) (inject_Z (videoHeight video)) in
  if videoHeight video <? videoWidth video then
    let w := Js.toUnsignedLong (inject_Z (Z.min maxDimension (videoWidth video))) in
    {| context2d := context2d c; width := w;
       height := Js.toUnsignedLong (Js.fdiv (inject_Z w) aspectRatio) |}
  else
    let h := Js.toUnsignedLong (inject_Z (Z.min maxDimension (videoHeight video))) in
    {| context2d := context2d c;
       width := Js.toUnsignedLong (Js.fmul (inject_Z h) aspectRatio); height := h |}.

Section Shape.

Variable P : Platform.
Variable frameCount : Z.
Variable interval : Q.

(** Seek time and progress value of sample [i]. *)
Definition sampleTime (i : Z) : Q := (inject_Z i * interval)%Q.

Definition progressAt (i : Z) : Q :=
  ((inject_Z (i + 1) / inject_Z frameCount) * 100)%Q.

(** The effects of one complete turn of the loop. *)
Definition iteration (c : HTMLCanvasElement) (i : Z) : list effect :=
  [Seek (sampleTime i); DrawImage (width c) (height c);
   SetProgress (progressAt i)].

(** How a run of the loop that started at sample [i] and completed [k]
    turns ended, with the effects of its last, incomplete turn. *)
Definition loopEnd (v : HTMLVideoElement) (c : HTMLCanvasElement)
    (i : Z) (k : nat) (frames : list string)
    (r : outcome (list string)) (tail : list effect) : Prop :=
  let j := i + Z.of_nat k in
  match r with
  | Returned fs =>
      tail = [] /\ Z.of_nat k = Z.max 0 (frameCount - i)
      /\ exists fs', fs = frames ++ fs'
           /\ Forall2 (fun a f =>
                toDataURL P (atTime v (sampleTime a)) (width c) (height c)
                = Some f) (zrange i k) fs'
  | Thrown _ =>
      tail = [Seek (sampleTime j); DrawImage (width c) (height c)]
      /\ j < frameCount
      /\ toDataURL P (atTime v (sampleTime j)) (width c) (height c) = None
  | Pending =>
      tail = [Seek (sampleTime j)]
      /\ j < frameCount
      /\ seeked P (atTime v (sampleTime j)) = false
  end.

End Shape.

(** The platform never leaves a seek unanswered and never fails to
    rasterize. *)
Definition cooperative (P : Platform) : Prop :=
  (forall v, seeked P v = true)
  /\ (forall v w h, toDataURL P v w h <> None).

(** What the handler does once the extraction has failed. *)
Definition failureReport (msg : string) : list effect :=
  [ConsoleError ("Error extracting frames: " ++ msg);
   ToastError "Failed to extract frames from video";
   SetIsExtracting false; SetProgress 0].

Definition failureToast : effect :=
  ToastError "Failed to extract frames from video".

Definition loadedToast : effect :=
  ToastSuccess "Video loaded successfully, extracting frames...".

Definition successReport (frames : list string) : list effect :=
  [OnFramesExtracted frames;
   ToastSuccess ("Successfully extracted " ++ showNat (List.length frames)
                 ++ " frames!");
   SetIsExtracting false; SetProgress 0].

(** The element once [loadedmetadata] has fired. *)
Definition loadedVideo (file : File) (m : Js.real * Z * Z) : HTMLVideoElement :=
  let '(d, vw, vh) := m in
  {| src := Some file; durationValue := d; videoWidth := vw; videoHeight := vh;
     currentTime := 0 |}.

(** The runs of [handleExtractFrames] on a selected file: how the handler
    ends and what it does after its first two state updates. *)
Inductive handlerRun (P : Platform) (file : File)
    (canvas : option HTMLCanvasElement)
    : outcome unit -> list effect -> Prop :=
| run_load_failed :
    loadMetadata P file = None ->
    handlerRun P file canvas (Returned tt)
      (failureReport "Failed to load video")
| run_no_canvas m :
    loadMetadata P file = Some m ->
    canvas = None \/ (exists c, canvas = Some c /\ context2d c = false) ->
    handlerRun P file canvas (Returned tt)
      (loadedToast :: failureReport "No frames were extracted")
| run_sampled m c k tail frames :
    loadMetadata P file = Some m ->
    canvas = Some c -> context2d c = true ->
    let v := loadedVideo file m in
    Js.isFinite (durationValue v) = true ->
    let interval := (duration v / inject_Z FRAME_SIZE)%Q in
    loopEnd P FRAME_SIZE interval v (sizedCanvas v c) 0 k []
      (Returned frames) tail ->
    handlerRun P file canvas (Returned tt)
      (loadedToast
         :: flat_map (iteration FRAME_SIZE interval (sizedCanvas v c))
              (zrange 0 k)
         ++ successReport frames)
| run_sample_failed m c k tail msg :
    loadMetadata P file = Some m ->
    canvas = Some c -> context2d c = true ->
    let v := loadedVideo file m in
    Js.isFinite (durationValue v) = true ->
    let interval := (duration v / inject_Z FRAME_SIZE)%Q in
    loopEnd P FRAME_SIZE interval v (sizedCanvas v c) 0 k []
      (Thrown msg) tail ->
    handlerRun P file canvas (Returned tt)
      (loadedToast
         :: flat_map (iteration FRAME_SIZE interval (sizedCanvas v c))
              (zrange 0 k)
         ++ tail ++ failureReport msg)
| run_seek_unanswered m c k tail :
    loadMetadata P file = Some m ->
    canvas = Some c -> context2d c = true ->
    let v := loadedVideo file m in
    Js.isFinite (durationValue v) = true ->
    let interval := (duration v / inject_Z FRAME_SIZE)%Q in
    loopEnd P FRAME_SIZE interval v (sizedCanvas v c) 0 k [] Pending tail ->
    handlerRun P file canvas Pending
      (loadedToast
         :: flat_map (iteration FRAME_SIZE interval (sizedCanvas v c))
              (zrange 0 k)
         ++ tail)
| run_duration_not_finite m c :
    loadMetadata P file = Some m ->
    canvas = Some c -> context2d c = true ->
    Js.isFinite (durationValue (loadedVideo file m)) = false ->
    handlerRun P file canvas (Returned tt)
      (loadedToast :: failureReport nonFiniteTime).

(** *** A sample run: a 10 second full-HD clip on a browser that answers
    every seek and rasterizes every frame *)

Definition sampleFile : File := mkFile "clip.mp4" "video/mp4".

Definition samplePlatform : Platform :=
  {| loadMetadata := fun _ => Some (Js.Finite 10, 1920, 1080);
     seeked := fun _ => true;
     toDataURL := fun _ _ _ => Some "data:image/jpeg;base64,"%string |}.

(** The component after the file was selected ... *)
Definition sampleWorld : World :=
  {| isExtracting := false; progress := 0; videoFile := Some sampleFile;
     videoRef := Some (mkVideo None Js.NotANumber 0 0 0);
     canvasRef := Some (mkCanvas true 300 150);
     trace := [] |}.

(** ... and once its metadata is loaded. *)
Definition sampleVideo : HTMLVideoElement :=
  mkVideo (Some sampleFile) (Js.Finite 10) 1920 1080 0.

Definition sampleLoaded : World :=
  {| isExtracting := true; progress := 0; videoFile := Some sampleFile;
     videoRef := Some sampleVideo;
     canvasRef := Some (mkCanvas true 300 150);
     trace := [] |}.

(** The same component with a stream without end as source: its duration
    is infinite. *)
Definition liveVideo : HTMLVideoElement :=
  mkVideo (Some sampleFile) (Js.Infinity false) 1920 1080 0.

Definition liveLoaded : World :=
  {| isExtracting := true; progress := 0; videoFile := Some sampleFile;
     videoRef := Some liveVideo;
     canvasRef := Some (mkCanvas true 300 150);
     trace := [] |}.

Definition livePlatform : Platform :=
  {| loadMetadata := fun _ => Some (Js.Infinity false, 1920, 1080);
     seeked := fun _ => true;
     toDataURL := fun _ _ _ => Some "data:image/jpeg;base64,"%string |}.

(** The React state of the component, without refs and trace. *)
Definition reactState (w : World) : bool * Q * option File :=
  (isExtracting w, progress w, videoFile w).

(** *** What the component shows *)

(** The parts of the returned JSX that depend on the state: the label and
    the [disabled] flag of the select button, the extract button (only
    with a file) with its flag and label, and the progress line (only
    while extracting) with its rounded percentage and the bar value. *)
Record view : Type := mkView {
  selectLabel : string;
  selectDisabled : bool;
  extractButton : option (bool * string);
  progressLine : option (Z * Q)
}.

Definition render (w : World) : view :=
  {| selectLabel := match videoFile w with
                    | Some f => name f
                    | None => "Select Video File"%string
                    end;
     selectDisabled := isExtracting w;
     extractButton := match videoFile w with
                      | Some _ =>
                          Some (isExtracting w,
                                if isExtracting w
                                then "Extracting Frames..."%string
                                else "Extract Frames"%string)
                      | None => None
                      end;
     progressLine := if isExtracting w
                     then Some (Js.round (progress w), progress w)
                     else None |}.

(** *** Parts of the world a piece of code leaves alone *)

Definition keeps {A X : Type} (f : World -> X) (m : js A) : Prop :=
  forall w r w', m w = (r, w') -> f w' = f w.

(** The stored file, if any, has a video MIME type. *)
Definition storedFileIsVideo (w : World) : Prop :=
  forall f, videoFile w = Some f -> String.prefix "video/" (type f) = true.

(** The effects of a run, from the world before and the world after. *)
Definition since (w w' : World) : list effect :=
  skipn (List.length (trace w)) (trace w').

(** The progress after the state updates of a trace, from the progress
    before. *)
Definition progressAfter (tr : list effect) (p0 : Q) : Q :=
  fold_left (fun p e => match e with SetProgress q => q | _ => p end) tr p0.

(** A piece of code whose trace accounts for what it does to [progress]. *)
Definition tracksProgress {A : Type} (m : js A) : Prop :=
  forall w r w', m w = (r, w') ->
    exists tr, trace w' = trace w ++ tr
               /\ progress w' = progressAfter tr (progress w).

(** A browser that leaves every seek to 5 seconds or later unanswered. *)
Definition stallingPlatform : Platform :=
  {| loadMetadata := fun _ => Some (Js.Finite 10, 1920, 1080);
     seeked := fun v => negb (Qle_bool 5 (currentTime v));
     toDataURL := fun _ _ _ => Some "data:image/jpeg;base64,"%string |}.

End Extractor.

(** ** The page (Index) *)

Module Index.

Record IndexState : Type := mkIndex {
  extractedFrames : list string;
  activeTab : string
}.

Definition initialState : IndexState :=
  {| extractedFrames := []; activeTab := "extract" |}.

Definition handleFramesExtracted (frames : list string) (s : IndexState)
    : IndexState :=
  {| extractedFrames := frames; activeTab := "viewer" |}.

(** [onValueChange] of the tabs. *)
Definition setActiveTab (value : string) (s : IndexState) : IndexState :=
  {| extractedFrames := extractedFrames s; activeTab := value |}.

(** The three info cards are rendered while
    [extractedFrames.length === 0]. *)
Definition showsInfoCards (s : IndexState) : bool :=
  Z.of_nat (List.length (extractedFrames s)) =? 0.

(** The page is the [onFramesExtracted] of the extractor: every handover
    in a trace of the extractor calls [handleFramesExtracted]. *)
Definition deliver (tr : list Extractor.effect) (s : IndexState) : IndexState :=
  fold_left
    (fun st e =>
       match e with
       | Extractor.OnFramesExtracted frames => handleFramesExtracted frames st
       | _ => st
       end) tr s.

(** A click on "Extract Frames" in the extractor, as the page sees it. *)
Definition extraction (P : Extractor.Platform) (w : Extractor.World)
    (s : IndexState) : IndexState :=
  deliver (Extractor.since w (snd (Extractor.handleExtractFrames P w))) s.

(** The states of the page: tab changes and extractions, on any browser
    and in any state of the extractor. *)
Inductive reachable : IndexState -> Prop :=
| reachable_mount : reachable initialState
| reachable_tab s value : reachable s -> reachable (setActiveTab value s)
| reachable_extraction P w s : reachable s -> reachable (extraction P w s).

End Index.

(** * Properties of the zoom viewer *)

Section ViewerFacts.

Import Viewer.

Variable frames : list string.

Let n : Z := Z.of_nat (List.length frames).

Lemma length_pos_of_nonempty : frames <> [] -> 0 < n.
Proof.
  subst n. destruct frames; [congruence | cbn [List.length]; lia].
Qed.

Lemma render_of_nonempty s :
  0 < n -> exists src counter, render frames s = Image src counter.
Proof.
  intros Hn. unfold render. fold n.
  destruct (Z.eqb_spec n 0) as [E | _]; [lia | eauto].
Qed.

(** The index after a wheel event, on an index in range. *)
Lemma wheel_index deltaY s i :
  currentFrameIndex s = Js.Int i ->
  currentFrameIndex (handleWheel frames deltaY s)
  = Js.Int (Z.max 0 (Z.min (n - 1)
                       (i + (if Js.gtb deltaY 0 then 1 else -1)))).
Proof.
  intros Hi. unfold handleWheel, setCurrentFrameIndex, len. cbn.
  rewrite Hi. fold n. destruct (Js.gtb deltaY 0); reflexivity.
Qed.

Lemma arrow_right_index s i :
  0 < n -> 0 <= i < n -> currentFrameIndex s = Js.Int i ->
  currentFrameIndex (handleKeyPress frames "ArrowRight" s)
  = Js.Int ((i + 1) mod n).
Proof.
  intros Hn Hi E. unfold handleKeyPress, setCurrentFrameIndex, len. cbn.
  rewrite E. fold n. cbn.
  destruct (Z.eqb_spec n 0); [lia |].
  rewrite Z.rem_mod_nonneg by lia. reflexivity.
Qed.

Lemma arrow_left_index s i :
  0 < n -> 0 <= i < n -> currentFrameIndex s = Js.Int i ->
  currentFrameIndex (handleKeyPress frames "ArrowLeft" s)
  = Js.Int ((i - 1) mod n).
Proof.
  intros Hn Hi E. unfold handleKeyPress, setCurrentFrameIndex, len. cbn.
  rewrite E. fold n. cbn.
  destruct (Z.eqb_spec n 0); [lia |].
  rewrite Z.rem_mod_nonneg by lia.
  replace (i - 1 + n) with (i - 1 + 1 * n) by lia.
  rewrite Z.mod_add by lia. reflexivity.
Qed.

Lemma auto_play_index s i :
  0 < n -> 0 <= i < n -> currentFrameIndex s = Js.Int i ->
  currentFrameIndex (autoPlayStep frames s) = Js.Int ((i + 1) mod n).
Proof.
  intros Hn Hi E. unfold autoPlayStep, setCurrentFrameIndex, len. cbn.
  rewrite E. fold n. cbn.
  destruct (Z.eqb_spec n 0); [lia |].
  rewrite Z.rem_mod_nonneg by lia. reflexivity.
Qed.

Lemma key_press_cases key s :
  handleKeyPress frames key s
  = (if String.eqb key "ArrowLeft" then handleKeyPress frames "ArrowLeft" s
     else if String.eqb key "ArrowRight" then handleKeyPress frames "ArrowRight" s
     else if String.eqb key " " then setIsAutoPlaying negb s
     else if String.eqb key "r" then reset s
     else s).
Proof.
  unfold handleKeyPress.
  destruct (String.eqb key "ArrowLeft"); [reflexivity |].
  destruct (String.eqb key "ArrowRight"); reflexivity.
Qed.

Lemma key_press_preserves key s :
  0 < n -> invariants frames s -> invariants frames (handleKeyPress frames key s).
Proof.
  intros Hn [[i [E Hi]] Hz]. rewrite key_press_cases.
  destruct (String.eqb key "ArrowLeft").
  { split; [| exact Hz].
    exists ((i - 1) mod n). split; [now apply arrow_left_index |].
    fold n. apply Z.mod_pos_bound; lia. }
  destruct (String.eqb key "ArrowRight").
  { split; [| exact Hz].
    exists ((i + 1) mod n). split; [now apply arrow_right_index |].
    fold n. apply Z.mod_pos_bound; lia. }
  destruct (String.eqb key " ").
  { split; [exists i; split; [exact E | exact Hi] | exact Hz]. }
  destruct (String.eqb key "r").
  { split; [exists 0; split; [reflexivity | fold n; lia] |].
    unfold zoom_in_range; cbn. split; discriminate. }
  split; [exists i; split; [exact E | exact Hi] | exact Hz].
Qed.

Lemma handle_preserves captured ev s :
  0 < n -> emitted_by_controls frames ev ->
  invariants frames s -> invariants frames (handle frames captured ev s).
Proof.
  intros Hn Hev Hinv.
  destruct (render_of_nonempty s Hn) as [src [counter Hr]].
  pose proof Hinv as [[i [E Hi]] Hz]. fold n in Hi.
  destruct ev; cbn [handle]; rewrite ?Hr;
    try (split; [exists i; split; [exact E | exact Hi] | exact Hz]).
  - (* wheel *)
    split; [| exact Hz].
    eexists. split; [apply wheel_index; exact E |].
    fold n. destruct (Js.gtb deltaY 0); lia.
  - (* pointer move *)
    unfold handleMouseMove. destruct (negb (isDragging captured)); [exact Hinv |].
    split; [exists i; split; [exact E | exact Hi] | exact Hz].
  - (* key *)
    now apply key_press_preserves.
  - (* frame slider *)
    split; [| exact Hz]. exists value. split; [reflexivity |].
    cbn in Hev. lia.
  - (* zoom slider *)
    split; [exists i; split; [exact E | exact Hi] |]. exact Hev.
  - (* reset button *)
    split; [exists 0; split; [reflexivity | fold n; lia] |].
    unfold zoom_in_range; cbn. split; discriminate.
  - (* timer *)
    unfold autoPlayTick.
    destruct (isAutoPlaying s && (0 <? Z.of_nat (List.length frames)));
      [| exact Hinv].
    split; [| exact Hz].
    exists ((i + 1) mod n). split; [now apply auto_play_index |].
    fold n. apply Z.mod_pos_bound; lia.
Qed.

Lemma dispatch_preserves ev s :
  0 < n -> emitted_by_controls frames ev ->
  invariants frames s -> invariants frames (dispatch frames ev s).
Proof. apply handle_preserves. Qed.

End ViewerFacts.

Lemma gtb_true_iff (a b : Q) : Js.gtb a b = true <-> (b < a)%Q.
Proof.
  unfold Js.gtb. rewrite negb_true_iff.
  destruct (Qle_bool a b) eqn:E.
  - apply Qle_bool_iff in E. split; [discriminate |].
    intros H. exfalso. exact (Qlt_not_le _ _ H E).
  - split; [| reflexivity]. intros _. apply Qnot_le_lt.
    intros H. apply Qle_bool_iff in H. congruence.
Qed.

Lemma gtb_false_iff (a b : Q) : Js.gtb a b = false <-> (a <= b)%Q.
Proof.
  unfold Js.gtb. rewrite negb_false_iff. apply Qle_bool_iff.
Qed.

Lemma within_length (n : nat) (frames : list string) (s : Viewer.ViewerState) :
  Viewer.reachableWithin n frames s -> List.length frames = n.
Proof. induction 1; auto. Qed.

(** C2, as the code has it: for a viewer that, since its mount, has only
    held frame sequences of one non-zero length (for one, a viewer mounted
    on a non-empty sequence that has not been replaced), every state it
    can reach, by any sequence of wheel, pointer, key, slider, button and
    timer events, whichever render their handlers come from, has
    [0 <= currentFrameIndex < frames.length] and
    [0.5 <= zoomLevel <= 5]. *)
Theorem viewer_invariants_hold (n : nat) (frames : list string)
    (s : Viewer.ViewerState) :
  n <> 0%nat -> Viewer.reachableWithin n frames s -> Viewer.invariants frames s.
Proof.
  intros Hn Hreach.
  induction Hreach as [frames Hlen | frames captured s ev _ _ Hs IH Hev
                       | frames frames' s Hlen Hs IH].
  - split.
    + exists 0. split; [reflexivity | lia].
    + unfold Viewer.zoom_in_range; cbn. split; discriminate.
  - apply handle_preserves; auto.
    apply within_length in Hs. lia.
  - destruct IH as [(i & E & Hi) Hz]. split; [| exact Hz].
    exists i. split; [exact E |].
    apply within_length in Hs. lia.
Qed.

Lemma viewer_invariants_hold_witness :
  let frames := ["f0"; "f1"; "f2"]%string in
  let s := Viewer.dispatch frames (Viewer.KeyDown "ArrowLeft")
             (Viewer.dispatch frames (Viewer.ZoomSlider (25 # 10))
                Viewer.initialState) in
  Viewer.currentFrameIndex s = Js.Int 2 /\ Viewer.invariants frames s.
Proof.
  split; [reflexivity |].
  apply (viewer_invariants_hold 3 ["f0"; "f1"; "f2"]%string).
  - discriminate.
  - assert (H1 : Viewer.reachableWithin 3 ["f0"; "f1"; "f2"]%string
                   (Viewer.dispatch ["f0"; "f1"; "f2"]%string
                      (Viewer.ZoomSlider (25 # 10)) Viewer.initialState)).
    { apply Viewer.within_event.
      - apply Viewer.within_mount. reflexivity.
      - apply Viewer.within_mount. reflexivity.
      - cbn. split; discriminate. }
    apply Viewer.within_event; [exact H1 | exact H1 | exact I].
Defined.

(** C2 as stated fails: a viewer mounted with no frames is in a reachable
    state, and its index 0 is not below the length 0.  A non-empty
    sequence does not help when the viewer was mounted before it arrived:
    the right arrow on the empty sequence makes the index NaN, and the
    index is still NaN when the page hands two frames to the viewer. *)
Lemma viewer_invariants_fail_when_empty :
  (Viewer.reachable [] Viewer.initialState
   /\ ~ Viewer.invariants [] Viewer.initialState)
  /\ (let s := Viewer.dispatch [] (Viewer.KeyDown "ArrowRight")
                 Viewer.initialState in
      Viewer.reachable ["f0"; "f1"]%string s
      /\ Viewer.currentFrameIndex s = Js.NaN
      /\ ~ Viewer.invariants ["f0"; "f1"]%string s).
Proof.
  split; [split; [apply Viewer.reachable_mount |] |].
  - intros [[i [_ Hi]] _]. cbn in Hi. lia.
  - cbv zeta. split; [| split; [reflexivity |]].
    + apply (Viewer.reachable_props []).
      apply Viewer.reachable_event;
        [apply Viewer.reachable_mount | apply Viewer.reachable_mount | exact I].
    + intros [[i [E _]] _]. discriminate E.
Qed.

(** C3 at the failing input: with an empty frame sequence the viewer shows
    the placeholder, but the keydown listener still runs; the right arrow
    turns the index into NaN and the space bar switches auto-play on. *)
Theorem empty_sequence_keys_change_state :
  let s0 := Viewer.initialState in
  let right := Viewer.dispatch [] (Viewer.KeyDown "ArrowRight") s0 in
  let space := Viewer.dispatch [] (Viewer.KeyDown " ") s0 in
  Viewer.render [] s0 = Viewer.Placeholder
  /\ Viewer.navigation_input (Viewer.KeyDown "ArrowRight")
  /\ Viewer.currentFrameIndex right = Js.NaN
  /\ right <> s0
  /\ Viewer.navigation_input (Viewer.KeyDown " ")
  /\ Viewer.isAutoPlaying space = true
  /\ space <> s0.
Proof.
  cbn. repeat split; auto; discriminate.
Qed.

(** C5: on a non-empty frame sequence, the wheel moves the index by one and
    clamps it to [0, len-1], while the arrow keys and the auto-play timer
    move it by one modulo len.  At the last index a downward wheel scroll
    stays there and the right arrow goes to 0; at index 0 an upward scroll
    stays there and the left arrow goes to the last index. *)
Theorem wheel_clamps_keys_wrap (frames : list string) (s : Viewer.ViewerState)
    (i : Z) (deltaY : Q) :
  let n := Z.of_nat (List.length frames) in
  let after ev := Viewer.currentFrameIndex (Viewer.dispatch frames ev s) in
  frames <> [] ->
  Viewer.currentFrameIndex s = Js.Int i ->
  0 <= i < n ->
  after (Viewer.Wheel deltaY)
    = Js.Int (Z.max 0 (Z.min (n - 1) (i + (if Js.gtb deltaY 0 then 1 else -1))))
  /\ after (Viewer.KeyDown "ArrowRight") = Js.Int ((i + 1) mod n)
  /\ after (Viewer.KeyDown "ArrowLeft") = Js.Int ((i - 1) mod n)
  /\ (Viewer.isAutoPlaying s = true -> after Viewer.Tick = Js.Int ((i + 1) mod n))
  /\ (i = n - 1 -> (0 < deltaY)%Q -> after (Viewer.Wheel deltaY) = Js.Int (n - 1))
  /\ (i = n - 1 -> after (Viewer.KeyDown "ArrowRight") = Js.Int 0)
  /\ (i = n - 1 -> Viewer.isAutoPlaying s = true -> after Viewer.Tick = Js.Int 0)
  /\ (i = 0 -> (deltaY <= 0)%Q -> after (Viewer.Wheel deltaY) = Js.Int 0)
  /\ (i = 0 -> after (Viewer.KeyDown "ArrowLeft") = Js.Int (n - 1)).
Proof.
  intros n after Hne E Hi.
  pose proof (length_pos_of_nonempty frames Hne) as Hn. fold n in Hn.
  destruct (render_of_nonempty frames s Hn) as [src [counter Hr]].
  assert (Hwheel : after (Viewer.Wheel deltaY)
    = Js.Int (Z.max 0 (Z.min (n - 1) (i + (if Js.gtb deltaY 0 then 1 else -1))))).
  { unfold after. unfold Viewer.dispatch; cbn [Viewer.handle]. rewrite Hr. now apply wheel_index. }
  assert (Hright : after (Viewer.KeyDown "ArrowRight") = Js.Int ((i + 1) mod n)).
  { unfold after. unfold Viewer.dispatch; cbn [Viewer.handle]. now apply arrow_right_index. }
  assert (Hleft : after (Viewer.KeyDown "ArrowLeft") = Js.Int ((i - 1) mod n)).
  { unfold after. unfold Viewer.dispatch; cbn [Viewer.handle]. now apply arrow_left_index. }
  assert (Htick : Viewer.isAutoPlaying s = true ->
                  after Viewer.Tick = Js.Int ((i + 1) mod n)).
  { intros Hp. unfold after. unfold Viewer.dispatch; cbn [Viewer.handle]. unfold Viewer.autoPlayTick.
    rewrite Hp. fold n. destruct (Z.ltb_spec 0 n); [| lia]. cbn [andb].
    now apply auto_play_index. }
  repeat split; auto.
  - intros -> Hd. rewrite Hwheel.
    apply gtb_true_iff in Hd. rewrite Hd. f_equal. lia.
  - intros ->. rewrite Hright. f_equal.
    replace (n - 1 + 1) with n by lia. apply Z.mod_same. lia.
  - intros -> Hp. rewrite (Htick Hp). f_equal.
    replace (n - 1 + 1) with n by lia. apply Z.mod_same. lia.
  - intros -> Hd. rewrite Hwheel.
    apply gtb_false_iff in Hd. rewrite Hd. f_equal. lia.
  - intros ->. rewrite Hleft. f_equal.
    replace (0 - 1) with (n - 1 + (-1) * n) by lia.
    rewrite Z.mod_add by lia. apply Z.mod_small. lia.
Qed.

(** The 5-frame sequence at index 4 of the specification. *)
Lemma wheel_clamps_keys_wrap_witness :
  let frames := ["a"; "b"; "c"; "d"; "e"]%string in
  let s := Viewer.dispatch frames (Viewer.FrameSlider 4) Viewer.initialState in
  Viewer.currentFrameIndex (Viewer.dispatch frames (Viewer.Wheel 100) s) = Js.Int 4
  /\ Viewer.currentFrameIndex (Viewer.dispatch frames (Viewer.KeyDown "ArrowRight") s)
     = Js.Int 0.
Proof.
  pose proof (wheel_clamps_keys_wrap ["a"; "b"; "c"; "d"; "e"]%string
                (Viewer.dispatch ["a"; "b"; "c"; "d"; "e"]%string
                   (Viewer.FrameSlider 4) Viewer.initialState) 4 100) as H.
  cbv zeta in H.
  destruct H as (_ & _ & _ & _ & Hw & Hr & _).
  - discriminate.
  - reflexivity.
  - cbn. lia.
  - split; [apply Hw; reflexivity | apply Hr; reflexivity].
Defined.

(** C10: on a non-empty frame sequence and an index in range, a wheel event
    with [deltaY <= 0], zero included, moves the index to [max 0 (i - 1)];
    only a wheel event with [deltaY > 0] moves it to [min (len-1) (i + 1)].
    A wheel event with [deltaY = 0] is thus an upward step: above index 0
    it changes the index. *)
Theorem wheel_zero_delta_scrolls_up (frames : list string)
    (s : Viewer.ViewerState) (i : Z) (deltaY : Q) :
  let n := Z.of_nat (List.length frames) in
  let after d := Viewer.currentFrameIndex (Viewer.dispatch frames (Viewer.Wheel d) s) in
  frames <> [] ->
  Viewer.currentFrameIndex s = Js.Int i ->
  0 <= i < n ->
  ((deltaY <= 0)%Q -> after deltaY = Js.Int (Z.max 0 (i - 1)))
  /\ ((0 < deltaY)%Q -> after deltaY = Js.Int (Z.min (n - 1) (i + 1)))
  /\ (after deltaY = Js.Int (i + 1) -> (0 < deltaY)%Q)
  /\ after 0%Q = Js.Int (Z.max 0 (i - 1))
  /\ (0 < i -> after 0%Q = Js.Int (i - 1)
               /\ Viewer.dispatch frames (Viewer.Wheel 0) s <> s).
Proof.
  intros n after Hne E Hi.
  pose proof (length_pos_of_nonempty frames Hne) as Hn. fold n in Hn.
  destruct (render_of_nonempty frames s Hn) as [src [counter Hr]].
  assert (Hwheel : forall d, after d
    = Js.Int (Z.max 0 (Z.min (n - 1) (i + (if Js.gtb d 0 then 1 else -1))))).
  { intros d. unfold after. unfold Viewer.dispatch; cbn [Viewer.handle]. rewrite Hr.
    now apply wheel_index. }
  repeat split.
  - intros Hd. rewrite Hwheel. apply gtb_false_iff in Hd. rewrite Hd.
    f_equal. lia.
  - intros Hd. rewrite Hwheel. apply gtb_true_iff in Hd. rewrite Hd.
    f_equal. lia.
  - rewrite Hwheel. destruct (Js.gtb deltaY 0) eqn:G.
    + intros _. now apply gtb_true_iff.
    + intros H. injection H as H. lia.
  - rewrite Hwheel. cbn. f_equal. lia.
  - rewrite Hwheel. cbn. f_equal. lia.
  - intros Heq. fold (after 0%Q) in Hwheel.
    assert (H0 : after 0%Q = Js.Int (i - 1)).
    { rewrite Hwheel. cbn. f_equal. lia. }
    unfold after in H0. rewrite Heq, E in H0. injection H0 as H0. lia.
Qed.

Lemma wheel_zero_delta_scrolls_up_witness :
  let frames := ["a"; "b"; "c"]%string in
  let s := Viewer.dispatch frames (Viewer.FrameSlider 2) Viewer.initialState in
  Viewer.currentFrameIndex (Viewer.dispatch frames (Viewer.Wheel 0) s) = Js.Int 1.
Proof.
  pose proof (wheel_zero_delta_scrolls_up ["a"; "b"; "c"]%string
                (Viewer.dispatch ["a"; "b"; "c"]%string
                   (Viewer.FrameSlider 2) Viewer.initialState) 2 0) as H.
  cbv zeta in H.
  destruct H as (_ & _ & _ & _ & Hz).
  - discriminate.
  - reflexivity.
  - cbn. lia.
  - apply Hz. lia.
Defined.

(** * Properties of the frame extractor *)

Section LoopFacts.

Import Extractor.

Variable P : Platform.
Variable frameCount : Z.
Variable interval : Q.

Lemma atTime_atTime v a b : atTime (atTime v a) b = atTime v b.
Proof. reflexivity. Qed.

Lemma zrange_snoc i k : zrange i (S k) = zrange i k ++ [i + Z.of_nat k].
Proof.
  revert i. induction k as [| k IH]; intros i.
  - cbn. f_equal. lia.
  - change (zrange i (S (S k))) with (i :: zrange (i + 1) (S k)).
    rewrite IH. cbn [zrange app]. do 3 f_equal. lia.
Qed.

Lemma zrange_length i k : List.length (zrange i k) = k.
Proof. revert i. induction k; intros; cbn; auto. Qed.

Lemma sampleLoop_spec fuel (step : Js.real) :
  forall i frames w v c,
    videoRef w = Some v -> canvasRef w = Some c ->
    0 <= i ->
    (Z.to_nat (frameCount - i) < fuel)%nat ->
    (i < frameCount -> step = Js.Finite interval) ->
    exists k tail r w',
      sampleLoop P fuel frameCount step i frames w = (r, w')
      /\ trace w' = trace w ++ flat_map (iteration frameCount interval c) (zrange i k) ++ tail
      /\ canvasRef w' = Some c
      /\ (exists t, videoRef w' = Some (atTime v t))
      /\ Z.of_nat k <= Z.max 0 (frameCount - i)
      /\ loopEnd P frameCount interval v c i k frames r tail.
Proof.
  induction fuel as [| fuel IH]; intros i frames w v c Hv Hc Hi Hfuel Hstep;
    [lia |].
  cbn [sampleLoop].
  destruct (Z.ltb_spec i frameCount) as [Hlt | Hge].
  2:{ exists 0%nat, [], (Returned frames), w. cbn.
      rewrite !app_nil_r. repeat split; auto.
      - exists (currentTime v). rewrite Hv. destruct v; reflexivity.
      - lia.
      - lia.
      - exists []. rewrite app_nil_r. split; [reflexivity | constructor]. }
  replace (Js.rmul (Js.Finite (inject_Z i)) step)
    with (Js.Finite (inject_Z i * interval))
    by (rewrite (Hstep Hlt); reflexivity).
  unfold bind at 1. unfold seekTo, bind, theVideo, putVideo, emit, ret, pending.
  unfold sampleTime.
  rewrite Hv. cbn [videoRef trace canvasRef].
  destruct (seeked P (atTime v (inject_Z i * interval))) eqn:Hseek.
  2:{ eexists 0%nat, _, Pending, _. split; [reflexivity |]. cbn.
      rewrite Z.add_0_r. repeat split; auto.
      - eexists; reflexivity.
      - lia. }
  unfold captureFrame, bind, theVideo, theCanvas, emit, ret, throw.
  cbn [videoRef trace canvasRef]. rewrite Hc.
  destruct (toDataURL P (atTime v (inject_Z i * interval)) (width c) (height c))
    as [frameData |] eqn:Hdata.
  2:{ eexists 0%nat, _, (Thrown _), _. split; [reflexivity |]. cbn.
      rewrite Z.add_0_r, <- app_assoc. repeat split; auto.
      - eexists; reflexivity.
      - lia. }
  unfold setProgress. cbn [videoRef trace canvasRef isExtracting videoFile].
  match goal with
  | |- context [sampleLoop P fuel frameCount ?st (i + 1) ?fr ?w1] =>
      destruct (IH (i + 1) fr w1 (atTime v (inject_Z i * interval)) c)
        as (k & tail & r & w' & Hrun & Htr & Hcan & [t Hvid] & Hk & Hend);
        [reflexivity | reflexivity | lia | lia | intros _; exact (Hstep Hlt) |]
  end.
  exists (S k), tail, r, w'. split; [exact Hrun |].
  split.
  { rewrite Htr. cbn [trace zrange flat_map iteration app].
    rewrite <- !app_assoc. reflexivity. }
  split; [exact Hcan |].
  split; [exists t; rewrite Hvid; reflexivity |].
  split; [lia |].
  unfold loopEnd in *.
  replace (i + Z.of_nat (S k)) with (i + 1 + Z.of_nat k) by lia.
  destruct r as [fs | msg |].
  - destruct Hend as (Htail & Hkk & fs' & Hfs & Hall).
    split; [exact Htail |]. split; [lia |].
    exists (frameData :: fs'). split.
    + rewrite Hfs, <- app_assoc. reflexivity.
    + cbn [zrange]. constructor; [exact Hdata | exact Hall].
  - exact Hend.
  - exact Hend.
Qed.

End LoopFacts.

(** ** Binary64 rounding *)

Section RoundingFacts.

Lemma binade_le (x : Q) : (0 < x)%Q -> (2 ^ Js.binade x <= x)%Q.
Proof.
  intros Hx. unfold Js.binade.
  set (a := Z.log2 (Qnum x)). set (b := Z.log2 (Zpos (Qden x))).
  destruct (Qle_bool (2 ^ (a - b)) x) eqn:E; [now apply Qle_bool_iff |].
  assert (Hp : 0 < Qnum x). { unfold Qlt in Hx. cbn in Hx. lia. }
  pose proof (Z.log2_spec _ Hp) as [Hlo _].
  pose proof (Z.log2_spec (Zpos (Qden x)) eq_refl) as [_ Hhi].
  pose proof (Z.log2_nonneg (Qnum x)) as Ha.
  pose proof (Z.log2_nonneg (Zpos (Qden x))) as Hb.
  fold a in Hlo, Ha. fold b in Hhi, Hb.
  replace (a - b - 1) with (a - Z.succ b) by lia.
  rewrite Qpower_minus by discriminate.
  change 2%Q with (inject_Z 2).
  rewrite <- !Zpower_Qpower by lia.
  assert (Hpow : 0 < 2 ^ Z.succ b) by lia.
  set (A := 2 ^ a) in *. set (B := 2 ^ Z.succ b) in *. clearbody A B.
  apply Qle_shift_div_r.
  - change 0%Q with (inject_Z 0). rewrite <- Zlt_Qlt. exact Hpow.
  - unfold Qle. cbn [Qnum Qden Qmult inject_Z].
    rewrite Pos.mul_1_r, !Z.mul_1_r. nia.
Qed.

(** Rounding to the nearest integer moves a number by at most a half. *)
Lemma roundHalfEven_error (t : Q) :
  (- (1 # 2) <= inject_Z (Js.roundHalfEven t) - t <= 1 # 2)%Q.
Proof.
  unfold Js.roundHalfEven.
  pose proof (Qfloor_le t) as Hlo. pose proof (Qlt_floor t) as Hhi.
  rewrite inject_Z_plus in Hhi. change (inject_Z 1) with 1%Q in Hhi.
  destruct (Qcompare_spec (t - inject_Z (Qfloor t)) (1 # 2)) as [E | E | E];
    [destruct (Z.even (Qfloor t)) | |];
    rewrite ?inject_Z_plus; change (inject_Z 1) with 1%Q; lra.
Qed.

Lemma nearest53_error (x : Q) :
  (0 < x)%Q ->
  (x * (1 - Js.ulp53) <= Js.nearest53 x <= x * (1 + Js.ulp53))%Q.
Proof.
  intros Hx. unfold Js.nearest53.
  set (e := Js.binade x - 52).
  assert (HP : (0 < 2 ^ e)%Q) by (apply Qpower_0_lt; reflexivity).
  assert (Hbin : (2 ^ e * 4503599627370496 <= x)%Q).
  { apply Qle_trans with (2 ^ Js.binade x)%Q; [| now apply binade_le].
    replace (Js.binade x) with (e + 52) by (subst e; lia).
    rewrite Qpower_plus by discriminate. apply Qle_refl. }
  pose proof (roundHalfEven_error (x / 2 ^ e)) as Hm.
  set (m := inject_Z (Js.roundHalfEven (x / 2 ^ e))) in *.
  assert (Ex : (x == (x / 2 ^ e) * 2 ^ e)%Q).
  { field. intros E. rewrite E in HP. discriminate. }
  set (t := (x / 2 ^ e)%Q) in *. set (p := (2 ^ e)%Q) in *.
  assert (Hd : (- (1 # 2) * p <= (m - t) * p <= (1 # 2) * p)%Q).
  { split; apply Qmult_le_compat_r; try lra. }
  assert (Em : (m * p == x + (m - t) * p)%Q) by (rewrite Ex at 1; ring).
  rewrite Em. unfold Js.ulp53. set (dp := ((m - t) * p)%Q) in *. clearbody dp.
  clear Em Ex Hm. lra.
Qed.

(** Known binary64 values: 1/3, 0.1, and 0.1 * 3 = 0.30000000000000004
    (and not 0.3, whose significand ends in ...3 where this one ends in
    ...4). *)
Lemma round53_known_values :
  (Js.fdiv 1 3 == 6004799503160661 # 18014398509481984)%Q
  /\ (Js.fdiv 1 10 == 3602879701896397 # 36028797018963968)%Q
  /\ (Js.fmul (Js.fdiv 1 10) 3 == 5404319552844596 # 18014398509481984)%Q.
Proof. split; [| split]; vm_compute; reflexivity. Qed.

(** The relative error of a rounding is at most 2^-53. *)
Lemma round53_error (x : Q) :
  (0 < x)%Q ->
  (x * (1 - Js.ulp53) <= Js.round53 x <= x * (1 + Js.ulp53))%Q.
Proof.
  intros Hx. unfold Js.round53.
  destruct (Qcompare_spec x 0) as [E | E | E]; [lra | lra |].
  now apply nearest53_error.
Qed.

(** Dividing by a rounded number and rounding again: [y] is the exact
    quotient [c / x0], [a] the rounded divisor. *)
Lemma fdiv_chain (c x0 a y : Q) :
  (0 < c)%Q -> (0 < x0)%Q ->
  (x0 * (1 - Js.ulp53) <= a <= x0 * (1 + Js.ulp53))%Q ->
  (y * x0 == c)%Q ->
  (y * (1 - Js.ulp51) <= Js.fdiv c a <= y * (1 + Js.ulp51))%Q.
Proof.
  intros Hc Hx0 Ha Hy. unfold Js.fdiv.
  assert (Ha0 : (0 < a)%Q) by (unfold Js.ulp53 in Ha; lra).
  assert (Hr : (c / a * a == c)%Q) by (field; lra).
  assert (Hr0 : (0 < c / a)%Q).
  { apply Qlt_shift_div_l; [exact Ha0 | lra]. }
  pose proof (round53_error (c / a) Hr0) as Hq.
  set (r := (c / a)%Q) in *. set (q := Js.round53 r) in *. clearbody q r.
  assert (K1 : (r * (1 - Js.ulp53) <= y)%Q).
  { apply (Qmult_le_r _ _ x0 Hx0). rewrite Hy, <- Hr.
    setoid_replace (r * (1 - Js.ulp53) * x0)%Q
      with (r * (x0 * (1 - Js.ulp53)))%Q by ring.
    apply Qmult_le_l; [exact Hr0 | apply Ha]. }
  assert (K2 : (y <= r * (1 + Js.ulp53))%Q).
  { apply (Qmult_le_r _ _ x0 Hx0). rewrite Hy, <- Hr.
    setoid_replace (r * (1 + Js.ulp53) * x0)%Q
      with (r * (x0 * (1 + Js.ulp53)))%Q by ring.
    apply Qmult_le_l; [exact Hr0 | apply Ha]. }
  unfold Js.ulp53, Js.ulp51 in *. lra.
Qed.

(** Multiplying by a rounded number and rounding again: [y] is the exact
    product [h * x0], [a] the rounded factor. *)
Lemma fmul_chain (h x0 a y : Q) :
  (0 < h)%Q -> (0 < x0)%Q ->
  (x0 * (1 - Js.ulp53) <= a <= x0 * (1 + Js.ulp53))%Q ->
  (y == h * x0)%Q ->
  (y * (1 - Js.ulp51) <= Js.fmul h a <= y * (1 + Js.ulp51))%Q.
Proof.
  intros Hh Hx0 Ha Hy. unfold Js.fmul.
  assert (Ha0 : (0 < a)%Q) by (unfold Js.ulp53 in Ha; lra).
  assert (Hp0 : (0 < h * a)%Q).
  { setoid_replace 0%Q with (h * 0)%Q by ring.
    apply Qmult_lt_l; assumption. }
  pose proof (round53_error (h * a) Hp0) as Hq.
  assert (K1 : (y * (1 - Js.ulp53) <= h * a)%Q).
  { rewrite Hy.
    setoid_replace (h * x0 * (1 - Js.ulp53))%Q
      with (h * (x0 * (1 - Js.ulp53)))%Q by ring.
    apply Qmult_le_l; [exact Hh | apply Ha]. }
  assert (K2 : (h * a <= y * (1 + Js.ulp53))%Q).
  { rewrite Hy.
    setoid_replace (h * x0 * (1 + Js.ulp53))%Q
      with (h * (x0 * (1 + Js.ulp53)))%Q by ring.
    apply Qmult_le_l; [exact Hh | apply Ha]. }
  assert (Hy0 : (0 < y)%Q).
  { rewrite Hy. setoid_replace 0%Q with (h * 0)%Q by ring.
    apply Qmult_lt_l; assumption. }
  set (r := (h * a)%Q) in *. set (q := Js.round53 r) in *. clearbody q r.
  unfold Js.ulp53, Js.ulp51 in *. lra.
Qed.

End RoundingFacts.

Section SizingFacts.

Import Extractor.

(** Writing a number of pixels to a canvas attribute stores it. *)
Lemma toUnsignedLong_pixels (a : Z) :
  0 <= a < 2 ^ 32 -> Js.toUnsignedLong (inject_Z a) = a.
Proof.
  intros Ha. unfold Js.toUnsignedLong, Js.truncate.
  assert (H0 : (0 <= inject_Z a)%Q).
  { change 0%Q with (inject_Z 0). rewrite <- Zle_Qle. lia. }
  apply Qle_bool_iff in H0. rewrite H0, Qfloor_Z.
  apply Z.mod_small. lia.
Qed.

(** Writing a number that is within a relative 2^-51 of the quotient of
    two integers to a canvas attribute stores the integer part of the
    quotient, or one less when the quotient is a whole number. *)
Lemma truncated_within_pixel (N D : Z) (q : Q) :
  0 < N < 2 ^ 51 -> 0 < D -> N <= 800 * D ->
  (inject_Z N / inject_Z D * (1 - Js.ulp51) <= q)%Q ->
  (q <= inject_Z N / inject_Z D * (1 + Js.ulp51))%Q ->
  0 <= Js.toUnsignedLong q <= 800
  /\ 0 <= N - Js.toUnsignedLong q * D <= D.
Proof.
  intros HN HD Hsmall Hlo Hhi.
  assert (HD' : (0 < inject_Z D)%Q).
  { change 0%Q with (inject_Z 0). rewrite <- Zlt_Qlt. exact HD. }
  assert (HN' : (0 < inject_Z N)%Q /\ (inject_Z N < 2251799813685248)%Q).
  { split.
    - change 0%Q with (inject_Z 0). rewrite <- Zlt_Qlt. lia.
    - change 2251799813685248%Q with (inject_Z (2 ^ 51)).
      rewrite <- Zlt_Qlt. lia. }
  assert (Ey : (inject_Z N / inject_Z D * inject_Z D == inject_Z N)%Q).
  { field. intros E. rewrite E in HD'. discriminate. }
  set (y := (inject_Z N / inject_Z D)%Q) in *.
  assert (Hy0 : (0 < y)%Q).
  { apply Qlt_shift_div_l; [exact HD' | lra]. }
  assert (Hq0 : (0 <= q)%Q) by (unfold Js.ulp51 in Hlo; lra).
  pose proof (Qfloor_le q) as Hfl. pose proof (Qlt_floor q) as Hfu.
  rewrite inject_Z_plus in Hfu. change (inject_Z 1) with 1%Q in Hfu.
  set (t := Qfloor q) in *.
  assert (Ht0 : 0 <= t).
  { subst t. change 0 with (Qfloor 0). now apply Qfloor_resp_le. }
  (* t * D <= q * D <= N * (1 + 2^-51) < N + 1 *)
  assert (Hup : (inject_Z t * inject_Z D <= y * (1 + Js.ulp51) * inject_Z D)%Q).
  { apply Qmult_le_compat_r; [| now apply Qlt_le_weak].
    apply Qle_trans with q; assumption. }
  (* (t + 1) * D > q * D >= N * (1 - 2^-51) > N - 1 *)
  assert (Hdn : (y * (1 - Js.ulp51) * inject_Z D < (inject_Z t + 1) * inject_Z D)%Q).
  { apply Qmult_lt_compat_r; [exact HD' |].
    apply Qle_lt_trans with q; assumption. }
  setoid_replace (y * (1 + Js.ulp51) * inject_Z D)%Q
    with (y * inject_Z D * (1 + Js.ulp51))%Q in Hup by ring.
  setoid_replace (y * (1 - Js.ulp51) * inject_Z D)%Q
    with (y * inject_Z D * (1 - Js.ulp51))%Q in Hdn by ring.
  rewrite Ey in Hup, Hdn. unfold Js.ulp51 in Hup, Hdn.
  assert (Hup' : (inject_Z (t * D) < inject_Z (N + 1))%Q).
  { rewrite inject_Z_mult, inject_Z_plus. change (inject_Z 1) with 1%Q. lra. }
  assert (Hdn' : (inject_Z (N - 1) < inject_Z (t * D + D))%Q).
  { unfold Z.sub. rewrite !inject_Z_plus, inject_Z_mult, inject_Z_opp.
    change (inject_Z 1) with 1%Q.
    setoid_replace ((inject_Z t + 1) * inject_Z D)%Q
      with (inject_Z t * inject_Z D + inject_Z D)%Q in Hdn by ring.
    lra. }
  rewrite <- Zlt_Qlt in Hup', Hdn'.
  assert (Ht : t <= 800) by nia.
  unfold Js.toUnsignedLong, Js.truncate.
  apply Qle_bool_iff in Hq0. rewrite Hq0. fold t.
  rewrite Z.mod_small by lia. lia.
Qed.

Variable video : HTMLVideoElement.
Variable c : HTMLCanvasElement.

Let W := videoWidth video.
Let H := videoHeight video.

(** [videoWidth] and [videoHeight] are [unsigned long] attributes. *)
Hypothesis W_range : 0 < W < 2 ^ 32.
Hypothesis H_range : 0 < H < 2 ^ 32.

Lemma inject_pos (z : Z) : 0 < z -> (0 < inject_Z z)%Q.
Proof.
  intros Hz. change 0%Q with (inject_Z 0). now rewrite <- Zlt_Qlt.
Qed.

Lemma aspectRatio_error :
  let x0 := (inject_Z W / inject_Z H)%Q in
  (0 < x0)%Q
  /\ (x0 * (1 - Js.ulp53) <= Js.fdiv (inject_Z W) (inject_Z H)
      <= x0 * (1 + Js.ulp53))%Q.
Proof.
  intros x0.
  assert (Hx0 : (0 < x0)%Q).
  { apply Qlt_shift_div_l; [apply inject_pos; lia |].
    rewrite Qmult_0_l. apply inject_pos. lia. }
  split; [exact Hx0 | now apply round53_error].
Qed.

Lemma sizedCanvas_landscape :
  H < W ->
  let cw := width (sizedCanvas video c) in
  let ch := height (sizedCanvas video c) in
  cw = Z.min maxDimension W
  /\ 0 <= ch <= maxDimension
  /\ 0 <= cw * H - ch * W <= W.
Proof.
  intros Hlt. unfold sizedCanvas. fold W H.
  destruct (Z.ltb_spec H W) as [_ | ?]; [| lia].
  cbn [width height].
  assert (Hw : Js.toUnsignedLong (inject_Z (Z.min maxDimension W))
               = Z.min maxDimension W).
  { apply toUnsignedLong_pixels. unfold maxDimension. lia. }
  rewrite Hw. set (m := Z.min maxDimension W).
  assert (Hm : 0 < m <= 800) by (subst m; unfold maxDimension; lia).
  split; [reflexivity |].
  destruct aspectRatio_error as [Hx0 Ha].
  pose proof (inject_pos W ltac:(lia)) as HW'.
  pose proof (inject_pos H ltac:(lia)) as HH'.
  destruct (fdiv_chain (inject_Z m) (inject_Z W / inject_Z H)
              (Js.fdiv (inject_Z W) (inject_Z H))
              (inject_Z (m * H) / inject_Z W)) as [Hlo Hhi].
  - apply inject_pos. lia.
  - exact Hx0.
  - exact Ha.
  - rewrite inject_Z_mult. field. split; lra.
  - destruct (truncated_within_pixel (m * H) W
                (Js.fdiv (inject_Z m) (Js.fdiv (inject_Z W) (inject_Z H))))
      as [Hrange Hgap]; try assumption; try nia; try lia.
Qed.

Lemma sizedCanvas_portrait :
  W <= H ->
  let cw := width (sizedCanvas video c) in
  let ch := height (sizedCanvas video c) in
  ch = Z.min maxDimension H
  /\ 0 <= cw <= maxDimension
  /\ 0 <= ch * W - cw * H <= H.
Proof.
  intros Hle. unfold sizedCanvas. fold W H.
  destruct (Z.ltb_spec H W) as [? | _]; [lia |].
  cbn [width height].
  assert (Hh : Js.toUnsignedLong (inject_Z (Z.min maxDimension H))
               = Z.min maxDimension H).
  { apply toUnsignedLong_pixels. unfold maxDimension. lia. }
  rewrite Hh. set (m := Z.min maxDimension H).
  assert (Hm : 0 < m <= 800) by (subst m; unfold maxDimension; lia).
  split; [reflexivity |].
  destruct aspectRatio_error as [Hx0 Ha].
  pose proof (inject_pos W ltac:(lia)) as HW'.
  pose proof (inject_pos H ltac:(lia)) as HH'.
  destruct (fmul_chain (inject_Z m) (inject_Z W / inject_Z H)
              (Js.fdiv (inject_Z W) (inject_Z H))
              (inject_Z (m * W) / inject_Z H)) as [Hlo Hhi].
  - apply inject_pos. lia.
  - exact Hx0.
  - exact Ha.
  - rewrite inject_Z_mult. field. lra.
  - destruct (truncated_within_pixel (m * W) H
                (Js.fmul (inject_Z m) (Js.fdiv (inject_Z W) (inject_Z H))))
      as [Hrange Hgap]; try assumption; try nia; try lia.
Qed.

(** Both sides are at most 800, and the shorter side is the longer one
    scaled by the aspect ratio, to within one pixel. *)
Lemma sizedCanvas_bounds :
  let cw := width (sizedCanvas video c) in
  let ch := height (sizedCanvas video c) in
  0 <= cw <= maxDimension /\ 0 <= ch <= maxDimension
  /\ (H < W -> cw = Z.min maxDimension W /\ 0 <= cw * H - ch * W <= W)
  /\ (W <= H -> ch = Z.min maxDimension H /\ 0 <= ch * W - cw * H <= H).
Proof.
  intros cw ch. subst cw ch.
  destruct (Z.lt_ge_cases H W) as [Hlt | Hge].
  - destruct (sizedCanvas_landscape Hlt) as (Ew & Hch & Hgap).
    unfold maxDimension in *. repeat split; try lia.
  - destruct (sizedCanvas_portrait Hge) as (Eh & Hcw & Hgap).
    unfold maxDimension in *. repeat split; try lia.
Qed.

End SizingFacts.

Section TraceFacts.

Import Extractor.

Variable frameCount : Z.
Variable interval : Q.
Variable c : HTMLCanvasElement.

Lemma seeks_app a b : seeks (a ++ b) = seeks a ++ seeks b.
Proof. apply flat_map_app. Qed.

Lemma draws_app a b : draws (a ++ b) = draws a ++ draws b.
Proof. apply flat_map_app. Qed.

Lemma handovers_app a b : handovers (a ++ b) = handovers a ++ handovers b.
Proof. apply flat_map_app. Qed.

Lemma seeks_iterations l :
  seeks (flat_map (iteration frameCount interval c) l)
  = map (sampleTime interval) l.
Proof. induction l as [| i l IH]; cbn; [| rewrite <- IH]; reflexivity. Qed.

Lemma draws_iterations l :
  draws (flat_map (iteration frameCount interval c) l)
  = map (fun _ => (width c, height c)) l.
Proof. induction l as [| i l IH]; cbn; [| rewrite <- IH]; reflexivity. Qed.

Lemma handovers_iterations l :
  handovers (flat_map (iteration frameCount interval c) l) = [].
Proof. induction l as [| i l IH]; cbn; auto. Qed.

Lemma reports_iterations l rest :
  reportsWhile true (flat_map (iteration frameCount interval c) l ++ rest)
  = map (progressAt frameCount) l ++ reportsWhile true rest.
Proof. induction l as [| i l IH]; cbn; [| rewrite <- IH]; reflexivity. Qed.

Lemma Forall2_map_left {A B C} (f : A -> B) (R : B -> C -> Prop) l l' :
  Forall2 (fun a => R (f a)) l l' -> Forall2 R (map f l) l'.
Proof. induction 1; cbn; constructor; auto. Qed.

Lemma nth_error_zrange start k i :
  (i < k)%nat -> nth_error (zrange start k) i = Some (start + Z.of_nat i).
Proof.
  revert start i. induction k as [| k IH]; intros start i Hi; [lia |].
  destruct i as [| i]; cbn [zrange nth_error].
  - f_equal. lia.
  - rewrite IH by lia. f_equal. lia.
Qed.

End TraceFacts.

Section ExtractFacts.

Import Extractor.

Variable P : Platform.

Lemma sizeCanvas_run v w c :
  canvasRef w = Some c ->
  exists w', sizeCanvas v w = (Returned tt, w')
             /\ trace w' = trace w /\ videoRef w' = videoRef w
             /\ canvasRef w' = Some (sizedCanvas v c)
             /\ reactState w' = reactState w.
Proof.
  intros Hc. unfold sizeCanvas, sizedCanvas.
  destruct (videoHeight v <? videoWidth v);
    unfold setCanvasWidth, setCanvasHeight, bind, theCanvas, putCanvas;
    rewrite Hc; cbn; eexists; repeat split.
Qed.

Lemma extractFrames_without_canvas n w :
  canvasRef w = None
  \/ (exists c, canvasRef w = Some c /\ context2d c = false) ->
  extractFrames P n w = (Returned [], w).
Proof.
  unfold extractFrames, bind, getWorld.
  intros [Hc | [c [Hc Hctx]]]; rewrite Hc; [reflexivity |].
  rewrite Hctx. reflexivity.
Qed.

(** The interval between two samples of a video of finite duration. *)
Lemma interval_finite v n :
  Js.isFinite (durationValue v) = true -> n <> 0 ->
  Js.rdiv (durationValue v) (Js.Finite (inject_Z n))
  = Js.Finite (duration v / inject_Z n).
Proof.
  intros Hfin Hn. unfold duration.
  destruct (durationValue v) as [d | |]; try discriminate.
  cbn [Js.rdiv].
  destruct (Qeq_bool (inject_Z n) 0) eqn:E; [| reflexivity].
  apply Qeq_bool_iff in E. unfold Qeq in E. cbn in E. lia.
Qed.

(** The time of the first sample of a video whose duration is infinite or
    NaN is NaN. *)
Lemma first_time_not_finite v n :
  Js.isFinite (durationValue v) = false ->
  Js.isFinite
    (Js.rmul (Js.Finite (inject_Z 0))
       (Js.rdiv (durationValue v) (Js.Finite (inject_Z n)))) = false.
Proof.
  intros Hfin. destruct (durationValue v) as [d | s |]; try discriminate;
    reflexivity.
Qed.

Lemma extractFrames_spec n w v c :
  videoRef w = Some v -> canvasRef w = Some c -> context2d c = true ->
  (1 <= n -> Js.isFinite (durationValue v) = true) ->
  exists k tail r w',
    extractFrames P n w = (r, w')
    /\ trace w' = trace w
         ++ flat_map (iteration n (duration v / inject_Z n) (sizedCanvas v c))
              (zrange 0 k) ++ tail
    /\ canvasRef w' = Some (sizedCanvas v c)
    /\ Z.of_nat k <= Z.max 0 n
    /\ loopEnd P n (duration v / inject_Z n) v (sizedCanvas v c) 0 k [] r tail.
Proof.
  intros Hv Hc Hctx Hfin.
  unfold extractFrames, bind at 1, getWorld. rewrite Hc, Hctx. cbn [negb].
  unfold bind at 1, theVideo. rewrite Hv.
  unfold bind at 1.
  destruct (sizeCanvas_run v w c Hc) as (w1 & Hrun & Htr & Hvid & Hcan & _).
  rewrite Hrun.
  destruct (sampleLoop_spec P n (duration v / inject_Z n) (S (Z.to_nat n))
              (Js.rdiv (durationValue v) (Js.Finite (inject_Z n)))
              0 [] w1 v (sizedCanvas v c))
    as (k & tail & r & w' & Hloop & Htr' & Hcan' & _ & Hk & Hend).
  - now rewrite Hvid.
  - exact Hcan.
  - lia.
  - rewrite Z.sub_0_r. lia.
  - intros Hn. apply interval_finite; [apply Hfin |]; lia.
  - exists k, tail, r, w'. rewrite Z.sub_0_r in Hk.
    split; [exact Hloop |]. rewrite Htr', Htr. repeat split; auto.
Qed.

(** With a duration that is infinite or NaN, [extractFrames] sizes the
    canvas and throws at the first [video.currentTime = time]: the time is
    NaN.  It has neither sought nor drawn. *)
Lemma extractFrames_not_finite n w v c :
  videoRef w = Some v -> canvasRef w = Some c -> context2d c = true ->
  Js.isFinite (durationValue v) = false -> 1 <= n ->
  exists w',
    extractFrames P n w = (Thrown nonFiniteTime, w')
    /\ trace w' = trace w
    /\ canvasRef w' = Some (sizedCanvas v c)
    /\ videoRef w' = Some v
    /\ reactState w' = reactState w.
Proof.
  intros Hv Hc Hctx Hfin Hn.
  unfold extractFrames, bind at 1, getWorld. rewrite Hc, Hctx. cbn [negb].
  unfold bind at 1, theVideo. rewrite Hv.
  unfold bind at 1.
  destruct (sizeCanvas_run v w c Hc) as (w1 & Hrun & Htr & Hvid & Hcan & Hst).
  rewrite Hrun.
  destruct (Z.to_nat n) as [| k] eqn:Ek; [lia |].
  cbn [sampleLoop].
  destruct (Z.ltb_spec 0 n) as [_ | ?]; [| lia].
  pose proof (first_time_not_finite v n Hfin) as Htime.
  unfold bind at 1. unfold seekTo, bind, theVideo.
  rewrite Hvid, Hv.
  destruct (Js.rmul (Js.Finite (inject_Z 0))
              (Js.rdiv (durationValue v) (Js.Finite (inject_Z n))));
    [discriminate Htime | |];
    (exists w1; unfold throw; repeat split; congruence).
Qed.

(** On a cooperative platform the loop cannot stop early. *)
Lemma loopEnd_cooperative n interval v c i k frames r tail :
  cooperative P -> loopEnd P n interval v c i k frames r tail ->
  exists fs, r = Returned fs.
Proof.
  intros [Hseek Hdata] Hend. destruct r as [fs | msg |]; cbn in Hend.
  - now exists fs.
  - destruct Hend as (_ & _ & Hnone). now apply Hdata in Hnone.
  - destruct Hend as (_ & _ & Hfalse). rewrite Hseek in Hfalse. discriminate.
Qed.

(** The effects of an incomplete last turn hold no progress report, no
    handover, and only draw on the sized canvas. *)
Lemma loopEnd_tail n interval v c i k frames r tail :
  loopEnd P n interval v c i k frames r tail ->
  reportsWhile true tail = [] /\ handovers tail = []
  /\ Forall (fun d => d = (width c, height c)) (draws tail)
  /\ (forall rest, reportsWhile true (tail ++ rest) = reportsWhile true rest)
  /\ (forall fs, r = Returned fs -> tail = [])
  /\ seeks tail = match r with
                  | Returned _ => []
                  | _ => [sampleTime interval (i + Z.of_nat k)]
                  end.
Proof.
  intros Hend. destruct r as [fs | msg |]; cbn in Hend.
  - destruct Hend as [-> _]. cbn. repeat split; auto.
  - destruct Hend as [-> _]. cbn. repeat split; auto. discriminate.
  - destruct Hend as [-> _]. cbn. repeat split; auto. discriminate.
Qed.

End ExtractFacts.

Lemma duration_pos_finite (v : Extractor.HTMLVideoElement) :
  (0 < Extractor.duration v)%Q ->
  Js.isFinite (Extractor.durationValue v) = true.
Proof.
  unfold Extractor.duration.
  destruct (Extractor.durationValue v); [reflexivity | |]; intros H;
    discriminate H.
Qed.

Lemma sample_before_end (D : Q) (n i : Z) :
  (0 < D)%Q -> 0 <= i < n ->
  (inject_Z i * (D / inject_Z n) == inject_Z i * D / inject_Z n)%Q
  /\ (0 <= inject_Z i * (D / inject_Z n))%Q
  /\ (inject_Z i * (D / inject_Z n) < D)%Q.
Proof.
  intros HD Hi.
  assert (Hn : (0 < inject_Z n)%Q).
  { change 0%Q with (inject_Z 0). rewrite <- Zlt_Qlt. lia. }
  assert (Hi0 : (0 <= inject_Z i)%Q).
  { change 0%Q with (inject_Z 0). rewrite <- Zle_Qle. lia. }
  assert (Hin : (inject_Z i < inject_Z n)%Q).
  { rewrite <- Zlt_Qlt. lia. }
  assert (E : (inject_Z i * (D / inject_Z n) == inject_Z i * D / inject_Z n)%Q).
  { unfold Qdiv. ring. }
  split; [exact E |]. rewrite E. split.
  - apply Qle_shift_div_l; [exact Hn |]. rewrite Qmult_0_l.
    apply Qmult_le_0_compat; [exact Hi0 | now apply Qlt_le_weak].
  - apply Qlt_shift_div_r; [exact Hn |].
    rewrite (Qmult_comm (inject_Z i) D). apply Qmult_lt_l; assumption.
Qed.

(** C1: on a video of duration [D > 0], with the canvas and its 2d context
    at hand and [frameCount = n >= 1], every run of [extractFrames] that
    returns gives exactly [n] frames; it has then sought, in this order,
    the times [i * (D / n)] for [i = 0 .. n-1], and frame [i] is the raster
    of the video at that time.  When every seek is answered and every frame
    rasterizes, the run does return.  Each of these times equals
    [i * D / n], is not negative and is strictly less than [D]. *)
Theorem extract_returns_frameCount_frames (P : Extractor.Platform) (n : Z)
    (w : Extractor.World) (v : Extractor.HTMLVideoElement)
    (c : Extractor.HTMLCanvasElement) :
  Extractor.videoRef w = Some v ->
  Extractor.canvasRef w = Some c ->
  Extractor.context2d c = true ->
  (0 < Extractor.duration v)%Q ->
  1 <= n ->
  let D := Extractor.duration v in
  let times := map (Extractor.sampleTime (D / inject_Z n))
                 (Extractor.zrange 0 (Z.to_nat n)) in
  let c1 := Extractor.sizedCanvas v c in
  (forall frames w',
      Extractor.extractFrames P n w = (Extractor.Returned frames, w') ->
      Z.of_nat (List.length frames) = n
      /\ (exists tr, Extractor.trace w' = Extractor.trace w ++ tr
                     /\ Extractor.seeks tr = times)
      /\ Forall2 (fun t f =>
            Extractor.toDataURL P (Extractor.atTime v t)
              (Extractor.width c1) (Extractor.height c1) = Some f)
           times frames)
  /\ (Extractor.cooperative P ->
      exists frames w',
        Extractor.extractFrames P n w = (Extractor.Returned frames, w'))
  /\ (forall i, 0 <= i < n ->
        nth_error times (Z.to_nat i) = Some (inject_Z i * (D / inject_Z n))%Q
        /\ (inject_Z i * (D / inject_Z n) == inject_Z i * D / inject_Z n)%Q
        /\ (0 <= inject_Z i * (D / inject_Z n))%Q
        /\ (inject_Z i * (D / inject_Z n) < D)%Q).
Proof.
  intros Hv Hc Hctx HD Hn D times c1.
  destruct (extractFrames_spec P n w v c Hv Hc Hctx
              (fun _ => duration_pos_finite v HD))
    as (k & tail & r & w1 & Hrun & Htr & _ & Hk & Hend).
  fold D c1 in Htr, Hend.
  split; [| split].
  - intros frames w' Hret. rewrite Hrun in Hret. injection Hret as -> ->.
    cbn in Hend. destruct Hend as (-> & Hkn & fs' & Hfs & Hall).
    cbn in Hfs. subst fs'. rewrite Z.sub_0_r in Hkn.
    assert (Ek : k = Z.to_nat n) by lia. subst k.
    split; [| split].
    + apply Forall2_length in Hall. rewrite zrange_length in Hall. lia.
    + eexists. split; [exact Htr |].
      rewrite app_nil_r. apply seeks_iterations.
    + apply Forall2_map_left. exact Hall.
  - intros Hcoop.
    destruct (loopEnd_cooperative P _ _ _ _ _ _ _ _ _ Hcoop Hend) as [fs ->].
    now exists fs, w1.
  - intros i Hi.
    split; [| now apply sample_before_end].
    unfold times. rewrite nth_error_map, nth_error_zrange by lia.
    cbn. unfold Extractor.sampleTime. rewrite Z2Nat.id by lia. reflexivity.
Qed.

(** Ten frames of the ten second clip: seeks at 0, 1, ..., 9 seconds. *)
Lemma extract_returns_frameCount_frames_witness :
  exists frames w',
    Extractor.extractFrames Extractor.samplePlatform 10 Extractor.sampleLoaded
    = (Extractor.Returned frames, w')
    /\ Z.of_nat (List.length frames) = 10
    /\ (inject_Z 9 * (10 / inject_Z 10) < 10)%Q.
Proof.
  destruct (extract_returns_frameCount_frames Extractor.samplePlatform 10
              Extractor.sampleLoaded Extractor.sampleVideo
              (Extractor.mkCanvas true 300 150))
    as (Hret & Hcoop & Htimes).
  - reflexivity.
  - reflexivity.
  - reflexivity.
  - reflexivity.
  - lia.
  - destruct Hcoop as (frames & w' & Hrun).
    + split; [reflexivity | discriminate].
    + exists frames, w'. split; [exact Hrun |].
      split; [apply (Hret frames w' Hrun) |].
      apply (Htimes 9). lia.
Defined.

(** C6: for a video with positive natural dimensions, [extractFrames] sizes
    the canvas before it samples: neither side exceeds 800; the longer side
    is [min 800] of the video's longer side, and the shorter side is the
    longer side scaled by the video's aspect ratio to within one pixel: the
    quotient (or product) is computed in binary64 and truncated, so that
    [0 <= cw * H - ch * W <= W] for a landscape video and
    [0 <= ch * W - cw * H <= H] otherwise.  Every frame of the run is drawn
    at this one size, and it is the size of the canvas when the run ends,
    however it ends. *)
Theorem canvas_keeps_aspect_within_bound (P : Extractor.Platform) (n : Z)
    (w : Extractor.World) (v : Extractor.HTMLVideoElement)
    (c : Extractor.HTMLCanvasElement) :
  Extractor.videoRef w = Some v ->
  Extractor.canvasRef w = Some c ->
  Extractor.context2d c = true ->
  0 < Extractor.videoWidth v < 2 ^ 32 ->
  0 < Extractor.videoHeight v < 2 ^ 32 ->
  let W := Extractor.videoWidth v in
  let H := Extractor.videoHeight v in
  exists cw ch,
    (forall r w', Extractor.extractFrames P n w = (r, w') ->
       (exists c', Extractor.canvasRef w' = Some c'
                   /\ Extractor.width c' = cw /\ Extractor.height c' = ch)
       /\ exists tr, Extractor.trace w' = Extractor.trace w ++ tr
                     /\ Forall (fun d => d = (cw, ch)) (Extractor.draws tr))
    /\ 0 <= cw <= 800 /\ 0 <= ch <= 800
    /\ (H < W -> cw = Z.min 800 W /\ 0 <= cw * H - ch * W <= W)
    /\ (W <= H -> ch = Z.min 800 H /\ 0 <= ch * W - cw * H <= H).
Proof.
  intros Hv Hc Hctx HW HH W H.
  exists (Extractor.width (Extractor.sizedCanvas v c)),
         (Extractor.height (Extractor.sizedCanvas v c)).
  split; [| exact (sizedCanvas_bounds v c HW HH)].
  intros r w' Hrun.
  destruct (Z.le_gt_cases 1 n) as [Hn | Hn];
    [destruct (Js.isFinite (Extractor.durationValue v)) eqn:Hfin |].
  2:{ destruct (extractFrames_not_finite P n w v c Hv Hc Hctx Hfin Hn)
        as (w1 & Hrun1 & Htr & Hcan & _).
      rewrite Hrun in Hrun1. injection Hrun1 as -> <-.
      split; [eexists; split; [exact Hcan | split; reflexivity] |].
      exists []. rewrite app_nil_r. split; [exact Htr | constructor]. }
  all: destruct (extractFrames_spec P n w v c Hv Hc Hctx)
         as (k & tail & r1 & w1 & Hrun1 & Htr & Hcan & _ & Hend);
       [solve [intros _; assumption | intros; lia] |];
       rewrite Hrun in Hrun1; injection Hrun1 as <- <-;
       (split; [eexists; split; [exact Hcan | split; reflexivity] |]);
       eexists; (split; [exact Htr |]);
       rewrite draws_app, draws_iterations; apply Forall_app; split;
       [ apply Forall_forall; intros d Hd; apply in_map_iff in Hd;
         destruct Hd as [_ [<- _]]; reflexivity
       | apply (loopEnd_tail P _ _ _ _ _ _ _ _ _ Hend) ].
Qed.

(** A 1600 by 704 video: the exact height of the canvas would be 352, the
    binary64 quotient 800 / (1600 / 704) is just below it and the canvas
    is 800 by 351, a whole pixel off. *)
Lemma canvas_keeps_aspect_within_bound_witness :
  let v := Extractor.mkVideo (Some Extractor.sampleFile) (Js.Finite 10)
             1600 704 0 in
  let w := Extractor.mkWorld true 0 (Some Extractor.sampleFile) (Some v)
             (Some (Extractor.mkCanvas true 300 150)) [] in
  exists cw ch,
    (forall r w',
       Extractor.extractFrames Extractor.samplePlatform 3 w = (r, w') ->
       exists c', Extractor.canvasRef w' = Some c'
                  /\ Extractor.width c' = cw /\ Extractor.height c' = ch)
    /\ cw = 800 /\ 0 <= cw * 704 - ch * 1600 <= 1600
    /\ (Extractor.width
          (Extractor.sizedCanvas v (Extractor.mkCanvas true 300 150)),
        Extractor.height
          (Extractor.sizedCanvas v (Extractor.mkCanvas true 300 150)))
       = (800, 351).
Proof.
  cbv zeta.
  destruct (canvas_keeps_aspect_within_bound Extractor.samplePlatform 3
              (Extractor.mkWorld true 0 (Some Extractor.sampleFile)
                 (Some (Extractor.mkVideo (Some Extractor.sampleFile)
                          (Js.Finite 10) 1600 704 0))
                 (Some (Extractor.mkCanvas true 300 150)) [])
              (Extractor.mkVideo (Some Extractor.sampleFile) (Js.Finite 10)
                 1600 704 0)
              (Extractor.mkCanvas true 300 150))
    as (cw & ch & Hrun & _ & _ & Hland & _).
  - reflexivity.
  - reflexivity.
  - reflexivity.
  - cbn. lia.
  - cbn. lia.
  - exists cw, ch. split.
    + intros r w' E. apply (Hrun r w' E).
    + cbn [Extractor.videoWidth Extractor.videoHeight] in Hland.
      split; [apply Hland; lia |]. split; [apply Hland; lia |].
      vm_compute. reflexivity.
Defined.

(** Equality of two traces built from the same effects. *)
Ltac same_trace :=
  unfold Extractor.successReport, Extractor.failureReport;
  cbn [firstn];
  repeat first [rewrite <- app_assoc | rewrite app_nil_r | progress cbn [app]];
  reflexivity.

Section HandlerFacts.

Import Extractor.

Variable P : Platform.

Lemma bind_returned {A B} (m : js A) (k : A -> js B) w a w1 :
  m w = (Returned a, w1) -> bind m k w = k a w1.
Proof. intros E. unfold bind. now rewrite E. Qed.

Lemma bind_thrown {A B} (m : js A) (k : A -> js B) w msg w1 :
  m w = (Thrown msg, w1) -> bind m k w = (Thrown msg, w1).
Proof. intros E. unfold bind. now rewrite E. Qed.

Lemma bind_pending {A B} (m : js A) (k : A -> js B) w w1 :
  m w = (Pending, w1) -> bind m k w = (Pending, w1).
Proof. intros E. unfold bind. now rewrite E. Qed.

(** Without a selected file or without the video element the handler
    does nothing. *)
Lemma handleExtractFrames_not_ready w :
  videoFile w = None \/ videoRef w = None ->
  handleExtractFrames P w = (Returned tt, w).
Proof.
  unfold handleExtractFrames, bind, getWorld, ret.
  intros [E | E]; rewrite E; [reflexivity |].
  destruct (videoFile w); reflexivity.
Qed.

(** The runs of the [try] block. *)
Lemma tryBlock_run w file v0 :
  videoRef w = Some v0 ->
  exists r w' body,
    tryBlock P file w = (r, w')
    /\ trace w' = trace w ++ body
    /\ ((loadMetadata P file = None
         /\ r = Thrown "Failed to load video" /\ body = [])
        \/ exists m,
             loadMetadata P file = Some m
             /\ ((( canvasRef w = None
                    \/ exists c, canvasRef w = Some c /\ context2d c = false)
                  /\ r = Thrown "No frames were extracted"
                  /\ body = [loadedToast])
                 \/ (exists c k tail r1,
                      canvasRef w = Some c /\ context2d c = true
                      /\ Js.isFinite (durationValue (loadedVideo file m)) = true
                      /\ loopEnd P FRAME_SIZE
                           (duration (loadedVideo file m) / inject_Z FRAME_SIZE)
                           (loadedVideo file m)
                           (sizedCanvas (loadedVideo file m) c) 0 k [] r1 tail
                      /\ body = loadedToast
                           :: flat_map
                                (iteration FRAME_SIZE
                                   (duration (loadedVideo file m)
                                    / inject_Z FRAME_SIZE)
                                   (sizedCanvas (loadedVideo file m) c))
                                (zrange 0 k)
                           ++ tail
                           ++ match r1 with
                              | Returned frames =>
                                  firstn 2 (successReport frames)
                              | _ => []
                              end
                      /\ r = match r1 with
                             | Returned _ => Returned tt
                             | Thrown msg => Thrown msg
                             | Pending => Pending
                             end)
                 \/ exists c,
                      canvasRef w = Some c /\ context2d c = true
                      /\ Js.isFinite (durationValue (loadedVideo file m)) = false
                      /\ r = Thrown nonFiniteTime
                      /\ body = [loadedToast])).
Proof.
  intros Hvideo. unfold tryBlock.
  destruct (loadMetadata P file) as [[[d vw] vh] |] eqn:Hload.
  2:{ erewrite bind_thrown.
      2:{ unfold loadVideo. rewrite Hload.
          unfold bind, theVideo, putVideo, throw. rewrite Hvideo.
          reflexivity. }
      eexists _, _, []. split; [reflexivity |]. cbn [trace].
      rewrite app_nil_r. split; [reflexivity |]. left. auto. }
  erewrite bind_returned.
  2:{ unfold loadVideo. rewrite Hload. unfold putVideo. reflexivity. }
  set (m := (d, vw, vh)).
  erewrite bind_returned by (unfold emit; reflexivity).
  match goal with
  | |- context [bind (extractFrames P FRAME_SIZE) ?k ?w4] => set (w4' := w4)
  end.
  assert (Hv4 : videoRef w4' = Some (loadedVideo file m)).
  { reflexivity. }
  assert (Hc4 : canvasRef w4' = canvasRef w) by reflexivity.
  assert (Ht4 : trace w4' = trace w ++ [loadedToast]) by reflexivity.
  clearbody w4'.
  destruct (canvasRef w) as [c |] eqn:Hcan.
  2:{ erewrite bind_returned
        by (apply extractFrames_without_canvas; left; exact Hc4).
      cbn. eexists _, _, _. split; [reflexivity |].
      split; [exact Ht4 |]. right. exists m. split; [reflexivity |].
      left. auto. }
  destruct (context2d c) eqn:Hctx.
  2:{ erewrite bind_returned
        by (apply extractFrames_without_canvas; right; eauto).
      cbn. eexists _, _, _. split; [reflexivity |].
      split; [exact Ht4 |]. right. exists m. split; [reflexivity |].
      left. split; [right; eauto | auto]. }
  destruct (Js.isFinite (durationValue (loadedVideo file m))) eqn:Hfin.
  2:{ destruct (extractFrames_not_finite P FRAME_SIZE w4' (loadedVideo file m) c
                  Hv4 Hc4 Hctx Hfin) as (w5 & Hrun & Htr & _);
        [unfold FRAME_SIZE; lia |].
      erewrite bind_thrown by exact Hrun.
      eexists _, _, _. split; [reflexivity |].
      rewrite Htr. split; [exact Ht4 |]. right. exists m.
      split; [reflexivity |]. right. right. exists c. auto. }
  destruct (extractFrames_spec P FRAME_SIZE w4' (loadedVideo file m) c
              Hv4 Hc4 Hctx (fun _ => Hfin))
    as (k & tail & r1 & w5 & Hrun & Htr & _ & Hk & Hend).
  destruct r1 as [frames | msg |].
  - erewrite bind_returned by exact Hrun.
    assert (Hlen : (0 <? Z.of_nat (List.length frames)) = true).
    { cbn in Hend. destruct Hend as (_ & Hkn & fs' & Hfs & Hall).
      cbn in Hfs. subst fs'. apply Forall2_length in Hall.
      rewrite zrange_length in Hall. apply Z.ltb_lt.
      unfold FRAME_SIZE in Hkn. lia. }
    rewrite Hlen. unfold bind, emit.
    eexists _, _, _. split; [reflexivity |]. cbn [trace].
    rewrite Htr, Ht4. split.
    2:{ right. exists m. split; [reflexivity |]. right. left.
        exists c, k, tail, (Returned frames).
        split; [reflexivity |]. split; [exact Hctx |]. split; [exact Hfin |].
        split; [exact Hend |]. split; reflexivity. }
    cbn [successReport firstn]. rewrite <- !app_assoc. reflexivity.
  - erewrite bind_thrown by exact Hrun.
    eexists _, _, _. split; [reflexivity |].
    rewrite Htr, Ht4. split.
    2:{ right. exists m. split; [reflexivity |]. right. left.
        exists c, k, tail, (Thrown msg).
        split; [reflexivity |]. split; [exact Hctx |]. split; [exact Hfin |].
        split; [exact Hend |]. split; reflexivity. }
    rewrite app_nil_r, <- !app_assoc. reflexivity.
  - erewrite bind_pending by exact Hrun.
    eexists _, _, _. split; [reflexivity |].
    rewrite Htr, Ht4. split.
    2:{ right. exists m. split; [reflexivity |]. right. left.
        exists c, k, tail, Pending.
        split; [reflexivity |]. split; [exact Hctx |]. split; [exact Hfin |].
        split; [exact Hend |]. split; reflexivity. }
    rewrite app_nil_r, <- !app_assoc. reflexivity.
Qed.

(** The runs of the handler once a file is selected. *)
Lemma handleExtractFrames_anatomy w file v0 :
  videoFile w = Some file -> videoRef w = Some v0 ->
  exists r w' body,
    handleExtractFrames P w = (r, w')
    /\ trace w' = trace w ++ SetIsExtracting true :: SetProgress 0 :: body
    /\ handlerRun P file (canvasRef w) r body.
Proof.
  intros Hfile Hvideo. unfold handleExtractFrames.
  erewrite bind_returned by (unfold getWorld; reflexivity).
  rewrite Hfile, Hvideo.
  erewrite bind_returned by (unfold setIsExtracting; reflexivity).
  erewrite bind_returned by (unfold setProgress; reflexivity).
  match goal with
  | |- context [tryCatchFinally _ _ _ ?w2] => set (w2' := w2)
  end.
  assert (Hv2 : videoRef w2' = Some v0) by exact Hvideo.
  assert (Hc2 : canvasRef w2' = canvasRef w) by reflexivity.
  assert (Ht2 : trace w2' = trace w ++ [SetIsExtracting true; SetProgress 0]).
  { subst w2'. cbn [trace]. rewrite <- app_assoc. reflexivity. }
  clearbody w2'.
  destruct (tryBlock_run w2' file v0 Hv2) as (r & w3 & body & Hrun & Htr & Hcases).
  unfold tryCatchFinally. rewrite Hrun, Hc2 in *.
  assert (Hpre : forall rest,
             (trace w ++ [SetIsExtracting true; SetProgress 0]) ++ rest
             = trace w ++ SetIsExtracting true :: SetProgress 0 :: rest).
  { intros rest. rewrite <- app_assoc. reflexivity. }
  destruct Hcases as [(Hload & -> & ->) | (m & Hload & Hcases)].
  { unfold catchBlock, finallyBlock, bind, emit, setIsExtracting, setProgress, ret.
    eexists _, _, _. split; [reflexivity |]. cbn [trace].
    rewrite Htr, Ht2, app_nil_r.
    split; [| apply run_load_failed; exact Hload].
    same_trace. }
  destruct Hcases
    as [(Hnc & -> & ->)
       | [(c & k & tail & r1 & Hcan & Hctx & Hfin & Hend & -> & ->)
         | (c & Hcan & Hctx & Hfin & -> & ->)]].
  { unfold catchBlock, finallyBlock, bind, emit, setIsExtracting, setProgress, ret.
    eexists _, _, _. split; [reflexivity |]. cbn [trace].
    rewrite Htr, Ht2.
    split; [| eapply run_no_canvas; [exact Hload | exact Hnc]].
    same_trace. }
  2:{ unfold catchBlock, finallyBlock, bind, emit, setIsExtracting, setProgress, ret.
      eexists _, _, _. split; [reflexivity |]. cbn [trace].
      rewrite Htr, Ht2.
      split; [| eapply run_duration_not_finite; eauto].
      same_trace. }
  pose proof (loopEnd_tail P _ _ _ _ _ _ _ _ _ Hend) as (_ & _ & _ & _ & Hnil & _).
  destruct r1 as [frames | msg |].
  - unfold finallyBlock, bind, setIsExtracting, setProgress, ret.
    eexists _, _, _. split; [reflexivity |]. cbn [trace].
    rewrite Htr, Ht2, (Hnil frames eq_refl).
    split; [| eapply run_sampled; eauto].
    same_trace.
  - unfold catchBlock, finallyBlock, bind, emit, setIsExtracting, setProgress, ret.
    eexists _, _, _. split; [reflexivity |]. cbn [trace].
    rewrite Htr, Ht2, app_nil_r.
    split; [| eapply run_sample_failed; eauto].
    same_trace.
  - eexists _, _, _. split; [reflexivity |].
    rewrite Htr, Ht2, app_nil_r.
    split; [| eapply run_seek_unanswered; eauto].
    same_trace.
Qed.

End HandlerFacts.

Section ReadingFacts.

Import Extractor.

Lemma progressAt_le n i j :
  0 < n -> i <= j -> (progressAt n i <= progressAt n j)%Q.
Proof.
  intros Hn Hij. unfold progressAt.
  assert (Hn' : (0 < inject_Z n)%Q).
  { change 0%Q with (inject_Z 0). rewrite <- Zlt_Qlt. exact Hn. }
  apply Qmult_le_r; [reflexivity |].
  unfold Qdiv. apply Qmult_le_r; [now apply Qinv_lt_0_compat |].
  rewrite <- Zle_Qle. lia.
Qed.

Lemma progressAt_nonneg n i : 0 < n -> 0 <= i -> (0 <= progressAt n i)%Q.
Proof.
  intros Hn Hi. unfold progressAt.
  assert (Hn' : (0 < inject_Z n)%Q).
  { change 0%Q with (inject_Z 0). rewrite <- Zlt_Qlt. exact Hn. }
  apply Qmult_le_0_compat; [| discriminate].
  apply Qle_shift_div_l; [exact Hn' |]. rewrite Qmult_0_l.
  change 0%Q with (inject_Z 0). rewrite <- Zle_Qle. lia.
Qed.

Lemma progress_nonDecreasing n k :
  0 < n -> forall start, nonDecreasing (map (progressAt n) (zrange start k)).
Proof.
  intros Hn. induction k as [| k IH]; intros start; cbn; [exact I |].
  split; [| apply IH].
  destruct k as [| k]; cbn; [exact I |].
  apply progressAt_le; lia.
Qed.

Lemma nonDecreasing_cons a l :
  (forall b, hd_error l = Some b -> (a <= b)%Q) ->
  nonDecreasing l -> nonDecreasing (a :: l).
Proof.
  intros Hhd Hl. cbn. split; [| exact Hl].
  destruct l as [| b l]; [exact I | apply Hhd; reflexivity].
Qed.

Lemma reports_failureReport msg : reportsWhile true (failureReport msg) = [].
Proof. reflexivity. Qed.

Lemma reports_successReport frames :
  reportsWhile true (successReport frames) = [].
Proof. reflexivity. Qed.

Variable P : Platform.
Variable file : File.
Variable canvas : option HTMLCanvasElement.

(** The progress reports of a run: those of the turns it completed. *)
Lemma handler_reports r body :
  handlerRun P file canvas r body ->
  exists k,
    (k <= 100)%nat
    /\ reportsWhile true body = map (progressAt FRAME_SIZE) (zrange 0 k)
    /\ (handovers body <> [] -> k = 100%nat).
Proof.
  intros Hrun. inversion Hrun; subst; clear Hrun.
  - exists 0%nat. repeat split; [lia | intros Hne; now elim Hne].
  - exists 0%nat. repeat split; [lia | intros Hne; now elim Hne].
  - match goal with H : loopEnd _ _ _ _ _ _ _ _ _ _ |- _ =>
      destruct H as (_ & Hk & _) end.
    unfold FRAME_SIZE in Hk. exists k.
    split; [lia |]. split; [| intros _; lia].
    cbn [reportsWhile loadedToast]. unfold loadedToast.
    rewrite reports_iterations, reports_successReport, app_nil_r.
    reflexivity.
  - match goal with H : loopEnd _ _ _ _ _ _ _ _ _ _ |- _ =>
      pose proof (loopEnd_tail P _ _ _ _ _ _ _ _ _ H) as (_ & Hh & _ & Hskip & _);
      destruct H as (_ & Hk & _) end.
    unfold FRAME_SIZE in Hk. exists k.
    split; [lia |]. split.
    + unfold loadedToast. cbn [reportsWhile].
      rewrite reports_iterations, Hskip, reports_failureReport, app_nil_r.
      reflexivity.
    + intros Hne. exfalso. apply Hne. unfold loadedToast. cbn [handovers flat_map app].
      fold (handovers (flat_map
              (iteration FRAME_SIZE (duration v / inject_Z FRAME_SIZE)
                 (sizedCanvas v c)) (zrange 0 k) ++ tail ++ failureReport msg)).
      rewrite !handovers_app, handovers_iterations, Hh. reflexivity.
  - match goal with H : loopEnd _ _ _ _ _ _ _ _ _ _ |- _ =>
      pose proof (loopEnd_tail P _ _ _ _ _ _ _ _ _ H) as (Hr & Hh & _);
      destruct H as (_ & Hk & _) end.
    unfold FRAME_SIZE in Hk. exists k.
    split; [lia |]. split.
    + unfold loadedToast. cbn [reportsWhile].
      rewrite reports_iterations, Hr, app_nil_r. reflexivity.
    + intros Hne. exfalso. apply Hne. unfold loadedToast. cbn [handovers flat_map app].
      fold (handovers (flat_map
              (iteration FRAME_SIZE (duration v / inject_Z FRAME_SIZE)
                 (sizedCanvas v c)) (zrange 0 k) ++ tail)).
      rewrite !handovers_app, handovers_iterations, Hh. reflexivity.
  - exists 0%nat. repeat split; [lia | intros Hne; now elim Hne].
Qed.

Lemma handovers_cons_other e l :
  (forall fs, e <> OnFramesExtracted fs) -> handovers (e :: l) = handovers l.
Proof. intros He. destruct e; try reflexivity. now elim (He frames). Qed.

Lemma no_failureToast_in_iterations n interval c l :
  ~ In failureToast (flat_map (iteration n interval c) l).
Proof.
  intros Hin. apply in_flat_map in Hin. destruct Hin as (i & _ & Hin).
  cbn in Hin. unfold failureToast in Hin.
  destruct Hin as [E | [E | [E | []]]]; discriminate.
Qed.

(** The handovers of a run: none, and then the run is pending or has
    reported a failure; or one, of the frames of all samples, and then
    the run has reported no failure. *)
Lemma handler_handovers r body :
  handlerRun P file canvas r body ->
  (handovers body = [] /\ (r = Pending \/ In failureToast body))
  \/ (exists frames m c,
        handovers body = [frames] /\ r = Returned tt
        /\ ~ In failureToast body
        /\ loadMetadata P file = Some m /\ canvas = Some c
        /\ context2d c = true
        /\ List.length frames = 100%nat
        /\ Forall2 (fun i f =>
              toDataURL P
                (atTime (loadedVideo file m)
                   (sampleTime (duration (loadedVideo file m)
                                / inject_Z FRAME_SIZE) i))
                (width (sizedCanvas (loadedVideo file m) c))
                (height (sizedCanvas (loadedVideo file m) c)) = Some f)
             (zrange 0 100) frames).
Proof.
  intros Hrun. inversion Hrun; subst; clear Hrun.
  - left. split; [reflexivity |]. right. cbn. auto.
  - left. split; [reflexivity |]. right. cbn. auto.
  - right. exists frames, m, c.
    match goal with Hend : loopEnd _ _ _ _ _ _ _ _ _ _ |- _ =>
      destruct Hend as (_ & Hk & fs' & Hfs & Hall) end.
    cbn in Hfs. subst fs'. unfold FRAME_SIZE in Hk.
    assert (Ek : k = 100%nat) by lia. subst k.
    split.
    { unfold loadedToast. rewrite handovers_cons_other by discriminate.
      rewrite handovers_app, handovers_iterations. reflexivity. }
    split; [reflexivity |]. split.
    { intros [E | Hin]; [discriminate E |].
      apply in_app_or in Hin. destruct Hin as [Hin | Hin].
      - now apply no_failureToast_in_iterations in Hin.
      - cbn in Hin. unfold failureToast in Hin.
        destruct Hin as [E | [E | [E | [E | []]]]]; discriminate. }
    split; [assumption |]. split; [reflexivity |]. split; [assumption |].
    split; [| exact Hall].
    apply Forall2_length in Hall. now rewrite zrange_length in Hall.
  - left.
    match goal with Hend : loopEnd _ _ _ _ _ _ _ _ _ _ |- _ =>
      pose proof (loopEnd_tail P _ _ _ _ _ _ _ _ _ Hend) as (_ & Hh & _) end.
    split.
    + unfold loadedToast. rewrite handovers_cons_other by discriminate.
      rewrite !handovers_app, handovers_iterations, Hh. reflexivity.
    + right. right. apply in_or_app. right. apply in_or_app. right.
      cbn. auto.
  - left.
    match goal with Hend : loopEnd _ _ _ _ _ _ _ _ _ _ |- _ =>
      pose proof (loopEnd_tail P _ _ _ _ _ _ _ _ _ Hend) as (_ & Hh & _) end.
    split; [| left; reflexivity].
    unfold loadedToast. rewrite handovers_cons_other by discriminate.
    rewrite !handovers_app, handovers_iterations, Hh. reflexivity.
  - left. split; [reflexivity |]. right. cbn. auto.
Qed.

(** The seeks of a run: the sample times, in order, up to where it got. *)
Lemma handler_seeks r body m :
  handlerRun P file canvas r body ->
  loadMetadata P file = Some m ->
  exists k,
    (k <= 100)%nat
    /\ seeks body
       = map (sampleTime (duration (loadedVideo file m) / inject_Z FRAME_SIZE))
           (zrange 0 k)
    /\ (handovers body <> [] -> k = 100%nat).
Proof.
  intros Hrun Hload. destruct (handler_handovers r body Hrun) as [[Hnone _] | Hsome].
  - inversion Hrun; subst; clear Hrun;
      try match goal with
          | Hm : loadMetadata P file = Some ?m0 |- _ =>
              assert (m0 = m) by congruence; subst m0
          end.
    + congruence.
    + exists 0%nat. repeat split; [lia | now rewrite Hnone].
    + exfalso. revert Hnone. unfold loadedToast.
      rewrite handovers_cons_other by discriminate.
      rewrite handovers_app, handovers_iterations. discriminate.
    + match goal with Hend : loopEnd _ _ _ _ _ _ _ _ _ _ |- _ =>
        pose proof (loopEnd_tail P _ _ _ _ _ _ _ _ _ Hend)
          as (_ & _ & _ & _ & _ & Hs);
        destruct Hend as (_ & Hk & _) end.
      unfold FRAME_SIZE in Hk. exists (S k).
      split; [lia |]. split; [| now rewrite Hnone].
      unfold loadedToast. cbn [seeks flat_map app].
      fold (seeks (flat_map
              (iteration FRAME_SIZE (duration v / inject_Z FRAME_SIZE)
                 (sizedCanvas v c)) (zrange 0 k) ++ tail ++ failureReport msg)).
      rewrite !seeks_app, seeks_iterations, Hs, zrange_snoc, map_app.
      reflexivity.
    + match goal with Hend : loopEnd _ _ _ _ _ _ _ _ _ _ |- _ =>
        pose proof (loopEnd_tail P _ _ _ _ _ _ _ _ _ Hend)
          as (_ & _ & _ & _ & _ & Hs);
        destruct Hend as (_ & Hk & _) end.
      unfold FRAME_SIZE in Hk. exists (S k).
      split; [lia |]. split; [| now rewrite Hnone].
      unfold loadedToast. cbn [seeks flat_map app].
      fold (seeks (flat_map
              (iteration FRAME_SIZE (duration v / inject_Z FRAME_SIZE)
                 (sizedCanvas v c)) (zrange 0 k) ++ tail)).
      rewrite !seeks_app, seeks_iterations, Hs, zrange_snoc, map_app.
      reflexivity.
    + exists 0%nat. repeat split; [lia | now rewrite Hnone].
  - destruct Hsome as (frames & m' & c & Hh & _ & _ & Hm & _).
    assert (m' = m) by congruence. subst m'.
    inversion Hrun; subst; clear Hrun;
      try (exfalso; revert Hh; unfold loadedToast; cbn; discriminate).
    + match goal with
      | Hm0 : loadMetadata P file = Some ?m0 |- _ =>
          assert (m0 = m) by congruence; subst m0
      end.
      match goal with Hend : loopEnd _ _ _ _ _ _ _ _ _ _ |- _ =>
        destruct Hend as (_ & Hk & _) end.
      unfold FRAME_SIZE in Hk. assert (Ek : k = 100%nat) by lia. subst k.
      exists 100%nat. split; [lia |]. split; [| reflexivity].
      unfold loadedToast. cbn [seeks flat_map app].
      fold (seeks (flat_map
              (iteration FRAME_SIZE (duration v / inject_Z FRAME_SIZE)
                 (sizedCanvas v c0)) (zrange 0 100) ++ successReport frames0)).
      rewrite seeks_app, seeks_iterations. cbn [seeks successReport flat_map app].
      rewrite app_nil_r. reflexivity.
    + exfalso. revert Hh. unfold loadedToast.
      rewrite handovers_cons_other by discriminate.
      match goal with Hend : loopEnd _ _ _ _ _ _ _ _ _ _ |- _ =>
        pose proof (loopEnd_tail P _ _ _ _ _ _ _ _ _ Hend) as (_ & Hh' & _) end.
      rewrite !handovers_app, handovers_iterations, Hh'. discriminate.
    + exfalso. revert Hh. unfold loadedToast.
      rewrite handovers_cons_other by discriminate.
      match goal with Hend : loopEnd _ _ _ _ _ _ _ _ _ _ |- _ =>
        pose proof (loopEnd_tail P _ _ _ _ _ _ _ _ _ Hend) as (_ & Hh' & _) end.
      rewrite !handovers_app, handovers_iterations, Hh'. discriminate.
Qed.

(** On a cooperative platform, a file that loads with a finite duration
    and a canvas with a 2d context, the run hands frames over. *)
Lemma handler_succeeds r body :
  handlerRun P file canvas r body ->
  cooperative P ->
  loadMetadata P file <> None ->
  (forall m, loadMetadata P file = Some m ->
     Js.isFinite (durationValue (loadedVideo file m)) = true) ->
  (exists c, canvas = Some c /\ context2d c = true) ->
  r = Returned tt /\ handovers body <> [].
Proof.
  intros Hrun Hcoop Hload Hfin (c0 & Hc0 & Hctx0).
  inversion Hrun; subst; clear Hrun.
  6:{ match goal with
      | Hm : loadMetadata P file = Some ?m0, Hinf : Js.isFinite _ = false |- _ =>
          rewrite (Hfin m0 Hm) in Hinf; discriminate Hinf
      end. }
  - congruence.
  - match goal with
    | Hno : _ \/ _ |- _ =>
        destruct Hno as [E | (c1 & E & Hctx1)]; congruence
    end.
  - split; [reflexivity |]. unfold loadedToast.
    rewrite handovers_cons_other by discriminate.
    rewrite handovers_app, handovers_iterations. discriminate.
  - match goal with Hend : loopEnd _ _ _ _ _ _ _ _ _ _ |- _ =>
      destruct (loopEnd_cooperative P _ _ _ _ _ _ _ _ _ Hcoop Hend) as [fs E]
    end. discriminate E.
  - match goal with Hend : loopEnd _ _ _ _ _ _ _ _ _ _ |- _ =>
      destruct (loopEnd_cooperative P _ _ _ _ _ _ _ _ _ Hcoop Hend) as [fs E]
    end. discriminate E.
Qed.

(** With a canvas context and a file that loads with a duration that is
    infinite or NaN, the run reports the TypeError of the first seek and
    nothing else. *)
Lemma handler_not_finite r body m c :
  handlerRun P file canvas r body ->
  loadMetadata P file = Some m ->
  canvas = Some c -> context2d c = true ->
  Js.isFinite (durationValue (loadedVideo file m)) = false ->
  r = Returned tt /\ body = loadedToast :: failureReport nonFiniteTime.
Proof.
  intros Hrun Hload Hcan Hctx Hfin.
  inversion Hrun; subst; clear Hrun;
    try match goal with
        | Hm : loadMetadata P file = Some ?m0 |- _ =>
            assert (m0 = m) by congruence; subst m0
        end;
    repeat match goal with x := _ |- _ => subst x end;
    try congruence.
  - match goal with
    | Hno : _ \/ _ |- _ =>
        destruct Hno as [E | (c1 & E & Hctx1)]; congruence
    end.
  - split; reflexivity.
Qed.

End ReadingFacts.

(** C4: in a run of [handleExtractFrames] on a selected file, the first two
    effects set [isExtracting] and reset the progress to 0; the progress
    values reported while [isExtracting] is set start with 0 and never
    decrease; and when the run hands frames over, the last of them is 100.
    On a cooperative platform, with a file that loads with a finite
    duration and a canvas with a 2d context, the run does hand frames
    over. *)
Theorem progress_reports_monotone (P : Extractor.Platform)
    (w : Extractor.World) (file : Extractor.File)
    (v0 : Extractor.HTMLVideoElement) :
  Extractor.videoFile w = Some file ->
  Extractor.videoRef w = Some v0 ->
  exists r w' tr,
    Extractor.handleExtractFrames P w = (r, w')
    /\ Extractor.trace w' = Extractor.trace w ++ tr
    /\ firstn 2 tr = [Extractor.SetIsExtracting true; Extractor.SetProgress 0]
    /\ (let reports := Extractor.reportsWhile (Extractor.isExtracting w) tr in
        hd_error reports = Some 0%Q
        /\ Extractor.nonDecreasing reports
        /\ (Extractor.handovers tr <> [] -> (last reports 0 == 100)%Q))
    /\ (Extractor.cooperative P ->
        (exists m, Extractor.loadMetadata P file = Some m
                   /\ Js.isFinite
                        (Extractor.durationValue (Extractor.loadedVideo file m))
                      = true) ->
        (exists c, Extractor.canvasRef w = Some c
                   /\ Extractor.context2d c = true) ->
        r = Extractor.Returned tt /\ Extractor.handovers tr <> []).
Proof.
  intros Hfile Hvideo.
  destruct (handleExtractFrames_anatomy P w file v0 Hfile Hvideo)
    as (r & w' & body & Hrun & Htr & Hshape).
  exists r, w', (Extractor.SetIsExtracting true :: Extractor.SetProgress 0 :: body).
  split; [exact Hrun |]. split; [exact Htr |]. split; [reflexivity |].
  split.
  - destruct (handler_reports P file _ r body Hshape) as (k & Hk & Hreports & Hfull).
    cbn [Extractor.reportsWhile]. rewrite Hreports. cbv zeta.
    split; [reflexivity |]. split.
    + apply nonDecreasing_cons.
      * intros b Hb. destruct k as [| k]; [discriminate |].
        cbn in Hb. injection Hb as <-.
        apply progressAt_nonneg; unfold Extractor.FRAME_SIZE; lia.
      * apply progress_nonDecreasing. unfold Extractor.FRAME_SIZE. lia.
    + intros Hne. rewrite (Hfull Hne). vm_compute. reflexivity.
  - intros Hcoop (m & Hload & Hfin) Hcanvas.
    apply (handler_succeeds P file _ r body Hshape Hcoop); [congruence | | exact Hcanvas].
    intros m' Hm'. assert (m' = m) by congruence. subst m'. exact Hfin.
Qed.

Lemma progress_reports_monotone_witness :
  exists r w' tr,
    Extractor.handleExtractFrames Extractor.samplePlatform Extractor.sampleWorld
    = (r, w')
    /\ Extractor.trace w' = tr
    /\ Extractor.nonDecreasing (Extractor.reportsWhile false tr)
    /\ (last (Extractor.reportsWhile false tr) 0 == 100)%Q.
Proof.
  destruct (progress_reports_monotone Extractor.samplePlatform
              Extractor.sampleWorld Extractor.sampleFile
              (Extractor.mkVideo None Js.NotANumber 0 0 0))
    as (r & w' & tr & Hrun & Htr & _ & (_ & Hmono & Hlast) & Hsucc).
  - reflexivity.
  - reflexivity.
  - exists r, w', tr. split; [exact Hrun |]. split; [exact Htr |].
    split; [exact Hmono |]. apply Hlast. apply Hsucc.
    + split; [reflexivity | discriminate].
    + eexists. split; reflexivity.
    + eexists. split; reflexivity.
Defined.

(** C7: a run of [handleExtractFrames] on a selected file hands frames to
    [onFramesExtracted] at most once, and only the complete sequence: 100
    frames, one per sample time, and then no failure is reported.  A run
    that hands nothing over is pending on a seek or has reported the
    failure.  In particular, when the file loads but [extractFrames] has
    no canvas context to draw on, so that it returns zero frames, the run
    reports "No frames were extracted" as a failure and hands nothing
    over. *)
Theorem no_partial_handover (P : Extractor.Platform)
    (w : Extractor.World) (file : Extractor.File)
    (v0 : Extractor.HTMLVideoElement) :
  Extractor.videoFile w = Some file ->
  Extractor.videoRef w = Some v0 ->
  exists r w' tr,
    Extractor.handleExtractFrames P w = (r, w')
    /\ Extractor.trace w' = Extractor.trace w ++ tr
    /\ (forall frames, In frames (Extractor.handovers tr) ->
          Extractor.handovers tr = [frames]
          /\ frames <> []
          /\ List.length frames = 100%nat
          /\ ~ In Extractor.failureToast tr
          /\ exists m c,
               Extractor.loadMetadata P file = Some m
               /\ Extractor.canvasRef w = Some c
               /\ Forall2 (fun i f =>
                     Extractor.toDataURL P
                       (Extractor.atTime (Extractor.loadedVideo file m)
                          (Extractor.sampleTime
                             (Extractor.duration (Extractor.loadedVideo file m)
                              / inject_Z Extractor.FRAME_SIZE) i))
                       (Extractor.width
                          (Extractor.sizedCanvas (Extractor.loadedVideo file m) c))
                       (Extractor.height
                          (Extractor.sizedCanvas (Extractor.loadedVideo file m) c))
                     = Some f)
                    (Extractor.zrange 0 100) frames)
    /\ (Extractor.handovers tr = [] ->
        r = Extractor.Pending \/ In Extractor.failureToast tr)
    /\ (Extractor.loadMetadata P file <> None ->
        Extractor.canvasRef w = None
        \/ (exists c, Extractor.canvasRef w = Some c
                      /\ Extractor.context2d c = false) ->
        (forall w1, Extractor.canvasRef w1 = Extractor.canvasRef w ->
           Extractor.extractFrames P Extractor.FRAME_SIZE w1
           = (Extractor.Returned [], w1))
        /\ r = Extractor.Returned tt
        /\ Extractor.handovers tr = []
        /\ tr = Extractor.SetIsExtracting true :: Extractor.SetProgress 0
                :: Extractor.loadedToast
                :: Extractor.failureReport "No frames were extracted").
Proof.
  intros Hfile Hvideo.
  destruct (handleExtractFrames_anatomy P w file v0 Hfile Hvideo)
    as (r & w' & body & Hrun & Htr & Hshape).
  exists r, w', (Extractor.SetIsExtracting true :: Extractor.SetProgress 0 :: body).
  split; [exact Hrun |]. split; [exact Htr |].
  assert (Hh : Extractor.handovers
                 (Extractor.SetIsExtracting true :: Extractor.SetProgress 0 :: body)
               = Extractor.handovers body) by reflexivity.
  assert (Hin : In Extractor.failureToast body <->
               In Extractor.failureToast
                 (Extractor.SetIsExtracting true :: Extractor.SetProgress 0 :: body)).
  { split; [intros H; right; right; exact H |].
    intros [E | [E | H]]; [discriminate E | discriminate E | exact H]. }
  rewrite Hh.
  destruct (handler_handovers P file _ r body Hshape)
    as [[Hnone Hfail] | (frames & m & c & Hone & Hr & Hok & Hload & Hcan & Hctx & Hlen & Hall)].
  - split; [rewrite Hnone; intros frames []|].
    split.
    + intros _. destruct Hfail as [E | H]; [left; exact E | right].
      now apply Hin.
    + intros Hload Hnc. inversion Hshape; subst; clear Hshape;
        try (exfalso; destruct Hnc as [E | (c1 & E & Hctx1)]; congruence);
        try congruence.
      split; [| repeat split; auto].
      intros w1 Hw1. apply extractFrames_without_canvas.
      rewrite Hw1. exact Hnc.
  - split.
    + intros frames' Hin'. rewrite Hone in Hin'. destruct Hin' as [<- | []].
      split; [exact Hone |].
      split; [intros ->; discriminate Hlen |].
      split; [exact Hlen |].
      split; [intros H; apply Hok; now apply Hin |].
      exists m, c. auto.
    + split; [rewrite Hone; discriminate |].
      intros _ Hnc. exfalso.
      destruct Hnc as [E | (c1 & E & Hctx1)]; congruence.
Qed.

Lemma no_partial_handover_witness :
  exists r w' tr,
    Extractor.handleExtractFrames Extractor.samplePlatform Extractor.sampleWorld
    = (r, w')
    /\ Extractor.trace w' = tr
    /\ (forall frames, In frames (Extractor.handovers tr) ->
          frames <> [] /\ List.length frames = 100%nat).
Proof.
  destruct (no_partial_handover Extractor.samplePlatform
              Extractor.sampleWorld Extractor.sampleFile
              (Extractor.mkVideo None Js.NotANumber 0 0 0))
    as (r & w' & tr & Hrun & Htr & Hsome & _).
  - reflexivity.
  - reflexivity.
  - exists r, w', tr. split; [exact Hrun |]. split; [exact Htr |].
    intros frames Hin. destruct (Hsome frames Hin) as (_ & Hne & Hlen & _).
    split; assumption.
Defined.

(** C8: when the type of the selected file does not start with "video/",
    [handleFileSelect] shows the error toast and nothing else: the stored
    video file, the other React state and both elements are as before. *)
Theorem non_video_file_rejected (files : list Extractor.File)
    (file : Extractor.File) (w : Extractor.World) :
  hd_error files = Some file ->
  String.prefix "video/" (Extractor.type file) = false ->
  exists w',
    Extractor.handleFileSelect files w = (Extractor.Returned tt, w')
    /\ Extractor.videoFile w' = Extractor.videoFile w
    /\ Extractor.reactState w' = Extractor.reactState w
    /\ Extractor.videoRef w' = Extractor.videoRef w
    /\ Extractor.canvasRef w' = Extractor.canvasRef w
    /\ Extractor.trace w'
       = Extractor.trace w
         ++ [Extractor.ToastError "Please select a valid video file"].
Proof.
  intros Hfiles Htype. destruct files as [| f rest]; [discriminate |].
  injection Hfiles as ->. unfold Extractor.handleFileSelect.
  rewrite Htype. cbn [negb]. unfold Extractor.emit.
  eexists. split; [reflexivity |]. repeat split.
Qed.

Lemma non_video_file_rejected_witness :
  exists w',
    Extractor.handleFileSelect [Extractor.mkFile "notes.txt" "text/plain"]
      Extractor.sampleWorld = (Extractor.Returned tt, w')
    /\ Extractor.videoFile w' = Some Extractor.sampleFile.
Proof.
  destruct (non_video_file_rejected
              [Extractor.mkFile "notes.txt" "text/plain"]
              (Extractor.mkFile "notes.txt" "text/plain")
              Extractor.sampleWorld) as (w' & Hrun & Hfile & _).
  - reflexivity.
  - vm_compute. reflexivity.
  - exists w'. split; [exact Hrun | exact Hfile].
Defined.

(** C9: [FRAME_SIZE] is 100 and [handleExtractFrames] samples with it: in
    every run on a selected file that loads, the seeks are the first sample
    times of a division of the duration in 100, [i * (duration / 100)], and
    frames are only handed over after all 100 seeks and are 100.  On a
    cooperative platform with a canvas context that is what happens when
    the duration is finite.  The copy of the index page says 50, not 100. *)
Theorem extraction_uses_100_frames (P : Extractor.Platform)
    (w : Extractor.World) (file : Extractor.File)
    (v0 : Extractor.HTMLVideoElement) (m : Js.real * Z * Z) :
  Extractor.videoFile w = Some file ->
  Extractor.videoRef w = Some v0 ->
  Extractor.loadMetadata P file = Some m ->
  Extractor.FRAME_SIZE = 100
  /\ (exists r w' tr k,
        Extractor.handleExtractFrames P w = (r, w')
        /\ Extractor.trace w' = Extractor.trace w ++ tr
        /\ (k <= 100)%nat
        /\ Extractor.seeks tr
           = map (fun i => inject_Z i
                           * (Extractor.duration (Extractor.loadedVideo file m)
                              / inject_Z 100))%Q
               (Extractor.zrange 0 k)
        /\ (forall frames, In frames (Extractor.handovers tr) ->
              List.length frames = 100%nat /\ k = 100%nat)
        /\ (Extractor.cooperative P ->
            Js.isFinite
              (Extractor.durationValue (Extractor.loadedVideo file m)) = true ->
            (exists c, Extractor.canvasRef w = Some c
                       /\ Extractor.context2d c = true) ->
            k = 100%nat /\ Extractor.handovers tr <> []))
  /\ index 0 "50" Extractor.autoExtractCopy = Some 23%nat
  /\ index 0 "100" Extractor.autoExtractCopy = None.
Proof.
  intros Hfile Hvideo Hload.
  split; [reflexivity |]. split; [| split; vm_compute; reflexivity].
  destruct (handleExtractFrames_anatomy P w file v0 Hfile Hvideo)
    as (r & w' & body & Hrun & Htr & Hshape).
  destruct (handler_seeks P file _ r body m Hshape Hload) as (k & Hk & Hseeks & Hkfull).
  exists r, w', (Extractor.SetIsExtracting true :: Extractor.SetProgress 0 :: body), k.
  split; [exact Hrun |]. split; [exact Htr |]. split; [exact Hk |].
  split; [exact Hseeks |].
  change (Extractor.handovers
            (Extractor.SetIsExtracting true :: Extractor.SetProgress 0 :: body))
    with (Extractor.handovers body).
  split.
  - intros frames Hin.
    assert (Hne : Extractor.handovers body <> []).
    { intros E. rewrite E in Hin. exact Hin. }
    split; [| exact (Hkfull Hne)].
    destruct (handler_handovers P file _ r body Hshape)
      as [[Hnone _] | (fs & _ & _ & Hone & _ & _ & _ & _ & _ & Hlen & _)];
      [contradiction |].
    rewrite Hone in Hin. destruct Hin as [<- | []]. exact Hlen.
  - intros Hcoop Hfin Hcanvas.
    assert (Hl : Extractor.loadMetadata P file <> None) by congruence.
    destruct (handler_succeeds P file _ r body Hshape Hcoop Hl) as [_ Hne];
      [| exact Hcanvas | split; [exact (Hkfull Hne) | exact Hne]].
    intros m' Hm'. assert (m' = m) by congruence. subst m'. exact Hfin.
Qed.

Lemma extraction_uses_100_frames_witness :
  exists r w' tr,
    Extractor.handleExtractFrames Extractor.samplePlatform Extractor.sampleWorld
    = (r, w')
    /\ Extractor.trace w' = tr
    /\ List.length (Extractor.seeks tr) = 100%nat.
Proof.
  destruct (extraction_uses_100_frames Extractor.samplePlatform
              Extractor.sampleWorld Extractor.sampleFile
              (Extractor.mkVideo None Js.NotANumber 0 0 0)
              (Js.Finite 10, 1920, 1080))
    as (_ & (r & w' & tr & k & Hrun & Htr & Hk & Hseeks & _ & Hfull) & _).
  - reflexivity.
  - reflexivity.
  - reflexivity.
  - exists r, w', tr. split; [exact Hrun |]. split; [exact Htr |].
    rewrite Hseeks, length_map, zrange_length.
    apply Hfull.
    + split; [reflexivity | discriminate].
    + reflexivity.
    + eexists. split; reflexivity.
Defined.

(** * Further properties of the zoom viewer *)

Section ViewerRuns.

Import Viewer.

Variable frames : list string.

Lemma run_cons ev evs s :
  run frames (ev :: evs) s = run frames evs (dispatch frames ev s).
Proof. reflexivity. Qed.

Lemma run_app evs1 evs2 s :
  run frames (evs1 ++ evs2) s = run frames evs2 (run frames evs1 s).
Proof. unfold run. apply fold_left_app. Qed.

(** Writing the index a state already has changes nothing. *)
Lemma set_same_index s i :
  currentFrameIndex s = Js.Int i ->
  setCurrentFrameIndex (fun _ => Js.Int i) s = s.
Proof. destruct s; cbn. intros ->. reflexivity. Qed.

Lemma set_index_as_constant f s i :
  currentFrameIndex s = Js.Int i ->
  setCurrentFrameIndex f s = setCurrentFrameIndex (fun _ => f (Js.Int i)) s.
Proof. unfold setCurrentFrameIndex. intros ->. reflexivity. Qed.

Lemma rendered_handle captured s ev :
  frames <> [] ->
  handle frames captured ev s
  = match ev with
    | Wheel deltaY => handleWheel frames deltaY s
    | MouseDown cx cy => handleMouseDown cx cy s
    | MouseMove cx cy => handleMouseMove captured cx cy s
    | MouseUp | MouseLeave => handleMouseUp s
    | KeyDown key => handleKeyPress frames key s
    | FrameSlider v => setCurrentFrameIndex (fun _ => Js.Int v) s
    | ZoomSlider v => setZoomLevel v s
    | ClickPlay => toggleAutoPlay s
    | ClickReset => reset s
    | Tick => autoPlayTick frames s
    end.
Proof.
  intros Hne.
  destruct (render_of_nonempty frames s (length_pos_of_nonempty frames Hne))
    as (src & counter & Hr).
  destruct ev; cbn [handle]; rewrite ?Hr; reflexivity.
Qed.

Lemma rendered_dispatch s ev :
  frames <> [] ->
  dispatch frames ev s
  = match ev with
    | Wheel deltaY => handleWheel frames deltaY s
    | MouseDown cx cy => handleMouseDown cx cy s
    | MouseMove cx cy => handleMouseMove s cx cy s
    | MouseUp | MouseLeave => handleMouseUp s
    | KeyDown key => handleKeyPress frames key s
    | FrameSlider v => setCurrentFrameIndex (fun _ => Js.Int v) s
    | ZoomSlider v => setZoomLevel v s
    | ClickPlay => toggleAutoPlay s
    | ClickReset => reset s
    | Tick => autoPlayTick frames s
    end.
Proof.
  intros Hne. unfold dispatch. rewrite rendered_handle by exact Hne.
  destruct ev; reflexivity.
Qed.


(** One step to the right, by the right arrow; one to the left, by the
    left arrow; on an index in range. *)
Lemma arrow_right_state s i :
  frames <> [] -> 0 <= i < Z.of_nat (List.length frames) ->
  currentFrameIndex s = Js.Int i ->
  handleKeyPress frames "ArrowRight" s
  = setCurrentFrameIndex
      (fun _ => Js.Int ((i + 1) mod Z.of_nat (List.length frames))) s.
Proof.
  intros Hne Hi E.
  pose proof (arrow_right_index frames s i (length_pos_of_nonempty frames Hne) Hi E)
    as Hidx.
  unfold handleKeyPress in *. cbn [String.eqb Ascii.eqb Bool.eqb] in *.
  cbn in Hidx |- *. unfold setCurrentFrameIndex in *. cbn in Hidx.
  now rewrite Hidx.
Qed.

Lemma arrow_left_state s i :
  frames <> [] -> 0 <= i < Z.of_nat (List.length frames) ->
  currentFrameIndex s = Js.Int i ->
  handleKeyPress frames "ArrowLeft" s
  = setCurrentFrameIndex
      (fun _ => Js.Int ((i - 1) mod Z.of_nat (List.length frames))) s.
Proof.
  intros Hne Hi E.
  pose proof (arrow_left_index frames s i (length_pos_of_nonempty frames Hne) Hi E)
    as Hidx.
  unfold handleKeyPress in *. cbn in Hidx |- *.
  unfold setCurrentFrameIndex in *. cbn in Hidx.
  now rewrite Hidx.
Qed.

End ViewerRuns.

(** X1: on a non-empty frame sequence and an index [i] in range, [k]
    downward wheel events in a row put the index at [min (len-1) (i + k)]
    and [k] upward ones (zero delta included) at [max 0 (i - k)]; nothing
    else in the state changes. *)
Theorem wheel_scrolls_accumulate (frames : list string)
    (s : Viewer.ViewerState) (i : Z) (k : nat) (deltaY : Q) :
  let n := Z.of_nat (List.length frames) in
  frames <> [] ->
  Viewer.currentFrameIndex s = Js.Int i ->
  0 <= i < n ->
  Viewer.run frames (repeat (Viewer.Wheel deltaY) k) s
  = Viewer.setCurrentFrameIndex
      (fun _ => Js.Int (if Js.gtb deltaY 0
                        then Z.min (n - 1) (i + Z.of_nat k)
                        else Z.max 0 (i - Z.of_nat k))) s.
Proof.
  intros n Hne. revert s i.
  induction k as [| k IH]; intros s i E Hi.
  - cbn [repeat Viewer.run fold_left]. symmetry.
    replace (if Js.gtb deltaY 0 then Z.min (n - 1) (i + Z.of_nat 0)
             else Z.max 0 (i - Z.of_nat 0)) with i
      by (destruct (Js.gtb deltaY 0); lia).
    now apply set_same_index.
  - cbn [repeat]. rewrite run_cons, rendered_dispatch by exact Hne.
    unfold Viewer.handleWheel.
    rewrite (set_index_as_constant _ s i E).
    set (j := if Js.gtb deltaY 0 then Z.min (n - 1) (i + 1) else Z.max 0 (i - 1)).
    assert (Ej : Js.max (Js.Int 0)
                   (Js.min (Js.sub (Viewer.len frames) (Js.Int 1))
                      (Js.add (Js.Int i)
                         (if Js.gtb deltaY 0 then Js.Int 1 else Js.Int (-1))))
                 = Js.Int j).
    { unfold Viewer.len, j. fold n. destruct (Js.gtb deltaY 0); cbn; f_equal; lia. }
    cbv zeta. rewrite Ej.
    rewrite (IH _ j) by (try reflexivity; unfold j; destruct (Js.gtb deltaY 0); lia).
    unfold Viewer.setCurrentFrameIndex. cbn. do 2 f_equal.
    unfold j. destruct (Js.gtb deltaY 0); lia.
Qed.

(** Three downward scrolls from index 0 of ten frames reach index 3; five
    more from index 7 stop at index 9. *)
Lemma wheel_scrolls_accumulate_witness :
  let frames := ["0"; "1"; "2"; "3"; "4"; "5"; "6"; "7"; "8"; "9"]%string in
  Viewer.currentFrameIndex
    (Viewer.run frames (repeat (Viewer.Wheel 120) 3) Viewer.initialState)
  = Js.Int 3.
Proof.
  cbv zeta.
  rewrite (wheel_scrolls_accumulate
             ["0"; "1"; "2"; "3"; "4"; "5"; "6"; "7"; "8"; "9"]%string
             Viewer.initialState 0 3 120).
  - reflexivity.
  - discriminate.
  - reflexivity.
  - cbn. lia.
Defined.

(** X2: on a non-empty frame sequence and a state with its index in range,
    the left arrow undoes the right arrow and the right arrow undoes the
    left arrow: the state is back as it was, also across the ends. *)
Theorem arrow_keys_are_inverse (frames : list string) (s : Viewer.ViewerState) :
  frames <> [] ->
  Viewer.index_in_range frames s ->
  Viewer.run frames [Viewer.KeyDown "ArrowRight"; Viewer.KeyDown "ArrowLeft"] s = s
  /\ Viewer.run frames [Viewer.KeyDown "ArrowLeft"; Viewer.KeyDown "ArrowRight"] s = s.
Proof.
  intros Hne (i & E & Hi).
  pose proof (length_pos_of_nonempty frames Hne) as Hn.
  set (n := Z.of_nat (List.length frames)) in *.
  split.
  - rewrite !run_cons. cbn [Viewer.run fold_left]; unfold Viewer.dispatch; cbn [Viewer.handle].
    rewrite (arrow_right_state frames s i Hne Hi E).
    rewrite (arrow_left_state frames _ ((i + 1) mod n) Hne);
      [| apply Z.mod_pos_bound; lia | reflexivity].
    fold n. unfold Viewer.setCurrentFrameIndex at 1. cbn.
    rewrite Zminus_mod_idemp_l.
    replace (i + 1 - 1) with i by lia. rewrite Z.mod_small by lia.
    now apply set_same_index.
  - rewrite !run_cons. cbn [Viewer.run fold_left]; unfold Viewer.dispatch; cbn [Viewer.handle].
    rewrite (arrow_left_state frames s i Hne Hi E).
    rewrite (arrow_right_state frames _ ((i - 1) mod n) Hne);
      [| apply Z.mod_pos_bound; lia | reflexivity].
    fold n. unfold Viewer.setCurrentFrameIndex at 1. cbn.
    rewrite Zplus_mod_idemp_l.
    replace (i - 1 + 1) with i by lia. rewrite Z.mod_small by lia.
    now apply set_same_index.
Qed.

Lemma arrow_keys_are_inverse_witness :
  let frames := ["a"; "b"; "c"]%string in
  Viewer.run frames [Viewer.KeyDown "ArrowLeft"; Viewer.KeyDown "ArrowRight"]
    Viewer.initialState = Viewer.initialState.
Proof.
  apply (arrow_keys_are_inverse ["a"; "b"; "c"]%string Viewer.initialState).
  - discriminate.
  - exists 0. split; [reflexivity | cbn; lia].
Defined.

(** X3: on a non-empty frame sequence and an index [i] in range, [k]
    presses of the right arrow put the index at [(i + k) mod len] and [k]
    presses of the left arrow at [(i - k) mod len], and change nothing
    else; [len] presses of either key give the state back. *)
Theorem arrow_presses_accumulate (frames : list string)
    (s : Viewer.ViewerState) (i : Z) (k : nat) :
  let n := Z.of_nat (List.length frames) in
  frames <> [] ->
  Viewer.currentFrameIndex s = Js.Int i ->
  0 <= i < n ->
  Viewer.run frames (repeat (Viewer.KeyDown "ArrowRight") k) s
  = Viewer.setCurrentFrameIndex (fun _ => Js.Int ((i + Z.of_nat k) mod n)) s
  /\ Viewer.run frames (repeat (Viewer.KeyDown "ArrowLeft") k) s
     = Viewer.setCurrentFrameIndex (fun _ => Js.Int ((i - Z.of_nat k) mod n)) s
  /\ Viewer.run frames
       (repeat (Viewer.KeyDown "ArrowRight") (List.length frames)) s = s
  /\ Viewer.run frames
       (repeat (Viewer.KeyDown "ArrowLeft") (List.length frames)) s = s.
Proof.
  intros n Hne E Hi.
  pose proof (length_pos_of_nonempty frames Hne) as Hn. fold n in Hn.
  assert (Hright : forall k s i,
    Viewer.currentFrameIndex s = Js.Int i -> 0 <= i < n ->
    Viewer.run frames (repeat (Viewer.KeyDown "ArrowRight") k) s
    = Viewer.setCurrentFrameIndex (fun _ => Js.Int ((i + Z.of_nat k) mod n)) s).
  { clear s i E Hi k. induction k as [| k IH]; intros s i E Hi.
    - cbn [repeat Viewer.run fold_left]. symmetry.
      rewrite Z.add_0_r, Z.mod_small by lia. now apply set_same_index.
    - cbn [repeat]. rewrite run_cons. unfold Viewer.dispatch; cbn [Viewer.handle].
      rewrite (arrow_right_state frames s i Hne Hi E). fold n.
      rewrite (IH _ ((i + 1) mod n));
        [| reflexivity | apply Z.mod_pos_bound; lia].
      unfold Viewer.setCurrentFrameIndex. cbn. do 2 f_equal.
      rewrite Zplus_mod_idemp_l. f_equal. lia. }
  assert (Hleft : forall k s i,
    Viewer.currentFrameIndex s = Js.Int i -> 0 <= i < n ->
    Viewer.run frames (repeat (Viewer.KeyDown "ArrowLeft") k) s
    = Viewer.setCurrentFrameIndex (fun _ => Js.Int ((i - Z.of_nat k) mod n)) s).
  { clear s i E Hi k Hright. induction k as [| k IH]; intros s i E Hi.
    - cbn [repeat Viewer.run fold_left]. symmetry.
      rewrite Z.sub_0_r, Z.mod_small by lia. now apply set_same_index.
    - cbn [repeat]. rewrite run_cons. unfold Viewer.dispatch; cbn [Viewer.handle].
      rewrite (arrow_left_state frames s i Hne Hi E). fold n.
      rewrite (IH _ ((i - 1) mod n));
        [| reflexivity | apply Z.mod_pos_bound; lia].
      unfold Viewer.setCurrentFrameIndex. cbn. do 2 f_equal.
      rewrite Zminus_mod_idemp_l. f_equal. lia. }
  split; [now apply Hright |]. split; [now apply Hleft |]. split.
  - rewrite (Hright _ s i E Hi). fold n.
    replace (i + n) with (i + 1 * n) by lia.
    rewrite Z.mod_add, Z.mod_small by lia. now apply set_same_index.
  - rewrite (Hleft _ s i E Hi). fold n.
    replace (i - n) with (i + (-1) * n) by lia.
    rewrite Z.mod_add, Z.mod_small by lia. now apply set_same_index.
Qed.

Lemma arrow_presses_accumulate_witness :
  let frames := ["a"; "b"; "c"; "d"; "e"]%string in
  Viewer.currentFrameIndex
    (Viewer.run frames (repeat (Viewer.KeyDown "ArrowRight") 7) Viewer.initialState)
  = Js.Int 2.
Proof.
  cbv zeta.
  destruct (arrow_presses_accumulate ["a"; "b"; "c"; "d"; "e"]%string
              Viewer.initialState 0 7) as (Hr & _).
  - discriminate.
  - reflexivity.
  - cbn. lia.
  - rewrite Hr. reflexivity.
Defined.

(** X4: while auto-play is on, on a non-empty frame sequence and an index
    [i] in range, [k] timer ticks put the index at [(i + k) mod len] and
    change nothing else, so auto-play is still on and a whole lap gives the
    state back; while auto-play is off, or with no frames, ticks change
    nothing. *)
Theorem ticks_accumulate (frames : list string)
    (s : Viewer.ViewerState) (i : Z) (k : nat) :
  let n := Z.of_nat (List.length frames) in
  (Viewer.isAutoPlaying s = false \/ frames = [] ->
   Viewer.run frames (repeat Viewer.Tick k) s = s)
  /\ (Viewer.isAutoPlaying s = true -> frames <> [] ->
      Viewer.currentFrameIndex s = Js.Int i -> 0 <= i < n ->
      Viewer.run frames (repeat Viewer.Tick k) s
      = Viewer.setCurrentFrameIndex (fun _ => Js.Int ((i + Z.of_nat k) mod n)) s
      /\ Viewer.run frames (repeat Viewer.Tick (List.length frames)) s = s).
Proof.
  intros n. split.
  - intros Hoff. induction k as [| k IH]; [reflexivity |].
    cbn [repeat]. rewrite run_cons. unfold Viewer.dispatch; cbn [Viewer.handle].
    unfold Viewer.autoPlayTick.
    destruct Hoff as [-> | ->]; [exact IH |].
    cbn [List.length Z.of_nat Z.ltb Z.compare]. rewrite andb_false_r. exact IH.
  - intros Hon Hne E Hi.
    pose proof (length_pos_of_nonempty frames Hne) as Hn. fold n in Hn.
    assert (Hstep : forall s i,
      Viewer.isAutoPlaying s = true ->
      Viewer.currentFrameIndex s = Js.Int i -> 0 <= i < n ->
      Viewer.autoPlayTick frames s
      = Viewer.setCurrentFrameIndex (fun _ => Js.Int ((i + 1) mod n)) s).
    { clear. intros s i Hon E Hi. unfold Viewer.autoPlayTick, Viewer.autoPlayStep.
      rewrite Hon. fold n. destruct (Z.ltb_spec 0 n); [| lia]. cbn [andb].
      rewrite (set_index_as_constant _ s i E). unfold Viewer.len. fold n. cbn.
      destruct (Z.eqb_spec n 0); [lia |].
      rewrite Z.rem_mod_nonneg by lia. reflexivity. }
    assert (Hrun : forall k s i,
      Viewer.isAutoPlaying s = true ->
      Viewer.currentFrameIndex s = Js.Int i -> 0 <= i < n ->
      Viewer.run frames (repeat Viewer.Tick k) s
      = Viewer.setCurrentFrameIndex (fun _ => Js.Int ((i + Z.of_nat k) mod n)) s).
    { clear s i Hon E Hi k. induction k as [| k IH]; intros s i Hon E Hi.
      - cbn [repeat Viewer.run fold_left]. symmetry.
        rewrite Z.add_0_r, Z.mod_small by lia. now apply set_same_index.
      - cbn [repeat]. rewrite run_cons. unfold Viewer.dispatch; cbn [Viewer.handle].
        rewrite (Hstep s i Hon E Hi).
        rewrite (IH _ ((i + 1) mod n));
          [| exact Hon | reflexivity | apply Z.mod_pos_bound; lia].
        unfold Viewer.setCurrentFrameIndex. cbn. do 2 f_equal.
        rewrite Zplus_mod_idemp_l. f_equal. lia. }
    split; [now apply Hrun |].
    rewrite (Hrun _ s i Hon E Hi). fold n.
    replace (i + n) with (i + 1 * n) by lia.
    rewrite Z.mod_add, Z.mod_small by lia. now apply set_same_index.
Qed.

(** Space, then seven ticks over five frames: index 2, still playing. *)
Lemma ticks_accumulate_witness :
  let frames := ["a"; "b"; "c"; "d"; "e"]%string in
  let s := Viewer.run frames (Viewer.KeyDown " " :: repeat Viewer.Tick 7)
             Viewer.initialState in
  Viewer.currentFrameIndex s = Js.Int 2 /\ Viewer.isAutoPlaying s = true.
Proof.
  cbv zeta. rewrite run_cons.
  destruct (ticks_accumulate ["a"; "b"; "c"; "d"; "e"]%string
              (Viewer.dispatch ["a"; "b"; "c"; "d"; "e"]%string
                 (Viewer.KeyDown " ") Viewer.initialState) 0 7)
    as (_ & Hon).
  destruct Hon as (Hrun & _).
  - reflexivity.
  - discriminate.
  - reflexivity.
  - cbn. lia.
  - rewrite Hrun. split; reflexivity.
Defined.

Lemma last_cons_default {A} (a : A) (l : list A) (d : A) :
  last (a :: l) d = last l a.
Proof.
  revert a d. induction l as [| b l IH]; intros a d; [reflexivity |].
  change (last (a :: b :: l) d) with (last (b :: l) d).
  rewrite !IH. reflexivity.
Qed.

(** X5: a drag on a rendered viewer, after a pointer press at [p0] that
    the component has rendered.  When the component renders between any
    two of the moves that follow, the pan offset ends as the one before
    the press plus the displacement from [p0] to the last position,
    whatever the path.  When the moves are all handled before the next
    render, each of them adds its own distance from [p0], the position
    the handler captured, so the pan offset ends as the one before the
    press plus the sum of these distances.  Moves handled before the press
    itself is rendered are ignored.  In all three cases the last recorded
    position is the last position, the drag is on, and index, zoom and
    auto-play are untouched. *)
Theorem drag_pans_per_render (frames : list string)
    (s : Viewer.ViewerState) (p0 : Viewer.point) (path : list Viewer.point) :
  frames <> [] ->
  let press := Viewer.MouseDown (Viewer.x p0) (Viewer.y p0) in
  let pressed := Viewer.dispatch frames press s in
  let p := last path p0 in
  let same (s' : Viewer.ViewerState) :=
    Viewer.lastMousePos s' = p
    /\ Viewer.isDragging s' = true
    /\ Viewer.currentFrameIndex s' = Viewer.currentFrameIndex s
    /\ Viewer.zoomLevel s' = Viewer.zoomLevel s
    /\ Viewer.isAutoPlaying s' = Viewer.isAutoPlaying s in
  (let s' := Viewer.run frames (Viewer.moves path) pressed in
   (Viewer.x (Viewer.panPosition s')
    == Viewer.x (Viewer.panPosition s) + (Viewer.x p - Viewer.x p0))%Q
   /\ (Viewer.y (Viewer.panPosition s')
       == Viewer.y (Viewer.panPosition s) + (Viewer.y p - Viewer.y p0))%Q
   /\ same s')
  /\ (let s' := Viewer.batch frames (Viewer.moves path) pressed in
      (Viewer.x (Viewer.panPosition s')
       == Viewer.x (Viewer.panPosition s)
          + fold_right Qplus 0
              (map (fun q => Viewer.x q - Viewer.x p0) path))%Q
      /\ (Viewer.y (Viewer.panPosition s')
          == Viewer.y (Viewer.panPosition s)
             + fold_right Qplus 0
                 (map (fun q => Viewer.y q - Viewer.y p0) path))%Q
      /\ same s')
  /\ (Viewer.isDragging s = false ->
      let s' := Viewer.batch frames (press :: Viewer.moves path) s in
      Viewer.panPosition s' = Viewer.panPosition s
      /\ Viewer.lastMousePos s' = p0
      /\ Viewer.isDragging s' = true).
Proof.
  intros Hne.
  assert (Hmoves : forall path s,
    Viewer.isDragging s = true ->
    let s' := Viewer.run frames (Viewer.moves path) s in
    let p := last path (Viewer.lastMousePos s) in
    (Viewer.x (Viewer.panPosition s')
     == Viewer.x (Viewer.panPosition s)
        + (Viewer.x p - Viewer.x (Viewer.lastMousePos s)))%Q
    /\ (Viewer.y (Viewer.panPosition s')
        == Viewer.y (Viewer.panPosition s)
           + (Viewer.y p - Viewer.y (Viewer.lastMousePos s)))%Q
    /\ Viewer.lastMousePos s' = p
    /\ Viewer.isDragging s' = true
    /\ Viewer.currentFrameIndex s' = Viewer.currentFrameIndex s
    /\ Viewer.zoomLevel s' = Viewer.zoomLevel s
    /\ Viewer.isAutoPlaying s' = Viewer.isAutoPlaying s).
  { clear s p0 path. induction path as [| q path IH]; intros s Hdrag.
    - cbn. repeat split; auto; ring.
    - cbv zeta. unfold Viewer.moves. cbn [map]. fold (Viewer.moves path).
      rewrite run_cons, rendered_dispatch by exact Hne.
      rewrite last_cons_default.
      set (s1 := Viewer.handleMouseMove s (Viewer.x q) (Viewer.y q) s).
      assert (E1 : s1 = Viewer.setLastMousePos (Viewer.mkPoint (Viewer.x q) (Viewer.y q))
                          (Viewer.setPanPosition
                             (fun prev =>
                                Viewer.mkPoint
                                  (Viewer.x prev
                                   + (Viewer.x q - Viewer.x (Viewer.lastMousePos s)))%Q
                                  (Viewer.y prev
                                   + (Viewer.y q - Viewer.y (Viewer.lastMousePos s)))%Q)
                             s)).
      { unfold s1, Viewer.handleMouseMove. rewrite Hdrag. reflexivity. }
      destruct (IH s1) as (Hx & Hy & Hlast & Hd & Hi & Hz & Ha).
      { rewrite E1. exact Hdrag. }
      assert (Eq : Viewer.lastMousePos s1 = q).
      { rewrite E1. destruct q; reflexivity. }
      rewrite Eq in Hx, Hy, Hlast.
      rewrite Hx, Hy, Hlast, Hd, Hi, Hz, Ha, E1. cbn.
      repeat split; auto; ring. }
  assert (Hbatch : forall captured path st,
    Viewer.isDragging captured = true ->
    let s' := fold_left (fun st ev => Viewer.handle frames captured ev st)
                (Viewer.moves path) st in
    (Viewer.x (Viewer.panPosition s')
     == Viewer.x (Viewer.panPosition st)
        + fold_right Qplus 0
            (map (fun q => Viewer.x q - Viewer.x (Viewer.lastMousePos captured))
               path))%Q
    /\ (Viewer.y (Viewer.panPosition s')
        == Viewer.y (Viewer.panPosition st)
           + fold_right Qplus 0
               (map (fun q => Viewer.y q - Viewer.y (Viewer.lastMousePos captured))
                  path))%Q
    /\ Viewer.lastMousePos s' = last path (Viewer.lastMousePos st)
    /\ Viewer.isDragging s' = Viewer.isDragging st
    /\ Viewer.currentFrameIndex s' = Viewer.currentFrameIndex st
    /\ Viewer.zoomLevel s' = Viewer.zoomLevel st
    /\ Viewer.isAutoPlaying s' = Viewer.isAutoPlaying st).
  { clear s p0 path Hmoves. intros captured.
    induction path as [| q path IH]; intros st Hdrag.
    - cbn. repeat split; auto; ring.
    - cbv zeta. unfold Viewer.moves. cbn [map fold_left]. fold (Viewer.moves path).
      rewrite rendered_handle by exact Hne.
      rewrite last_cons_default.
      set (s1 := Viewer.handleMouseMove captured (Viewer.x q) (Viewer.y q) st).
      assert (E1 : s1 = Viewer.setLastMousePos (Viewer.mkPoint (Viewer.x q) (Viewer.y q))
                          (Viewer.setPanPosition
                             (fun prev =>
                                Viewer.mkPoint
                                  (Viewer.x prev
                                   + (Viewer.x q
                                      - Viewer.x (Viewer.lastMousePos captured)))%Q
                                  (Viewer.y prev
                                   + (Viewer.y q
                                      - Viewer.y (Viewer.lastMousePos captured)))%Q)
                             st)).
      { unfold s1, Viewer.handleMouseMove. rewrite Hdrag. reflexivity. }
      destruct (IH s1 Hdrag) as (Hx & Hy & Hlast & Hd & Hi & Hz & Ha).
      assert (Eq : Viewer.lastMousePos s1 = q).
      { rewrite E1. destruct q; reflexivity. }
      rewrite Eq in Hlast.
      rewrite Hx, Hy, Hlast, Hd, Hi, Hz, Ha, E1. cbn.
      repeat split; auto; ring. }
  assert (Hidle : forall captured path st,
    Viewer.isDragging captured = false ->
    fold_left (fun st ev => Viewer.handle frames captured ev st)
      (Viewer.moves path) st = st).
  { clear s p0 path Hmoves Hbatch. intros captured.
    induction path as [| q path IH]; intros st Hd; [reflexivity |].
    unfold Viewer.moves. cbn [map fold_left]. fold (Viewer.moves path).
    rewrite rendered_handle by exact Hne.
    unfold Viewer.handleMouseMove. rewrite Hd. cbn [negb]. now apply IH. }
  cbv zeta.
  assert (E0 : Viewer.lastMousePos
                 (Viewer.handleMouseDown (Viewer.x p0) (Viewer.y p0) s) = p0).
  { destruct p0; reflexivity. }
  rewrite rendered_dispatch by exact Hne.
  split; [| split].
  - destruct (Hmoves path
                (Viewer.handleMouseDown (Viewer.x p0) (Viewer.y p0) s) eq_refl)
      as (Hx & Hy & Hlast & Hd & Hi & Hz & Ha).
    rewrite E0 in Hx, Hy, Hlast.
    repeat split; assumption.
  - unfold Viewer.batch.
    destruct (Hbatch (Viewer.handleMouseDown (Viewer.x p0) (Viewer.y p0) s)
                path (Viewer.handleMouseDown (Viewer.x p0) (Viewer.y p0) s)
                eq_refl)
      as (Hx & Hy & Hlast & Hd & Hi & Hz & Ha).
    rewrite E0 in Hx, Hy, Hlast.
    repeat split; assumption.
  - intros Hoff. unfold Viewer.batch. cbn [fold_left].
    rewrite rendered_handle by exact Hne.
    rewrite Hidle by exact Hoff.
    repeat split. exact E0.
Qed.

(** A press at (10, 10), then moves to (30, 5) and to (14, 17): with a
    render in between the pan offset ends at (4, 7); without, at (24, 2). *)
Lemma drag_pans_per_render_witness :
  let frames := ["a"; "b"]%string in
  let pressed := Viewer.dispatch frames (Viewer.MouseDown 10 10)
                   Viewer.initialState in
  let path := [Viewer.MouseMove 30 5; Viewer.MouseMove 14 17] in
  (Viewer.x (Viewer.panPosition (Viewer.run frames path pressed)) == 4)%Q
  /\ (Viewer.y (Viewer.panPosition (Viewer.run frames path pressed)) == 7)%Q
  /\ (Viewer.x (Viewer.panPosition (Viewer.batch frames path pressed)) == 24)%Q
  /\ (Viewer.y (Viewer.panPosition (Viewer.batch frames path pressed)) == 2)%Q.
Proof.
  destruct (drag_pans_per_render ["a"; "b"]%string Viewer.initialState
              (Viewer.mkPoint 10 10)
              [Viewer.mkPoint 30 5; Viewer.mkPoint 14 17])
    as ((Hx & Hy & _) & (Hbx & Hby & _) & _).
  - discriminate.
  - cbv zeta in Hx, Hy, Hbx, Hby.
    split; [rewrite Hx; reflexivity |].
    split; [rewrite Hy; reflexivity |].
    split; [rewrite Hbx | rewrite Hby]; reflexivity.
Defined.


(** X7: reset.  From any state, the [r] key (with or without frames) and
    the reset button (when rendered) give zoom 1, pan (0, 0), index 0 and
    auto-play off, whatever these were, a NaN index included; the drag
    flag and the last pointer position are left as they are; a second
    reset changes nothing. *)
Theorem reset_restores_view (frames : list string) (s : Viewer.ViewerState) :
  let s' := Viewer.dispatch frames (Viewer.KeyDown "r") s in
  Viewer.currentFrameIndex s' = Js.Int 0
  /\ Viewer.zoomLevel s' = 1%Q
  /\ Viewer.panPosition s' = Viewer.mkPoint 0 0
  /\ Viewer.isAutoPlaying s' = false
  /\ Viewer.isDragging s' = Viewer.isDragging s
  /\ Viewer.lastMousePos s' = Viewer.lastMousePos s
  /\ Viewer.dispatch frames (Viewer.KeyDown "r") s' = s'
  /\ (frames <> [] -> Viewer.dispatch frames Viewer.ClickReset s = s')
  /\ (Viewer.isDragging s = false ->
      Viewer.lastMousePos s = Viewer.mkPoint 0 0 -> s' = Viewer.initialState).
Proof.
  cbv zeta.
  change (Viewer.dispatch frames (Viewer.KeyDown "r") s) with (Viewer.reset s).
  repeat split.
  - intros Hne. now rewrite rendered_dispatch.
  - intros Hd Hl. destruct s; cbn in *. subst. reflexivity.
Qed.

Lemma reset_restores_view_witness :
  let frames := ["a"; "b"; "c"]%string in
  Viewer.dispatch frames Viewer.ClickReset
    (Viewer.run frames [Viewer.Wheel 1; Viewer.ZoomSlider 3; Viewer.KeyDown " "]
       Viewer.initialState)
  = Viewer.initialState.
Proof.
  cbv zeta.
  destruct (reset_restores_view ["a"; "b"; "c"]%string
              (Viewer.run ["a"; "b"; "c"]%string
                 [Viewer.Wheel 1; Viewer.ZoomSlider 3; Viewer.KeyDown " "]
                 Viewer.initialState))
    as (_ & _ & _ & _ & _ & _ & _ & Hbutton & Hinit).
  rewrite Hbutton by discriminate. apply Hinit; reflexivity.
Defined.


Lemma within_invariants (n : nat) (frames : list string)
    (s : Viewer.ViewerState) :
  n <> 0%nat -> Viewer.reachableWithin n frames s -> Viewer.invariants frames s.
Proof.
  intros Hn Hreach. pose proof (within_length n frames s Hreach) as Hlen.
  induction Hreach as [frames _ | frames captured s ev _ _ Hs IH Hev
                       | frames frames' s Hlen' Hs IH].
  - split; [exists 0; split; [reflexivity | lia] |].
    unfold Viewer.zoom_in_range; cbn. split; discriminate.
  - apply handle_preserves; auto. lia.
  - apply within_length in Hs.
    destruct (IH Hs) as [(i & E & Hi) Hz]. split; [| exact Hz].
    exists i. split; [exact E | lia].
Qed.

(** X8: for a viewer that, since its mount, has only held frame sequences
    of one non-zero length (for one, a viewer mounted on a non-empty
    sequence that has not been replaced), in every state it can reach the
    image shown is the frame at the current index, which exists, and the
    counter shows a number from 1 to the number of frames: such a viewer
    never reads past its sequence. *)
Theorem rendered_frame_exists (n : nat) (frames : list string)
    (s : Viewer.ViewerState) :
  n <> 0%nat ->
  Viewer.reachableWithin n frames s ->
  exists i frame,
    Viewer.currentFrameIndex s = Js.Int i
    /\ nth_error frames (Z.to_nat i) = Some frame
    /\ Viewer.render frames s = Viewer.Image (Some frame) (Js.Int (i + 1))
    /\ 1 <= i + 1 <= Z.of_nat (List.length frames).
Proof.
  intros Hn Hreach.
  pose proof (within_length n frames s Hreach) as Hlen.
  destruct (within_invariants n frames s Hn Hreach) as [(i & E & Hi) _].
  destruct (nth_error frames (Z.to_nat i)) as [frame |] eqn:Hnth.
  - exists i, frame. repeat split; try lia; auto.
    unfold Viewer.render. destruct (Z.eqb_spec (Z.of_nat (List.length frames)) 0);
      [lia |].
    rewrite E. destruct (Z.ltb_spec i 0); [lia |]. rewrite Hnth. reflexivity.
  - apply nth_error_None in Hnth. lia.
Qed.

Lemma rendered_frame_exists_witness :
  let frames := ["f0"; "f1"; "f2"]%string in
  exists i frame,
    Viewer.currentFrameIndex
      (Viewer.dispatch frames (Viewer.KeyDown "ArrowLeft") Viewer.initialState)
    = Js.Int i
    /\ nth_error frames (Z.to_nat i) = Some frame.
Proof.
  cbv zeta.
  destruct (rendered_frame_exists 3 ["f0"; "f1"; "f2"]%string
              (Viewer.dispatch ["f0"; "f1"; "f2"]%string
                 (Viewer.KeyDown "ArrowLeft") Viewer.initialState))
    as (i & frame & E & Hnth & _).
  - discriminate.
  - apply Viewer.within_event;
      [apply Viewer.within_mount; reflexivity
      | apply Viewer.within_mount; reflexivity | exact I].
  - exists i, frame. split; assumption.
Defined.

(** X9: in every reachable state, with or without frames, the zoom level
    is within [0.5, 5]; it is therefore not zero, and the translation the
    style asks for, [panPosition / zoomLevel] under [scale(zoomLevel)],
    moves the image on screen by exactly [panPosition]: a drag moves the
    image by the distance the pointer travels, whatever the zoom. *)
Theorem pan_is_screen_distance (frames : list string) (s : Viewer.ViewerState) :
  Viewer.reachable frames s ->
  Viewer.zoom_in_range s
  /\ (Viewer.x (Viewer.screenOffset s) == Viewer.x (Viewer.panPosition s))%Q
  /\ (Viewer.y (Viewer.screenOffset s) == Viewer.y (Viewer.panPosition s))%Q.
Proof.
  intros Hreach.
  assert (Hzoom : Viewer.zoom_in_range s).
  { induction Hreach as [frames | frames captured s ev _ _ _ IH Hev
                         | frames frames' s _ IH].
    - unfold Viewer.zoom_in_range; cbn. split; discriminate.
    - assert (Hreset : Viewer.zoom_in_range (Viewer.reset s)).
      { unfold Viewer.zoom_in_range; cbn. split; discriminate. }
      destruct ev; cbn [Viewer.handle];
        try (destruct (Viewer.render frames s); [exact IH |]);
        try exact IH; try exact Hreset.
      + unfold Viewer.handleMouseMove.
        destruct (negb (Viewer.isDragging captured)); exact IH.
      + rewrite key_press_cases.
        destruct (String.eqb key "ArrowLeft"); [exact IH |].
        destruct (String.eqb key "ArrowRight"); [exact IH |].
        destruct (String.eqb key " "); [exact IH |].
        destruct (String.eqb key "r"); [exact Hreset | exact IH].
      + exact Hev.
      + unfold Viewer.autoPlayTick.
        destruct (Viewer.isAutoPlaying s && _); exact IH.
    - exact IH. }
  split; [exact Hzoom |].
  destruct Hzoom as [Hlo _].
  assert (Hnz : ~ (Viewer.zoomLevel s == 0)%Q).
  { intros E. rewrite E in Hlo. apply Hlo. reflexivity. }
  unfold Viewer.screenOffset, Viewer.translateArgs. cbn [Viewer.x Viewer.y].
  split; field; exact Hnz.
Qed.

(** Zoomed to 2.5 and dragged by (8, -3): the image moves by (8, -3). *)
Lemma pan_is_screen_distance_witness :
  let frames := ["a"; "b"]%string in
  let s := Viewer.run frames
             [Viewer.ZoomSlider (25 # 10); Viewer.MouseDown 0 0;
              Viewer.MouseMove 8 (-3)] Viewer.initialState in
  (Viewer.x (Viewer.screenOffset s) == 8)%Q
  /\ (Viewer.y (Viewer.screenOffset s) == -3)%Q.
Proof.
  cbv zeta.
  destruct (pan_is_screen_distance ["a"; "b"]%string
              (Viewer.run ["a"; "b"]%string
                 [Viewer.ZoomSlider (25 # 10); Viewer.MouseDown 0 0;
                  Viewer.MouseMove 8 (-3)] Viewer.initialState))
    as (_ & Hx & Hy).
  - assert (H1 : Viewer.reachable ["a"; "b"]%string
                   (Viewer.dispatch ["a"; "b"]%string
                      (Viewer.ZoomSlider (25 # 10)) Viewer.initialState)).
    { apply Viewer.reachable_event;
        [apply Viewer.reachable_mount | apply Viewer.reachable_mount |].
      cbn. split; discriminate. }
    assert (H2 : Viewer.reachable ["a"; "b"]%string
                   (Viewer.dispatch ["a"; "b"]%string (Viewer.MouseDown 0 0)
                      (Viewer.dispatch ["a"; "b"]%string
                         (Viewer.ZoomSlider (25 # 10)) Viewer.initialState))).
    { apply Viewer.reachable_event; [exact H1 | exact H1 | exact I]. }
    apply (Viewer.reachable_event ["a"; "b"]%string _ _ (Viewer.MouseMove 8 (-3)));
      [exact H2 | exact H2 | exact I].
  - split; [rewrite Hx | rewrite Hy]; reflexivity.
Defined.

(** * Further properties of the frame extractor *)

Section KeepsFacts.

Import Extractor.

(** A reading of the world that only depends on the extracting flag and on
    the stored file. *)
Variable X : Type.
Variable f : World -> X.
Hypothesis f_reads_control :
  forall w w', isExtracting w' = isExtracting w -> videoFile w' = videoFile w ->
               f w' = f w.

Lemma keeps_ret {A} (a : A) : keeps f (ret a).
Proof. intros w r w' E. injection E as _ <-. reflexivity. Qed.

Lemma keeps_throw {A} msg : keeps f (@throw A msg).
Proof. intros w r w' E. injection E as _ <-. reflexivity. Qed.

Lemma keeps_pending {A} : keeps f (@pending A).
Proof. intros w r w' E. injection E as _ <-. reflexivity. Qed.

Lemma keeps_bind {A B} (m : js A) (k : A -> js B) :
  keeps f m -> (forall a, keeps f (k a)) -> keeps f (bind m k).
Proof.
  intros Hm Hk w r w' E. unfold bind in E.
  destruct (m w) as [[a | msg |] w1] eqn:Em; apply Hm in Em.
  - apply Hk in E. congruence.
  - injection E as _ <-. exact Em.
  - injection E as _ <-. exact Em.
Qed.

Lemma keeps_emit e : keeps f (emit e).
Proof. intros w r w' E. injection E as _ <-. now apply f_reads_control. Qed.

Lemma keeps_setProgress p : keeps f (setProgress p).
Proof. intros w r w' E. injection E as _ <-. now apply f_reads_control. Qed.

Lemma keeps_putVideo v : keeps f (putVideo v).
Proof. intros w r w' E. injection E as _ <-. now apply f_reads_control. Qed.

Lemma keeps_putCanvas c : keeps f (putCanvas c).
Proof. intros w r w' E. injection E as _ <-. now apply f_reads_control. Qed.

Lemma keeps_getWorld : keeps f getWorld.
Proof. intros w r w' E. injection E as _ <-. reflexivity. Qed.

Lemma keeps_theVideo : keeps f theVideo.
Proof.
  intros w r w' E. unfold theVideo in E.
  destruct (videoRef w); injection E as _ <-; reflexivity.
Qed.

Lemma keeps_theCanvas : keeps f theCanvas.
Proof.
  intros w r w' E. unfold theCanvas in E.
  destruct (canvasRef w); injection E as _ <-; reflexivity.
Qed.

Create HintDb keeps.
Hint Resolve keeps_ret keeps_throw keeps_pending keeps_emit keeps_setProgress
  keeps_putVideo keeps_putCanvas keeps_getWorld keeps_theVideo keeps_theCanvas
  : keeps.

Ltac keeps_step :=
  repeat first
    [ apply keeps_bind; [| intros ?]
    | solve [auto with keeps]
    | match goal with
      | |- keeps _ (if ?b then _ else _) => destruct b
      | |- keeps _ (match ?o with Some _ => _ | None => _ end) => destruct o
      end ].

Lemma keeps_sizeCanvas v : keeps f (sizeCanvas v).
Proof.
  unfold sizeCanvas, setCanvasWidth, setCanvasHeight. keeps_step.
Qed.

Variable P : Platform.

Lemma keeps_seekTo t : keeps f (seekTo P t).
Proof.
  unfold seekTo. apply keeps_bind; [apply keeps_theVideo | intros v].
  destruct t; keeps_step.
Qed.

Lemma keeps_captureFrame : keeps f (captureFrame P).
Proof. unfold captureFrame. keeps_step. Qed.

Lemma keeps_sampleLoop fuel n interval :
  forall i frames, keeps f (sampleLoop P fuel n interval i frames).
Proof.
  induction fuel as [| fuel IH]; intros i frames; cbn [sampleLoop].
  - apply keeps_throw.
  - destruct (i <? n); [| apply keeps_ret].
    apply keeps_bind; [apply keeps_seekTo | intros _].
    apply keeps_bind; [apply keeps_captureFrame | intros frameData].
    apply keeps_bind; [apply keeps_setProgress | intros _].
    apply IH.
Qed.

Lemma keeps_extractFrames n : keeps f (extractFrames P n).
Proof.
  unfold extractFrames. apply keeps_bind; [apply keeps_getWorld | intros w0].
  destruct (canvasRef w0) as [c |]; [| apply keeps_ret].
  destruct (negb (context2d c)); [apply keeps_ret |].
  apply keeps_bind; [apply keeps_theVideo | intros v].
  apply keeps_bind; [apply keeps_sizeCanvas | intros _].
  apply keeps_sampleLoop.
Qed.

Lemma keeps_loadVideo file : keeps f (loadVideo P file).
Proof.
  unfold loadVideo. destruct (loadMetadata P file) as [[[d vw] vh] |].
  - apply keeps_putVideo.
  - keeps_step.
Qed.

Lemma keeps_tryBlock file : keeps f (tryBlock P file).
Proof.
  unfold tryBlock.
  apply keeps_bind; [apply keeps_loadVideo | intros _].
  apply keeps_bind; [apply keeps_emit | intros _].
  apply keeps_bind; [apply keeps_extractFrames | intros frames].
  destruct (0 <? Z.of_nat (List.length frames)); keeps_step.
Qed.

Lemma keeps_catchBlock msg : keeps f (catchBlock msg).
Proof. unfold catchBlock. keeps_step. Qed.

End KeepsFacts.

Section SettlingFacts.

Import Extractor.

Variable P : Platform.

(** How the handler leaves the React state. *)
Lemma handler_final w file v0 r w' :
  videoFile w = Some file -> videoRef w = Some v0 ->
  handleExtractFrames P w = (r, w') ->
  videoFile w' = videoFile w
  /\ ((r = Returned tt /\ isExtracting w' = false /\ progress w' = 0%Q)
      \/ (r = Pending /\ isExtracting w' = true)).
Proof.
  intros Hfile Hvideo. unfold handleExtractFrames.
  erewrite bind_returned by (unfold getWorld; reflexivity).
  rewrite Hfile, Hvideo.
  erewrite bind_returned by (unfold setIsExtracting; reflexivity).
  erewrite bind_returned by (unfold setProgress; reflexivity).
  match goal with
  | |- context [tryCatchFinally _ _ _ ?w2] => set (w2' := w2)
  end.
  assert (He2 : isExtracting w2' = true) by reflexivity.
  assert (Hf2 : videoFile w2' = videoFile w) by reflexivity.
  clearbody w2'.
  unfold tryCatchFinally.
  destruct (tryBlock P file w2') as [[[] | msg |] w3] eqn:Etry.
  all: pose proof (keeps_tryBlock bool isExtracting
                     (fun _ _ H _ => H) P file _ _ _ Etry) as He3.
  all: pose proof (keeps_tryBlock (option File) videoFile
                     (fun _ _ _ H => H) P file _ _ _ Etry) as Hf3.
  - unfold finallyBlock, bind, setIsExtracting, setProgress, ret.
    intros E. injection E as <- <-. cbn. split; [congruence |]. left. auto.
  - unfold catchBlock, finallyBlock, bind, emit, setIsExtracting, setProgress.
    intros E. injection E as <- <-. cbn. split; [congruence |]. left. auto.
  - intros E. injection E as <- <-. split; [congruence |]. right.
    split; [reflexivity | congruence].
Qed.

End SettlingFacts.



(** X11: selecting files.  With nothing selected the handler does nothing
    at all.  When the first selected file has a video MIME type it becomes
    the stored file, whatever was stored and whatever else was selected,
    and only that and two effects happen.  In every case, and across a
    click on "Extract Frames" too, a stored file keeps having a video MIME
    type. *)
Theorem selection_stores_first_video (P : Extractor.Platform)
    (files : list Extractor.File) (w : Extractor.World) :
  (files = [] ->
   Extractor.handleFileSelect files w = (Extractor.Returned tt, w))
  /\ (forall file rest,
        files = file :: rest ->
        String.prefix "video/" (Extractor.type file) = true ->
        exists w',
          Extractor.handleFileSelect files w = (Extractor.Returned tt, w')
          /\ Extractor.videoFile w' = Some file
          /\ Extractor.isExtracting w' = Extractor.isExtracting w
          /\ Extractor.progress w' = Extractor.progress w
          /\ Extractor.videoRef w' = Extractor.videoRef w
          /\ Extractor.canvasRef w' = Extractor.canvasRef w
          /\ Extractor.since w w'
             = [Extractor.SetVideoFile file;
                Extractor.ToastSuccess
                  "Video loaded! Click Extract Frames to begin."])
  /\ (Extractor.storedFileIsVideo w ->
      Extractor.storedFileIsVideo (snd (Extractor.handleFileSelect files w))
      /\ Extractor.storedFileIsVideo (snd (Extractor.handleExtractFrames P w))).
Proof.
  split; [intros ->; reflexivity |]. split.
  - intros file rest -> Htype. unfold Extractor.handleFileSelect.
    rewrite Htype. cbn [negb].
    unfold Extractor.bind, Extractor.setVideoFile, Extractor.emit.
    eexists. split; [reflexivity |]. cbn. repeat split.
    unfold Extractor.since. cbn [Extractor.trace].
    rewrite <- app_assoc, skipn_app, Nat.sub_diag, skipn_all. reflexivity.
  - intros Hinv. split.
    + destruct files as [| file rest]; [exact Hinv |].
      unfold Extractor.handleFileSelect.
      destruct (String.prefix "video/" (Extractor.type file)) eqn:Htype;
        cbn [negb].
      * intros f Hf. cbn in Hf. injection Hf as <-. exact Htype.
      * exact Hinv.
    + destruct (Extractor.handleExtractFrames P w) as [r w'] eqn:Hrun. cbn [snd].
      destruct (Extractor.videoFile w) as [file |] eqn:Hfile.
      2:{ rewrite handleExtractFrames_not_ready in Hrun by (left; exact Hfile).
          injection Hrun as _ <-. exact Hinv. }
      destruct (Extractor.videoRef w) as [v0 |] eqn:Hvideo.
      2:{ rewrite handleExtractFrames_not_ready in Hrun by (right; exact Hvideo).
          injection Hrun as _ <-. exact Hinv. }
      destruct (handler_final P w file v0 r w' Hfile Hvideo Hrun) as [Hf _].
      intros f Ef. apply Hinv. congruence.
Qed.

Lemma selection_stores_first_video_witness :
  exists w',
    Extractor.handleFileSelect
      [Extractor.mkFile "b.webm" "video/webm"; Extractor.mkFile "c.png" "image/png"]
      Extractor.sampleWorld = (Extractor.Returned tt, w')
    /\ Extractor.videoFile w' = Some (Extractor.mkFile "b.webm" "video/webm").
Proof.
  destruct (selection_stores_first_video Extractor.samplePlatform
              [Extractor.mkFile "b.webm" "video/webm";
               Extractor.mkFile "c.png" "image/png"] Extractor.sampleWorld)
    as (_ & Hok & _).
  destruct (Hok (Extractor.mkFile "b.webm" "video/webm")
              [Extractor.mkFile "c.png" "image/png"] eq_refl)
    as (w' & Hrun & Hfile & _).
  - vm_compute. reflexivity.
  - exists w'. split; assumption.
Defined.

(** X12: a rejected file cannot be extracted.  In a component with no
    stored file, selecting a file that is not a video and then running the
    extract handler shows the rejection toast and nothing else: no state
    update, no seek, no handover; and the "Extract Frames" button is not
    even rendered. *)
Theorem rejected_file_is_not_extracted (P : Extractor.Platform)
    (file : Extractor.File) (rest : list Extractor.File)
    (w : Extractor.World) :
  Extractor.videoFile w = None ->
  String.prefix "video/" (Extractor.type file) = false ->
  exists w',
    Extractor.bind (Extractor.handleFileSelect (file :: rest))
      (fun _ => Extractor.handleExtractFrames P) w
    = (Extractor.Returned tt, w')
    /\ Extractor.since w w'
       = [Extractor.ToastError "Please select a valid video file"]
    /\ Extractor.reactState w' = Extractor.reactState w
    /\ Extractor.videoRef w' = Extractor.videoRef w
    /\ Extractor.canvasRef w' = Extractor.canvasRef w
    /\ Extractor.extractButton (Extractor.render w') = None.
Proof.
  intros Hnone Htype.
  erewrite bind_returned.
  2:{ unfold Extractor.handleFileSelect. rewrite Htype. cbn [negb].
      unfold Extractor.emit. reflexivity. }
  rewrite handleExtractFrames_not_ready by (left; exact Hnone).
  eexists. split; [reflexivity |].
  unfold Extractor.since, Extractor.reactState, Extractor.render.
  cbn. rewrite Hnone, skipn_app, Nat.sub_diag, skipn_all.
  repeat split.
Qed.

Lemma rejected_file_is_not_extracted_witness :
  let w := Extractor.mkWorld false 0 None
             (Some (Extractor.mkVideo None Js.NotANumber 0 0 0))
             (Some (Extractor.mkCanvas true 300 150)) [] in
  exists w',
    Extractor.bind
      (Extractor.handleFileSelect [Extractor.mkFile "notes.txt" "text/plain"])
      (fun _ => Extractor.handleExtractFrames Extractor.samplePlatform) w
    = (Extractor.Returned tt, w')
    /\ Extractor.trace w'
       = [Extractor.ToastError "Please select a valid video file"].
Proof.
  cbv zeta.
  destruct (rejected_file_is_not_extracted Extractor.samplePlatform
              (Extractor.mkFile "notes.txt" "text/plain") []
              (Extractor.mkWorld false 0 None
                 (Some (Extractor.mkVideo None Js.NotANumber 0 0 0))
                 (Some (Extractor.mkCanvas true 300 150)) []))
    as (w' & Hrun & Hsince & _).
  - reflexivity.
  - vm_compute. reflexivity.
  - exists w'. split; [exact Hrun | exact Hsince].
Defined.

Section DisplayFacts.

Import Extractor.

Lemma Qfloor_unique (q : Q) (z : Z) :
  (inject_Z z <= q)%Q -> (q < inject_Z (z + 1))%Q -> Qfloor q = z.
Proof.
  intros Hlo Hhi.
  pose proof (Qfloor_resp_le _ _ Hlo) as H1. rewrite Qfloor_Z in H1.
  pose proof (Qle_lt_trans _ _ _ (Qfloor_le q) Hhi) as H2.
  rewrite <- Zlt_Qlt in H2. lia.
Qed.

(** With 100 samples, the progress after sample [i] reads [i + 1]. *)
Lemma progressAt_100 i : (progressAt FRAME_SIZE i == inject_Z (i + 1))%Q.
Proof. unfold progressAt, FRAME_SIZE. field. Qed.

(** The rounding of binary64 does not show on the rounded percentage:
    [Math.round(((i + 1) / 100) * 100)] is [i + 1] for each of the 100
    samples, also when the quotient and the product are rounded. *)
Lemma round_progress_binary64 :
  forallb
    (fun i => Js.round (Js.fmul (Js.fdiv (inject_Z (i + 1)) 100) 100) =? i + 1)
    (zrange 0 100) = true.
Proof. vm_compute. reflexivity. Qed.

Lemma round_progressAt i : Js.round (progressAt FRAME_SIZE i) = i + 1.
Proof.
  unfold Js.round. apply Qfloor_unique; rewrite progressAt_100.
  - unfold Qle, Qplus, inject_Z. cbn. lia.
  - unfold Qlt, Qplus, inject_Z. cbn. lia.
Qed.

End DisplayFacts.

Lemma since_app (w w' : Extractor.World) (tr : list Extractor.effect) :
  Extractor.trace w' = Extractor.trace w ++ tr -> Extractor.since w w' = tr.
Proof.
  intros E. unfold Extractor.since.
  rewrite E, skipn_app, Nat.sub_diag, skipn_all. reflexivity.
Qed.

(** ** The trace accounts for the progress *)

Section ProgressFacts.

Import Extractor.

Lemma progressAfter_app a b p0 :
  progressAfter (a ++ b) p0 = progressAfter b (progressAfter a p0).
Proof. apply fold_left_app. Qed.

Lemma tracks_ret {A} (a : A) : tracksProgress (ret a).
Proof.
  intros w r w' E. injection E as _ <-. exists []. now rewrite app_nil_r.
Qed.

Lemma tracks_throw {A} msg : tracksProgress (@throw A msg).
Proof.
  intros w r w' E. injection E as _ <-. exists []. now rewrite app_nil_r.
Qed.

Lemma tracks_pending {A} : tracksProgress (@pending A).
Proof.
  intros w r w' E. injection E as _ <-. exists []. now rewrite app_nil_r.
Qed.

Lemma tracks_bind {A B} (m : js A) (k : A -> js B) :
  tracksProgress m -> (forall a, tracksProgress (k a)) ->
  tracksProgress (bind m k).
Proof.
  intros Hm Hk w r w' E. unfold bind in E.
  destruct (m w) as [[a | msg |] w1] eqn:Em;
    destruct (Hm _ _ _ Em) as (tr1 & Ht1 & Hp1).
  - destruct (Hk a _ _ _ E) as (tr2 & Ht2 & Hp2).
    exists (tr1 ++ tr2). rewrite Ht2, Ht1, <- app_assoc.
    split; [reflexivity |]. now rewrite progressAfter_app, <- Hp1.
  - injection E as _ <-. now exists tr1.
  - injection E as _ <-. now exists tr1.
Qed.

Lemma tracks_emit e :
  (forall p, e <> SetProgress p) -> tracksProgress (emit e).
Proof.
  intros He w r w' E. injection E as _ <-. exists [e].
  split; [reflexivity |]. destruct e; try reflexivity. now elim (He p).
Qed.

Lemma tracks_setProgress p : tracksProgress (setProgress p).
Proof.
  intros w r w' E. injection E as _ <-. exists [SetProgress p].
  split; reflexivity.
Qed.

Lemma tracks_setIsExtracting b : tracksProgress (setIsExtracting b).
Proof.
  intros w r w' E. injection E as _ <-. exists [SetIsExtracting b].
  split; reflexivity.
Qed.

Lemma tracks_putVideo v : tracksProgress (putVideo v).
Proof.
  intros w r w' E. injection E as _ <-. exists []. cbn.
  now rewrite app_nil_r.
Qed.

Lemma tracks_putCanvas c : tracksProgress (putCanvas c).
Proof.
  intros w r w' E. injection E as _ <-. exists []. cbn.
  now rewrite app_nil_r.
Qed.

Lemma tracks_getWorld : tracksProgress getWorld.
Proof.
  intros w r w' E. injection E as _ <-. exists []. now rewrite app_nil_r.
Qed.

Lemma tracks_theVideo : tracksProgress theVideo.
Proof.
  intros w r w' E. unfold theVideo in E.
  destruct (videoRef w); injection E as _ <-; exists [];
    now rewrite app_nil_r.
Qed.

Lemma tracks_theCanvas : tracksProgress theCanvas.
Proof.
  intros w r w' E. unfold theCanvas in E.
  destruct (canvasRef w); injection E as _ <-; exists [];
    now rewrite app_nil_r.
Qed.

Create HintDb tracks.
Hint Resolve tracks_ret tracks_throw tracks_pending tracks_setProgress
  tracks_setIsExtracting tracks_putVideo tracks_putCanvas tracks_getWorld
  tracks_theVideo tracks_theCanvas : tracks.

Ltac tracks_step :=
  repeat first
    [ apply tracks_bind; [| intros ?]
    | solve [auto with tracks]
    | solve [apply tracks_emit; intros ?; discriminate]
    | match goal with
      | |- tracksProgress (if ?b then _ else _) => destruct b
      | |- tracksProgress (match ?o with Some _ => _ | None => _ end) =>
          destruct o
      end ].

Lemma tracks_sizeCanvas v : tracksProgress (sizeCanvas v).
Proof.
  unfold sizeCanvas, setCanvasWidth, setCanvasHeight. tracks_step.
Qed.

Variable P : Platform.

Lemma tracks_seekTo t : tracksProgress (seekTo P t).
Proof.
  unfold seekTo. apply tracks_bind; [apply tracks_theVideo | intros v].
  destruct t; tracks_step.
Qed.

Lemma tracks_captureFrame : tracksProgress (captureFrame P).
Proof. unfold captureFrame. tracks_step. Qed.

Lemma tracks_sampleLoop fuel n interval :
  forall i frames, tracksProgress (sampleLoop P fuel n interval i frames).
Proof.
  induction fuel as [| fuel IH]; intros i frames; cbn [sampleLoop].
  - apply tracks_throw.
  - destruct (i <? n); [| apply tracks_ret].
    apply tracks_bind; [apply tracks_seekTo | intros _].
    apply tracks_bind; [apply tracks_captureFrame | intros frameData].
    apply tracks_bind; [apply tracks_setProgress | intros _].
    apply IH.
Qed.

Lemma tracks_extractFrames n : tracksProgress (extractFrames P n).
Proof.
  unfold extractFrames. apply tracks_bind; [apply tracks_getWorld | intros w0].
  destruct (canvasRef w0) as [c |]; [| apply tracks_ret].
  destruct (negb (context2d c)); [apply tracks_ret |].
  apply tracks_bind; [apply tracks_theVideo | intros v].
  apply tracks_bind; [apply tracks_sizeCanvas | intros _].
  apply tracks_sampleLoop.
Qed.

Lemma tracks_loadVideo file : tracksProgress (loadVideo P file).
Proof.
  unfold loadVideo. destruct (loadMetadata P file) as [[[d vw] vh] |].
  - apply tracks_putVideo.
  - tracks_step.
Qed.

Lemma tracks_tryBlock file : tracksProgress (tryBlock P file).
Proof.
  unfold tryBlock.
  apply tracks_bind; [apply tracks_loadVideo | intros _].
  apply tracks_bind; [tracks_step | intros _].
  apply tracks_bind; [apply tracks_extractFrames | intros frames].
  destruct (0 <? Z.of_nat (List.length frames)); tracks_step.
Qed.

Lemma tracks_catchBlock msg : tracksProgress (catchBlock msg).
Proof. unfold catchBlock. tracks_step. Qed.

Lemma tracks_finallyBlock : tracksProgress finallyBlock.
Proof. unfold finallyBlock. tracks_step. Qed.

Lemma tracks_tryCatchFinally {A} (body : js A) handler final :
  tracksProgress body -> (forall msg, tracksProgress (handler msg)) ->
  tracksProgress final ->
  tracksProgress (tryCatchFinally body handler final).
Proof.
  intros Hb Hh Hf w r w' E. unfold tryCatchFinally in E.
  destruct (body w) as [[a | msg |] w1] eqn:Eb;
    destruct (Hb _ _ _ Eb) as (tr1 & Ht1 & Hp1).
  - assert (Hk : tracksProgress (bind final (fun _ => ret a)))
      by (apply tracks_bind; [exact Hf | intros _; apply tracks_ret]).
    destruct (Hk _ _ _ E) as (tr2 & Ht2 & Hp2).
    exists (tr1 ++ tr2). rewrite Ht2, Ht1, <- app_assoc.
    split; [reflexivity |]. now rewrite progressAfter_app, <- Hp1.
  - destruct (handler msg w1) as [r2 w2] eqn:Eh.
    destruct (Hh _ _ _ _ Eh) as (tr2 & Ht2 & Hp2).
    assert (Hk : w2 = w' /\ r2 = Pending /\ r = Pending
                 \/ bind final (fun _ w3 => (r2, w3)) w2 = (r, w')).
    { destruct r2; [right; exact E | right; exact E |].
      injection E as <- <-. left. auto. }
    destruct Hk as [(<- & _ & _) | Hk].
    + exists (tr1 ++ tr2). rewrite Ht2, Ht1, <- app_assoc.
      split; [reflexivity |]. now rewrite progressAfter_app, <- Hp1.
    + unfold bind in Hk.
      destruct (final w2) as [[[] | msg3 |] w3] eqn:Ef;
        destruct (Hf _ _ _ Ef) as (tr3 & Ht3 & Hp3);
        injection Hk as _ <-;
        exists (tr1 ++ tr2 ++ tr3);
        rewrite Ht3, Ht2, Ht1, <- !app_assoc;
        (split; [reflexivity |]);
        now rewrite !progressAfter_app, <- Hp1, <- Hp2.
  - injection E as _ <-. now exists tr1.
Qed.

Lemma tracks_handleExtractFrames : tracksProgress (handleExtractFrames P).
Proof.
  unfold handleExtractFrames.
  apply tracks_bind; [apply tracks_getWorld | intros w0].
  destruct (videoFile w0) as [file |]; [| apply tracks_ret].
  destruct (videoRef w0); [| apply tracks_ret].
  apply tracks_bind; [apply tracks_setIsExtracting | intros _].
  apply tracks_bind; [apply tracks_setProgress | intros _].
  apply tracks_tryCatchFinally.
  - apply tracks_tryBlock.
  - apply tracks_catchBlock.
  - apply tracks_finallyBlock.
Qed.

(** The progress after [k] complete turns of the loop. *)
Lemma progressAfter_iterations n interval c k :
  forall i p0,
    progressAfter (flat_map (iteration n interval c) (zrange i k)) p0
    = match k with
      | O => p0
      | S k' => progressAt n (i + Z.of_nat k')
      end.
Proof.
  induction k as [| k IH]; intros i p0; [reflexivity |].
  cbn [zrange flat_map iteration]. rewrite progressAfter_app, IH.
  destruct k as [| k']; cbn.
  - now rewrite Z.add_0_r.
  - f_equal. lia.
Qed.

End ProgressFacts.

(** X13: the progress on display while the extraction waits.  Whenever a
    run of the extract handler on a selected file is waiting for a seek
    that is not answered, the component it renders shows the progress
    line, and the rounded percentage on it is the number of frames drawn
    so far, from 0 to 99; the bar is given the progress of the state.
    Once the run has settled, the progress line is not rendered. *)
Theorem progress_display_counts_up (P : Extractor.Platform)
    (w : Extractor.World) (file : Extractor.File)
    (v0 : Extractor.HTMLVideoElement)
    (r : Extractor.outcome unit) (w' : Extractor.World) :
  Extractor.videoFile w = Some file ->
  Extractor.videoRef w = Some v0 ->
  Extractor.handleExtractFrames P w = (r, w') ->
  match r with
  | Extractor.Pending =>
      exists k : nat,
        List.length (Extractor.draws (Extractor.since w w')) = k
        /\ (k < 100)%nat
        /\ Extractor.progressLine (Extractor.render w')
           = Some (Z.of_nat k, Extractor.progress w')
  | _ => Extractor.progressLine (Extractor.render w') = None
  end.
Proof.
  intros Hfile Hvideo Hrun.
  destruct (handler_final P w file v0 r w' Hfile Hvideo Hrun)
    as [_ [(-> & He & _) | (-> & He)]].
  { unfold Extractor.render. cbn [Extractor.progressLine]. now rewrite He. }
  destruct (handleExtractFrames_anatomy P w file v0 Hfile Hvideo)
    as (r1 & w1 & body & Hrun1 & Htr & Hshape).
  rewrite Hrun in Hrun1. injection Hrun1 as <- <-.
  destruct (tracks_handleExtractFrames P _ _ _ Hrun) as (tr & Htr' & Hp).
  assert (Etr : tr = Extractor.SetIsExtracting true
                     :: Extractor.SetProgress 0 :: body).
  { rewrite Htr' in Htr. now apply app_inv_head in Htr. }
  subst tr. rewrite (since_app _ _ _ Htr).
  inversion Hshape; subst; clear Hshape.
  repeat match goal with x := _ |- _ => subst x end.
  match goal with Hend : Extractor.loopEnd _ _ _ _ _ _ _ _ _ _ |- _ =>
    destruct Hend as (-> & Hk & _) end.
  unfold Extractor.FRAME_SIZE in Hk.
  exists k.
  split.
  { cbn [Extractor.draws flat_map app]. unfold Extractor.loadedToast.
    cbn [flat_map app].
    change (flat_map (fun e => match e with
                               | Extractor.DrawImage w2 h => [(w2, h)]
                               | _ => []
                               end))
      with Extractor.draws.
    rewrite draws_app, draws_iterations, length_app, length_map, zrange_length.
    cbn. lia. }
  split; [lia |].
  assert (Eprog : Extractor.progress w'
                  = match k with
                    | O => 0%Q
                    | S k' => Extractor.progressAt 100 (0 + Z.of_nat k')
                    end).
  { rewrite Hp. unfold Extractor.loadedToast.
    cbn [Extractor.progressAfter fold_left].
    change (fold_left (fun p e => match e with
                                  | Extractor.SetProgress q => q
                                  | _ => p
                                  end))
      with Extractor.progressAfter.
    rewrite progressAfter_app, progressAfter_iterations.
    destruct k; reflexivity. }
  unfold Extractor.render. cbn [Extractor.progressLine]. rewrite He.
  do 2 f_equal. rewrite Eprog.
  destruct k as [| k']; [reflexivity |].
  rewrite Z.add_0_l. change 100 with Extractor.FRAME_SIZE.
  rewrite round_progressAt. lia.
Qed.

(** On a browser that stops answering seeks at 5 seconds of a 10 second
    clip, the run waits with 50 frames drawn and shows 50%. *)
Lemma progress_display_counts_up_witness :
  exists w',
    Extractor.handleExtractFrames Extractor.stallingPlatform
      Extractor.sampleWorld = (Extractor.Pending, w')
    /\ Extractor.progressLine (Extractor.render w')
       = Some (50, Extractor.progress w').
Proof.
  destruct (Extractor.handleExtractFrames Extractor.stallingPlatform
              Extractor.sampleWorld) as [r w'] eqn:Hrun.
  pose proof (progress_display_counts_up Extractor.stallingPlatform
                Extractor.sampleWorld Extractor.sampleFile
                (Extractor.mkVideo None Js.NotANumber 0 0 0) r w'
                eq_refl eq_refl Hrun) as Hshown.
  assert (Hr : r = Extractor.Pending
               /\ List.length (Extractor.draws
                                 (Extractor.since Extractor.sampleWorld w'))
                  = 50%nat).
  { vm_compute in Hrun. injection Hrun as <- <-. split; reflexivity. }
  destruct Hr as [-> Hdraws].
  destruct Hshown as (k & Hk & _ & Hline).
  rewrite Hdraws in Hk. subst k.
  exists w'. split; [reflexivity | exact Hline].
Defined.


(** X14: asked for no frames.  With [frameCount <= 0], [extractFrames]
    (canvas and context at hand) returns the empty sequence at once: it
    seeks nothing, draws nothing and reports no progress; all it has done
    is to resize the canvas. *)
Theorem extract_of_no_frames (P : Extractor.Platform) (n : Z)
    (w : Extractor.World) (v : Extractor.HTMLVideoElement)
    (c : Extractor.HTMLCanvasElement) :
  Extractor.videoRef w = Some v ->
  Extractor.canvasRef w = Some c ->
  Extractor.context2d c = true ->
  n <= 0 ->
  exists w',
    Extractor.extractFrames P n w = (Extractor.Returned [], w')
    /\ Extractor.trace w' = Extractor.trace w
    /\ Extractor.canvasRef w' = Some (Extractor.sizedCanvas v c)
    /\ Extractor.isExtracting w' = Extractor.isExtracting w
    /\ Extractor.videoFile w' = Extractor.videoFile w.
Proof.
  intros Hv Hc Hctx Hn.
  destruct (extractFrames_spec P n w v c Hv Hc Hctx)
    as (k & tail & r & w' & Hrun & Htr & Hcan & Hk & Hend); [intros; lia |].
  assert (Ek : k = 0%nat) by lia. subst k.
  assert (Hr : r = Extractor.Returned [] /\ tail = []).
  { destruct r as [fs | msg |]; cbn in Hend.
    - destruct Hend as (-> & _ & fs' & -> & Hall).
      inversion Hall. auto.
    - destruct Hend as (_ & Hlt & _). lia.
    - destruct Hend as (_ & Hlt & _). lia. }
  destruct Hr as [-> ->]. exists w'.
  split; [exact Hrun |]. cbn in Htr. rewrite app_nil_r in Htr.
  split; [exact Htr |]. split; [exact Hcan |].
  split.
  - exact (keeps_extractFrames bool Extractor.isExtracting
             (fun _ _ H _ => H) P n _ _ _ Hrun).
  - exact (keeps_extractFrames (option Extractor.File) Extractor.videoFile
             (fun _ _ _ H => H) P n _ _ _ Hrun).
Qed.

Lemma extract_of_no_frames_witness :
  exists w',
    Extractor.extractFrames Extractor.samplePlatform 0 Extractor.sampleLoaded
    = (Extractor.Returned [], w')
    /\ Extractor.trace w' = [].
Proof.
  destruct (extract_of_no_frames Extractor.samplePlatform 0
              Extractor.sampleLoaded Extractor.sampleVideo
              (Extractor.mkCanvas true 300 150))
    as (w' & Hrun & Htr & _).
  - reflexivity.
  - reflexivity.
  - reflexivity.
  - lia.
  - exists w'. split; [exact Hrun | exact Htr].
Defined.

(** X15: no upscaling, but a pixel can be lost.  For a video whose natural
    width and height are positive and at most 800, the longer side of the
    canvas that [extractFrames] draws on is the video's, and the shorter
    side is the video's or one pixel less: the binary64 value of
    [W / (W / H)] (or of [H * (W / H)]) can fall just below the whole
    number, and the canvas attribute truncates it.  This is the size of
    every draw of the run, however it ends. *)
Theorem small_video_keeps_its_size (P : Extractor.Platform) (n : Z)
    (w : Extractor.World) (v : Extractor.HTMLVideoElement)
    (c : Extractor.HTMLCanvasElement) (r : Extractor.outcome (list string))
    (w' : Extractor.World) :
  Extractor.videoRef w = Some v ->
  Extractor.canvasRef w = Some c ->
  Extractor.context2d c = true ->
  0 < Extractor.videoWidth v <= 800 ->
  0 < Extractor.videoHeight v <= 800 ->
  Extractor.extractFrames P n w = (r, w') ->
  let W := Extractor.videoWidth v in
  let H := Extractor.videoHeight v in
  exists cw ch,
    (exists c', Extractor.canvasRef w' = Some c'
                /\ Extractor.width c' = cw /\ Extractor.height c' = ch)
    /\ Forall (fun d => d = (cw, ch)) (Extractor.draws (Extractor.since w w'))
    /\ (H < W -> cw = W /\ H - 1 <= ch <= H)
    /\ (W <= H -> ch = H /\ W - 1 <= cw <= W).
Proof.
  intros Hv Hc Hctx HW HH Hrun W H.
  exists (Extractor.width (Extractor.sizedCanvas v c)),
         (Extractor.height (Extractor.sizedCanvas v c)).
  assert (Hsize : Extractor.canvasRef w' = Some (Extractor.sizedCanvas v c)
                  /\ Forall (fun d => d = (Extractor.width (Extractor.sizedCanvas v c),
                                           Extractor.height (Extractor.sizedCanvas v c)))
                       (Extractor.draws (Extractor.since w w'))).
  { destruct (Z.le_gt_cases 1 n) as [Hn | Hn];
      [destruct (Js.isFinite (Extractor.durationValue v)) eqn:Hfin |].
    2:{ destruct (extractFrames_not_finite P n w v c Hv Hc Hctx Hfin Hn)
          as (w1 & Hrun1 & Htr & Hcan & _).
        rewrite Hrun in Hrun1. injection Hrun1 as _ <-.
        split; [exact Hcan |].
        rewrite (since_app w w' []) by (now rewrite app_nil_r). constructor. }
    all: destruct (extractFrames_spec P n w v c Hv Hc Hctx)
           as (k & tail & r1 & w1 & Hrun1 & Htr & Hcan & _ & Hend);
         [solve [intros _; assumption | intros; lia] |];
         rewrite Hrun in Hrun1; injection Hrun1 as <- <-;
         (split; [exact Hcan |]);
         rewrite (since_app _ _ _ Htr), draws_app, draws_iterations;
         apply Forall_app; split;
         [ apply Forall_forall; intros d Hd; apply in_map_iff in Hd;
           destruct Hd as [_ [<- _]]; reflexivity
         | apply (loopEnd_tail P _ _ _ _ _ _ _ _ _ Hend) ]. }
  destruct Hsize as [Hcan Hdraws].
  split; [eexists; split; [exact Hcan | split; reflexivity] |].
  split; [exact Hdraws |].
  assert (HW' : 0 < Extractor.videoWidth v < 2 ^ 32) by lia.
  assert (HH' : 0 < Extractor.videoHeight v < 2 ^ 32) by lia.
  split.
  - intros Hlt.
    destruct (sizedCanvas_landscape v c HW' HH' Hlt) as (Ew & _ & Hgap).
    rewrite Ew in *. unfold Extractor.maxDimension in *.
    rewrite Z.min_r in * by lia. fold W H in Hgap |- *.
    split; [reflexivity | nia].
  - intros Hle.
    destruct (sizedCanvas_portrait v c HW' HH' Hle) as (Eh & _ & Hgap).
    rewrite Eh in *. unfold Extractor.maxDimension in *.
    rewrite Z.min_r in * by lia. fold W H in Hgap |- *.
    split; [reflexivity | nia].
Qed.

(** A 528 by 480 video is drawn on a canvas of 528 by 479. *)
Lemma small_video_keeps_its_size_witness :
  let v := Extractor.mkVideo (Some Extractor.sampleFile) (Js.Finite 4)
             528 480 0 in
  let w := Extractor.mkWorld true 0 (Some Extractor.sampleFile) (Some v)
             (Some (Extractor.mkCanvas true 300 150)) [] in
  exists cw ch,
    (exists c', Extractor.canvasRef
                  (snd (Extractor.extractFrames Extractor.samplePlatform 2 w))
                = Some c'
                /\ Extractor.width c' = cw /\ Extractor.height c' = ch)
    /\ cw = 528 /\ 479 <= ch <= 480
    /\ Extractor.height
         (Extractor.sizedCanvas v (Extractor.mkCanvas true 300 150)) = 479.
Proof.
  cbv zeta.
  set (v := Extractor.mkVideo (Some Extractor.sampleFile) (Js.Finite 4)
              528 480 0).
  set (w := Extractor.mkWorld true 0 (Some Extractor.sampleFile) (Some v)
              (Some (Extractor.mkCanvas true 300 150)) []).
  destruct (Extractor.extractFrames Extractor.samplePlatform 2 w)
    as [r w'] eqn:Hrun.
  destruct (small_video_keeps_its_size Extractor.samplePlatform 2 w v
              (Extractor.mkCanvas true 300 150) r w')
    as (cw & ch & Hcanvas & _ & Hland & _).
  - reflexivity.
  - reflexivity.
  - reflexivity.
  - cbn. lia.
  - cbn. lia.
  - exact Hrun.
  - exists cw, ch. split; [exact Hcanvas |].
    cbn [Extractor.videoWidth Extractor.videoHeight v] in Hland.
    split; [apply Hland; lia |]. split; [apply Hland; lia |].
    vm_compute. reflexivity.
Defined.

(** X16: no retry and no skipping.  However a run of [extractFrames] for
    [n >= 1] frames on a video of finite duration ends, it has sought the
    first [k] sample times, each once and in order, and nothing else.  If
    it returned, [k = n] and it drew [n] frames.  If it threw, the raster
    of sample [k - 1], which it had sought and drawn, is the one that
    failed; if it is pending, the seek to sample [k - 1] is the one that
    was not answered, and that sample was not drawn.  No sample after the
    failing one is touched.  On a video whose duration is infinite or NaN
    the run throws the TypeError of [video.currentTime = NaN] before any
    seek: it has no effect but the sizing of the canvas. *)
Theorem run_stops_at_first_failure (P : Extractor.Platform) (n : Z)
    (w : Extractor.World) (v : Extractor.HTMLVideoElement)
    (c : Extractor.HTMLCanvasElement) (r : Extractor.outcome (list string))
    (w' : Extractor.World) :
  Extractor.videoRef w = Some v ->
  Extractor.canvasRef w = Some c ->
  Extractor.context2d c = true ->
  1 <= n ->
  Extractor.extractFrames P n w = (r, w') ->
  let t := Extractor.sampleTime (Extractor.duration v / inject_Z n) in
  let c1 := Extractor.sizedCanvas v c in
  let tr := Extractor.since w w' in
  (Js.isFinite (Extractor.durationValue v) = true ->
   exists k : nat,
     Z.of_nat k <= n
     /\ Extractor.seeks tr = map t (Extractor.zrange 0 k)
     /\ match r with
        | Extractor.Returned frames =>
            Z.of_nat k = n /\ List.length frames = k
            /\ List.length (Extractor.draws tr) = k
        | Extractor.Thrown _ =>
            (1 <= k)%nat /\ List.length (Extractor.draws tr) = k
            /\ Extractor.toDataURL P (Extractor.atTime v (t (Z.of_nat k - 1)))
                 (Extractor.width c1) (Extractor.height c1) = None
        | Extractor.Pending =>
            (1 <= k)%nat /\ List.length (Extractor.draws tr) = (k - 1)%nat
            /\ Extractor.seeked P (Extractor.atTime v (t (Z.of_nat k - 1))) = false
        end)
  /\ (Js.isFinite (Extractor.durationValue v) = false ->
      r = Extractor.Thrown Extractor.nonFiniteTime
      /\ tr = []
      /\ Extractor.videoRef w' = Some v
      /\ Extractor.canvasRef w' = Some c1).
Proof.
  intros Hv Hc Hctx Hn Hrun t c1 tr. split.
  2:{ intros Hfin.
      destruct (extractFrames_not_finite P n w v c Hv Hc Hctx Hfin Hn)
        as (w1 & Hrun1 & Htr & Hcan & Hvid & _).
      rewrite Hrun in Hrun1. injection Hrun1 as -> <-.
      split; [reflexivity |]. split; [| split; assumption].
      unfold tr. apply since_app. now rewrite app_nil_r. }
  intros Hfin.
  destruct (extractFrames_spec P n w v c Hv Hc Hctx (fun _ => Hfin))
    as (k & tail & r1 & w1 & Hrun1 & Htr & _ & Hk & Hend).
  rewrite Hrun in Hrun1. injection Hrun1 as <- <-.
  assert (Etr : tr = flat_map
                       (Extractor.iteration n (Extractor.duration v / inject_Z n) c1)
                       (Extractor.zrange 0 k) ++ tail).
  { unfold tr. now apply since_app. }
  rewrite Etr, seeks_app, seeks_iterations, draws_app, draws_iterations,
    length_app, length_map, zrange_length.
  fold t.
  destruct r as [frames | msg |]; cbn in Hend.
  - destruct Hend as (-> & Hkn & fs' & -> & Hall).
    exists k. cbn. rewrite app_nil_r.
    apply Forall2_length in Hall. rewrite zrange_length in Hall.
    repeat split; lia.
  - destruct Hend as (-> & Hlt & Hnone).
    exists (S k). split; [lia |]. split.
    + rewrite zrange_snoc, map_app. reflexivity.
    + split; [lia |]. split; [cbn; lia |].
      replace (Z.of_nat (S k) - 1) with (0 + Z.of_nat k) by lia.
      exact Hnone.
  - destruct Hend as (-> & Hlt & Hfalse).
    exists (S k). split; [lia |]. split.
    + rewrite zrange_snoc, map_app. reflexivity.
    + split; [lia |]. split; [cbn; lia |].
      replace (Z.of_nat (S k) - 1) with (0 + Z.of_nat k) by lia.
      exact Hfalse.
Qed.

(** A browser whose raster fails from 5 seconds on: the run stops at the
    sixth of ten samples.  On a stream without end it stops before the
    first. *)
Lemma run_stops_at_first_failure_witness :
  let P := Extractor.mkPlatform (fun _ => Some (Js.Finite 10, 1920, 1080))
             (fun _ => true)
             (fun v _ _ => if Qle_bool 5 (Extractor.currentTime v)
                           then None else Some "x"%string) in
  let w' := snd (Extractor.extractFrames P 10 Extractor.sampleLoaded) in
  (exists k : nat,
     Z.of_nat k <= 10
     /\ Extractor.seeks (Extractor.since Extractor.sampleLoaded w')
        = map (Extractor.sampleTime (10 / inject_Z 10)) (Extractor.zrange 0 k))
  /\ Extractor.since Extractor.liveLoaded
       (snd (Extractor.extractFrames P 10 Extractor.liveLoaded)) = [].
Proof.
  cbv zeta.
  set (P := Extractor.mkPlatform (fun _ => Some (Js.Finite 10, 1920, 1080))
              (fun _ => true)
              (fun v _ _ => if Qle_bool 5 (Extractor.currentTime v)
                            then None else Some "x"%string)).
  split.
  - destruct (Extractor.extractFrames P 10 Extractor.sampleLoaded)
      as [r w'] eqn:Hrun.
    destruct (run_stops_at_first_failure P 10 Extractor.sampleLoaded
                Extractor.sampleVideo (Extractor.mkCanvas true 300 150) r w')
      as [Hfinite _].
    + reflexivity.
    + reflexivity.
    + reflexivity.
    + lia.
    + exact Hrun.
    + destruct Hfinite as (k & Hk & Hseeks & _); [reflexivity |].
      exists k. split; [exact Hk | exact Hseeks].
  - destruct (Extractor.extractFrames P 10 Extractor.liveLoaded)
      as [r w'] eqn:Hrun.
    destruct (run_stops_at_first_failure P 10 Extractor.liveLoaded
                Extractor.liveVideo (Extractor.mkCanvas true 300 150) r w')
      as [_ Hlive].
    + reflexivity.
    + reflexivity.
    + reflexivity.
    + lia.
    + exact Hrun.
    + apply Hlive. reflexivity.
Defined.

(** * The components together *)

Section PageFacts.

Import Index.

Lemma deliver_handovers tr s :
  deliver tr s
  = fold_left (fun st frames => handleFramesExtracted frames st)
      (Extractor.handovers tr) s.
Proof.
  revert s. induction tr as [| e tr IH]; intros s; [reflexivity |].
  unfold deliver in *. cbn [fold_left].
  destruct e; apply IH.
Qed.

(** What an extraction does to the page: nothing, or it stores 100 frames
    and opens the viewer tab. *)
Lemma extraction_cases P w s :
  extraction P w s = s
  \/ exists frames,
       extraction P w s = handleFramesExtracted frames s
       /\ List.length frames = 100%nat
       /\ Extractor.handovers
            (Extractor.since w (snd (Extractor.handleExtractFrames P w)))
          = [frames].
Proof.
  unfold extraction. rewrite deliver_handovers.
  destruct (Extractor.videoFile w) as [file |] eqn:Hfile.
  2:{ left. rewrite handleExtractFrames_not_ready by (left; exact Hfile).
      cbn [snd]. rewrite (since_app w w []) by (now rewrite app_nil_r).
      reflexivity. }
  destruct (Extractor.videoRef w) as [v0 |] eqn:Hvideo.
  2:{ left. rewrite handleExtractFrames_not_ready by (right; exact Hvideo).
      cbn [snd]. rewrite (since_app w w []) by (now rewrite app_nil_r).
      reflexivity. }
  destruct (handleExtractFrames_anatomy P w file v0 Hfile Hvideo)
    as (r & w' & body & Hrun & Htr & Hshape).
  rewrite Hrun. cbn [snd]. rewrite (since_app _ _ _ Htr).
  change (Extractor.handovers
            (Extractor.SetIsExtracting true :: Extractor.SetProgress 0 :: body))
    with (Extractor.handovers body).
  destruct (handler_handovers P file _ r body Hshape)
    as [[Hnone _] | (frames & _ & _ & Hone & _ & _ & _ & _ & _ & Hlen & _)].
  - left. now rewrite Hnone.
  - right. exists frames. rewrite Hone. auto.
Qed.

End PageFacts.

(** X17: what an extraction does to the page.  A click on "Extract
    Frames", in any state of the extractor and on any browser, either
    leaves the page as it is (its frames and its tab), or stores exactly
    the 100 frames handed over and opens the viewer tab; the info cards
    are then gone, and a viewer mounted on these frames shows the first of
    them, numbered 1, not the placeholder. *)
Theorem extraction_updates_page (P : Extractor.Platform)
    (w : Extractor.World) (s : Index.IndexState) :
  Index.extraction P w s = s
  \/ exists first rest,
       Index.extractedFrames (Index.extraction P w s) = first :: rest
       /\ List.length (first :: rest) = 100%nat
       /\ Extractor.handovers
            (Extractor.since w (snd (Extractor.handleExtractFrames P w)))
          = [first :: rest]
       /\ Index.activeTab (Index.extraction P w s) = "viewer"%string
       /\ Index.showsInfoCards (Index.extraction P w s) = false
       /\ Viewer.render (Index.extractedFrames (Index.extraction P w s))
            Viewer.initialState
          = Viewer.Image (Some first) (Js.Int 1).
Proof.
  destruct (extraction_cases P w s) as [E | (frames & E & Hlen & Hh)];
    [left; exact E | right].
  destruct frames as [| first rest]; [discriminate Hlen |].
  exists first, rest. rewrite E. cbn [Index.handleFramesExtracted
    Index.extractedFrames Index.activeTab].
  split; [reflexivity |]. split; [exact Hlen |]. split; [exact Hh |].
  split; [reflexivity |]. split.
  - reflexivity.
  - reflexivity.
Qed.

(** X18: the frames of the page.  In every state the page can reach, by
    tab changes and by extractions that succeed, fail or hang, the stored
    frame sequence is empty or has exactly 100 frames; the info cards are
    shown exactly when it is empty; and once frames are stored, no later
    extraction, failed ones included, leaves the page without frames. *)
Theorem page_frames_are_none_or_100 (s : Index.IndexState) :
  Index.reachable s ->
  (Index.extractedFrames s = []
   \/ List.length (Index.extractedFrames s) = 100%nat)
  /\ (Index.showsInfoCards s = true <-> Index.extractedFrames s = [])
  /\ (forall P w, Index.extractedFrames s <> [] ->
        Index.extractedFrames (Index.extraction P w s) <> []).
Proof.
  intros Hreach.
  assert (Hcards : forall st,
            Index.showsInfoCards st = true <-> Index.extractedFrames st = []).
  { intros st. unfold Index.showsInfoCards.
    destruct (Index.extractedFrames st); cbn; split; congruence. }
  split; [| split; [apply Hcards |]].
  - induction Hreach as [| s value _ IH | P w s _ IH].
    + left. reflexivity.
    + exact IH.
    + destruct (extraction_cases P w s) as [-> | (frames & -> & Hlen & _)];
        [exact IH | right; exact Hlen].
  - intros P w Hne.
    destruct (extraction_cases P w s) as [-> | (frames & -> & Hlen & _)];
      [exact Hne |].
    cbn. intros ->. discriminate Hlen.
Qed.

Lemma page_frames_are_none_or_100_witness :
  List.length
    (Index.extractedFrames
       (Index.extraction Extractor.samplePlatform Extractor.sampleWorld
          (Index.setActiveTab "viewer" Index.initialState))) = 100%nat.
Proof.
  destruct (page_frames_are_none_or_100
              (Index.extraction Extractor.samplePlatform Extractor.sampleWorld
                 (Index.setActiveTab "viewer" Index.initialState)))
    as ([Hnil | Hlen] & _).
  - apply Index.reachable_extraction, Index.reachable_tab, Index.reachable_mount.
  - exfalso. vm_compute in Hnil. discriminate Hnil.
  - exact Hlen.
Defined.

(** X19: from file to frames.  On a browser that answers every seek and
    rasterizes every frame, with the video element and a canvas context
    at hand, selecting a video file that loads and then clicking "Extract
    Frames" settles with that file stored, [isExtracting] off and the
    progress back at 0.  When the duration of the video is finite, this is
    after exactly one handover: 100 frames, frame [i] being the raster of
    the video at [i * (duration / 100)] on the sized canvas.  When it is
    infinite or NaN, nothing is handed over and nothing is sought: the
    first [video.currentTime = time] throws, and the run has reported the
    failure. *)
Theorem select_then_extract (P : Extractor.Platform)
    (file : Extractor.File) (rest : list Extractor.File)
    (m : Js.real * Z * Z) (w : Extractor.World)
    (v0 : Extractor.HTMLVideoElement) (c : Extractor.HTMLCanvasElement) :
  Extractor.videoRef w = Some v0 ->
  Extractor.canvasRef w = Some c ->
  Extractor.context2d c = true ->
  String.prefix "video/" (Extractor.type file) = true ->
  Extractor.loadMetadata P file = Some m ->
  Extractor.cooperative P ->
  let v := Extractor.loadedVideo file m in
  exists w',
    Extractor.bind (Extractor.handleFileSelect (file :: rest))
      (fun _ => Extractor.handleExtractFrames P) w
    = (Extractor.Returned tt, w')
    /\ Extractor.videoFile w' = Some file
    /\ Extractor.isExtracting w' = false
    /\ Extractor.progress w' = 0%Q
    /\ (Js.isFinite (Extractor.durationValue v) = true ->
        exists frames,
          Extractor.handovers (Extractor.since w w') = [frames]
          /\ List.length frames = 100%nat
          /\ Forall2 (fun i frame =>
                Extractor.toDataURL P
                  (Extractor.atTime v
                     (inject_Z i * (Extractor.duration v / inject_Z 100))%Q)
                  (Extractor.width (Extractor.sizedCanvas v c))
                  (Extractor.height (Extractor.sizedCanvas v c)) = Some frame)
               (Extractor.zrange 0 100) frames)
    /\ (Js.isFinite (Extractor.durationValue v) = false ->
        Extractor.handovers (Extractor.since w w') = []
        /\ Extractor.seeks (Extractor.since w w') = []
        /\ In Extractor.failureToast (Extractor.since w w')
        /\ In (Extractor.ConsoleError
                 ("Error extracting frames: " ++ Extractor.nonFiniteTime))
             (Extractor.since w w')).
Proof.
  intros Hvideo Hcanvas Hctx Htype Hload Hcoop v.
  erewrite bind_returned.
  2:{ unfold Extractor.handleFileSelect. rewrite Htype. cbn [negb].
      unfold Extractor.bind, Extractor.setVideoFile, Extractor.emit.
      reflexivity. }
  match goal with
  | |- context [Extractor.handleExtractFrames P ?w1] => set (w1' := w1)
  end.
  assert (Hf1 : Extractor.videoFile w1' = Some file) by reflexivity.
  assert (Hv1 : Extractor.videoRef w1' = Some v0) by exact Hvideo.
  assert (Hc1 : Extractor.canvasRef w1' = Some c) by exact Hcanvas.
  assert (Ht1 : Extractor.trace w1'
                = Extractor.trace w
                  ++ [Extractor.SetVideoFile file;
                      Extractor.ToastSuccess
                        "Video loaded! Click Extract Frames to begin."]).
  { subst w1'. cbn [Extractor.trace]. now rewrite <- app_assoc. }
  clearbody w1'.
  destruct (handleExtractFrames_anatomy P w1' file v0 Hf1 Hv1)
    as (r & w' & body & Hrun & Htr & Hshape).
  rewrite Hc1 in Hshape.
  assert (Hsince : Extractor.since w w'
                   = [Extractor.SetVideoFile file;
                      Extractor.ToastSuccess
                        "Video loaded! Click Extract Frames to begin."]
                     ++ Extractor.SetIsExtracting true
                        :: Extractor.SetProgress 0 :: body).
  { apply since_app. rewrite Htr, Ht1, <- app_assoc. reflexivity. }
  assert (Hr : r = Extractor.Returned tt).
  { destruct (Js.isFinite (Extractor.durationValue v)) eqn:Hfin.
    - apply (handler_succeeds P file _ r body Hshape Hcoop);
        [congruence | | eauto].
      intros m' Hm'. assert (m' = m) by congruence. subst m'. exact Hfin.
    - apply (handler_not_finite P file _ r body m c Hshape Hload eq_refl Hctx Hfin). }
  subst r.
  destruct (handler_final P w1' file v0 _ w' Hf1 Hv1 Hrun)
    as [Hfile [(_ & He & Hp) | (Habs & _)]]; [| discriminate Habs].
  exists w'. split; [exact Hrun |].
  split; [congruence |]. split; [exact He |]. split; [exact Hp |].
  rewrite Hsince. split.
  - intros Hfin.
    destruct (handler_succeeds P file _ _ body Hshape Hcoop) as [_ Hne];
      [congruence | | eauto |].
    { intros m' Hm'. assert (m' = m) by congruence. subst m'. exact Hfin. }
    destruct (handler_handovers P file _ _ body Hshape)
      as [[Hnone _] | (frames & m' & c' & Hone & _ & _ & Hm & Hc' & _ & Hlen & Hall)];
      [contradiction |].
    assert (m' = m) by congruence. assert (c' = c) by congruence. subst m' c'.
    exists frames. split; [exact Hone |]. split; [exact Hlen | exact Hall].
  - intros Hfin.
    destruct (handler_not_finite P file _ _ body m c Hshape Hload eq_refl Hctx Hfin)
      as [_ ->].
    split; [reflexivity |]. split; [reflexivity |].
    split; cbn; unfold Extractor.failureToast; auto 10.
Qed.

Lemma select_then_extract_witness :
  let w := Extractor.mkWorld false 0 None
             (Some (Extractor.mkVideo None Js.NotANumber 0 0 0))
             (Some (Extractor.mkCanvas true 300 150)) [] in
  (exists w' frames,
     Extractor.bind (Extractor.handleFileSelect [Extractor.sampleFile])
       (fun _ => Extractor.handleExtractFrames Extractor.samplePlatform) w
     = (Extractor.Returned tt, w')
     /\ Extractor.handovers (Extractor.since w w') = [frames]
     /\ List.length frames = 100%nat)
  /\ (exists w',
        Extractor.bind (Extractor.handleFileSelect [Extractor.sampleFile])
          (fun _ => Extractor.handleExtractFrames Extractor.livePlatform) w
        = (Extractor.Returned tt, w')
        /\ Extractor.handovers (Extractor.since w w') = []
        /\ Extractor.seeks (Extractor.since w w') = []).
Proof.
  cbv zeta. split.
  - destruct (select_then_extract Extractor.samplePlatform Extractor.sampleFile []
                (Js.Finite 10, 1920, 1080)
                (Extractor.mkWorld false 0 None
                   (Some (Extractor.mkVideo None Js.NotANumber 0 0 0))
                   (Some (Extractor.mkCanvas true 300 150)) [])
                (Extractor.mkVideo None Js.NotANumber 0 0 0)
                (Extractor.mkCanvas true 300 150))
      as (w' & Hrun & _ & _ & _ & Hfinite & _).
    + reflexivity.
    + reflexivity.
    + reflexivity.
    + vm_compute. reflexivity.
    + reflexivity.
    + split; [reflexivity | discriminate].
    + destruct Hfinite as (frames & Hh & Hlen & _); [reflexivity |].
      exists w', frames. auto.
  - destruct (select_then_extract Extractor.livePlatform Extractor.sampleFile []
                (Js.Infinity false, 1920, 1080)
                (Extractor.mkWorld false 0 None
                   (Some (Extractor.mkVideo None Js.NotANumber 0 0 0))
                   (Some (Extractor.mkCanvas true 300 150)) [])
                (Extractor.mkVideo None Js.NotANumber 0 0 0)
                (Extractor.mkCanvas true 300 150))
      as (w' & Hrun & _ & _ & _ & _ & Hlive).
    + reflexivity.
    + reflexivity.
    + reflexivity.
    + vm_compute. reflexivity.
    + reflexivity.
    + split; [reflexivity | discriminate].
    + destruct Hlive as (Hh & Hs & _); [reflexivity |].
      exists w'. auto.
Defined.
